(** * logo-chat: generation orchestration and branching thread store

    A shallow embedding of the server core of the logo-chat application:

    - [lib/image.ts]   the normaliser [enforcePng1024];
    - [lib/store.ts]   the in-memory session / thread store;
    - [lib/gemini.ts]  the generation client (image request, response
                       parsing, video operation polling);
    - [app/api/messages/route.ts]  the request handler [POST].

    JavaScript objects that are mutated in place live in an explicit
    heap: message arrays and the memory behind Node [Buffer]s are
    addressed by locations, so that copying a reference and copying the
    contents are different things in the model, as they are in the code.
    Asynchronous functions are written in a state-and-exception monad;
    a rejected promise is a [Throw].  Everything outside the repository
    (sharp, fetch, the file system, the clock) is a field of an
    environment record [Env].  [console.log] output is not modelled,
    and requests are handled one at a time: the interleaving of
    concurrent requests at an [await] is outside the model. *)

From stdpp Require Import gmap strings list pretty.
From Stdlib Require Import ZArith QArith.QArith_base Lia Strings.Byte Strings.Ascii.

#[local] Set Warnings "-register-all".

Local Open Scope string_scope.
Local Open Scope list_scope.
Local Open Scope Z_scope.

(** ** JavaScript values *)

Module Js.

(** A string used as a condition: the empty string is falsy. *)
Definition truthy_string (s : string) : bool :=
  match s with
  | EmptyString => false
  | String _ _ => true
  end.

(** An optional string used as a condition ([undefined] is falsy). *)
Definition truthy_opt (o : option string) : bool :=
  match o with
  | Some s => truthy_string s
  | None => false
  end.

(** [a || b] on optional strings. *)
Definition or_else (o : option string) (d : string) : string :=
  match o with
  | Some s => if truthy_string s then s else d
  | None => d
  end.

(** The result of [JSON.parse]. An object is its list of own
    properties, each key occurring once. *)
Inductive json : Type :=
| JNull
| JBool (b : bool)
| JNum (q : Q)
| JStr (s : string)
| JArr (items : list json)
| JObj (fields : list (string * json)).

Fixpoint assoc (k : string) (fields : list (string * json)) : option json :=
  match fields with
  | [] => None
  | (k', v) :: rest => if String.eqb k k' then Some v else assoc k rest
  end.

(** [typeof v === "object" && v !== null]: arrays are records too. *)
Definition isRecord (v : option json) : bool :=
  match v with
  | Some (JObj _) | Some (JArr _) => true
  | _ => false
  end.

(** [v[k]] for a property name [k] that is neither an array index,
    nor [length], nor a member of [Object.prototype] (all the keys
    read from a response are of this kind): defined on objects that
    own the key, [undefined] ([None]) otherwise. *)
Definition get (v : option json) (k : string) : option json :=
  match v with
  | Some (JObj fields) => assoc k fields
  | _ => None
  end.

(** [a ?? b]: the right operand is taken when the left one is
    [undefined] or [null]. *)
Definition nullish (a b : option json) : option json :=
  match a with
  | None | Some JNull => b
  | _ => a
  end.

(** [typeof v === "string"] with the string. *)
Definition as_string (v : option json) : option string :=
  match v with
  | Some (JStr s) => Some s
  | _ => None
  end.

(** [Array.isArray(v) ? v : []]. *)
Definition as_array (v : option json) : list json :=
  match v with
  | Some (JArr items) => items
  | _ => []
  end.

Definition isArray (v : option json) : bool :=
  match v with
  | Some (JArr _) => true
  | _ => false
  end.

(** A value used as a condition. *)
Definition truthy (v : option json) : bool :=
  match v with
  | None | Some JNull => false
  | Some (JBool b) => b
  | Some (JNum q) => negb (Qnum q =? 0)
  | Some (JStr s) => truthy_string s
  | Some (JArr _) | Some (JObj _) => true
  end.

End Js.
Export Js.

(** ** Heap, state and the monad of asynchronous code *)

Abbreviation byte := Byte.byte.

Definition loc := nat.

(** A Node [Buffer] is a window onto a piece of memory. *)
Record Buffer := mkBuffer {
  buf_mem : loc;
  buf_off : nat;
  buf_len : nat
}.

Inductive Role := user | assistant.

Record ChatMessage := mkChatMessage {
  id : string;
  role : Role;
  text : option string;
  imageUrl : option string;
  videoUrl : option string;
  timestamp : Z
}.

Record ThreadState := mkThreadState {
  messages : loc;                    (* the array object *)
  lastImage : option Buffer;
  lastImageMime : option string
}.

(** What the handler does to the outside world, in order. *)
Inductive Event :=
| EvSleep (ms : Z)
| EvGenerateContent (model : string) (system : option string)
    (inline : option (string * string)) (prompt : string)
| EvGenerateVideos (prompt : string) (base_image : option (string * string))
| EvPollOperation (name : string)
| EvDownload (uri : string)
| EvMkdir (dir : string)
| EvWriteFile (path : string) (data : list byte).

Record State := mkState {
  store : gmap string (gmap string ThreadState);
  arrays : gmap loc (list ChatMessage);
  memory : gmap loc (list byte);
  ticks : nat;                       (* calls of Date.now() so far *)
  draws : nat;                       (* calls of Math.random() so far *)
  trace : list Event
}.

Definition empty_state : State :=
  mkState ∅ ∅ ∅ 0 0 [].

Definition with_store (f : gmap string (gmap string ThreadState) → gmap string (gmap string ThreadState))
    (st : State) : State :=
  mkState (f (store st)) (arrays st) (memory st) (ticks st) (draws st) (trace st).

Definition with_arrays (f : gmap loc (list ChatMessage) → gmap loc (list ChatMessage))
    (st : State) : State :=
  mkState (store st) (f (arrays st)) (memory st) (ticks st) (draws st) (trace st).

Definition with_memory (f : gmap loc (list byte) → gmap loc (list byte))
    (st : State) : State :=
  mkState (store st) (arrays st) (f (memory st)) (ticks st) (draws st) (trace st).

Inductive outcome (A : Type) : Type :=
| Ok (a : A)
| Throw (message : string).
Arguments Ok {A} a.
Arguments Throw {A} message.

Definition M (A : Type) : Type := State → outcome A * State.

Definition ret {A} (a : A) : M A := λ st, (Ok a, st).

Definition bind {A B} (m : M A) (k : A → M B) : M B :=
  λ st, match m st with
        | (Ok a, st') => k a st'
        | (Throw e, st') => (Throw e, st')
        end.

Definition throw {A} (e : string) : M A := λ st, (Throw e, st).

(** [try { m } catch (e) { h(e.message) }] *)
Definition try_catch {A} (m : M A) (h : string → M A) : M A :=
  λ st, match m st with
        | (Ok a, st') => (Ok a, st')
        | (Throw e, st') => h e st'
        end.

Definition modify (f : State → State) : M unit := λ st, (Ok tt, f st).
Definition gets {A} (f : State → A) : M A := λ st, (Ok (f st), st).

(** An optional result of a collaborator, [None] being a rejection. *)
Definition or_throw {A} (o : option A) (e : string) : M A :=
  match o with
  | Some a => ret a
  | None => throw e
  end.

Notation "'let!' x ':=' m 'in' k" := (bind m (λ x, k))
  (at level 10, x pattern, m at level 100, k at level 200).
Notation "m ';;' k" := (bind m (λ _, k))
  (at level 100, k at level 200, right associativity).

Definition emit (e : Event) : M unit :=
  modify (λ st, mkState (store st) (arrays st) (memory st) (ticks st) (draws st)
                        (trace st ++ [e])).

(** *** Buffers *)

Definition read_memory (st : State) (l : loc) : list byte :=
  default [] (memory st !! l).

(** The bytes seen through a buffer. *)
Definition buffer_bytes (st : State) (b : Buffer) : list byte :=
  take (buf_len b) (drop (buf_off b) (read_memory st b.(buf_mem))).

(** A new buffer over fresh memory holding [bytes]
    ([Buffer.from(...)] of data that came from outside the heap). *)
Definition alloc_buffer (bytes : list byte) : M Buffer :=
  λ st, let l := fresh (dom (memory st)) in
        (Ok (mkBuffer l 0 (length bytes)), with_memory (insert l bytes) st).

(** [buf.subarray(start, end)] for [0 <= start <= end <= buf.length]:
    a new buffer object over the same memory. *)
Definition buffer_subarray (b : Buffer) (start stop : nat) : Buffer :=
  mkBuffer (buf_mem b) (buf_off b + start) (stop - start).

(** [buf.slice()]. On a Node [Buffer], [slice] is [subarray]: the
    result shares the memory of [buf] (unlike [Uint8Array.prototype.slice]). *)
Definition buffer_slice (b : Buffer) : Buffer :=
  buffer_subarray b 0 (buf_len b).

(** [buf[i] = v], for an index inside the buffer. *)
Definition buffer_write (b : Buffer) (i : nat) (v : byte) (st : State) : State :=
  if decide (i < buf_len b)%nat
  then with_memory (alter (λ bytes, <[(buf_off b + i)%nat := v]> bytes) (buf_mem b)) st
  else st.

(** *** Arrays of messages *)

Definition read_array (st : State) (l : loc) : list ChatMessage :=
  default [] (arrays st !! l).

(** A new array object ([[]] or [[...xs]]). *)
Definition alloc_array (xs : list ChatMessage) : M loc :=
  λ st, let l := fresh (dom (arrays st)) in
        (Ok l, with_arrays (insert l xs) st).

(** [arr.push(x)]. *)
Definition array_push (l : loc) (x : ChatMessage) : M unit :=
  modify (with_arrays (λ a, <[l := default [] (a !! l) ++ [x]]> a)).

(** ** The environment: everything that is not code of the repository *)

(** What [sharp(input).metadata()] reports; each field may be absent. *)
Record Metadata := mkMetadata {
  meta_width : option Z;
  meta_height : option Z;
  meta_format : option string
}.

(** A [fetch] response: [res.ok], [res.status], [await res.text()] and
    [await res.json()] (which rejects, [None], on a body that is not
    JSON). *)
Record Response := mkResponse {
  res_ok : bool;
  res_status : Z;
  res_text : string;
  res_json : option json
}.

Record Env := mkEnv {
  (* process.env *)
  GOOGLE_API_KEY : option string;
  env_GEMINI_IMAGE_MODEL : option string;
  (* Date.now() and Math.floor(Math.random() * 1e6), by call number *)
  date_now : nat → Z;
  random_1e6 : nat → Z;
  (* sharp: metadata() rejects ([None]) on bytes it cannot decode;
     extract({left, top, width, height}).resize(w, h, {fit: "cover"})
       .png({compressionLevel: 9, adaptiveFiltering: true}).toBuffer() *)
  sharp_metadata : list byte → option Metadata;
  sharp_extract_resize_png : list byte → Z → Z → Z → Z → Z → Z → option (list byte);
  (* Buffer base64 conversions, JSON.stringify, String.prototype.trim *)
  base64_encode : list byte → string;
  base64_decode : string → list byte;
  json_stringify : json → string;
  string_trim : string → string;
  (* the model API: POST :generateContent, POST :generateVideos,
     the n-th GET of an operation, GET of a video uri *)
  fetch_generateContent : string → option string → option (string * string) → string → Response;
  fetch_generateVideos : string → option (string * string) → Response;
  fetch_operation : string → nat → Response;
  fetch_uri : string → bool * Z * list byte;
  (* the file system: path.basename; stat + isFile + readFile of a file
     of public/themes ([None] when one of them fails); mkdir; writeFile *)
  path_basename : string → string;
  read_theme_file : string → option (list byte);
  fs_mkdir : string → bool;
  fs_writeFile : string → list byte → bool
}.

(** [Date.now()] *)
Definition Date_now (E : Env) : M Z :=
  λ st, (Ok (date_now E (ticks st)),
         mkState (store st) (arrays st) (memory st) (S (ticks st)) (draws st) (trace st)).

(** [Math.floor(Math.random() * 1e6)] *)
Definition Math_random_1e6 (E : Env) : M Z :=
  λ st, (Ok (random_1e6 E (draws st)),
         mkState (store st) (arrays st) (memory st) (ticks st) (S (draws st)) (trace st)).

(** ** lib/image.ts *)

Module image.

Definition TARGET_SIZE : Z := 1024.

Definition is_png (fmt : option string) : bool :=
  match fmt with
  | Some f => String.eqb f "png"
  | None => false
  end.

(** The square the code cuts out of a [width] x [height] image:
    [(left, top, size)]. *)
Definition crop_square (width height : Z) : Z * Z * Z :=
  let size := Z.min width height in
  let left_ := Z.max 0 ((width - size) / 2) in
  let top_ := Z.max 0 ((height - size) / 2) in
  (left_, top_, size).

Definition enforcePng1024 (E : Env) (input : Buffer) : M Buffer :=
  let! bytes := gets (λ st, buffer_bytes st input) in
  let! meta := or_throw (sharp_metadata E bytes)
                 "Input buffer contains unsupported image format" in
  let width := default TARGET_SIZE (meta_width meta) in
  let height := default TARGET_SIZE (meta_height meta) in
  if (width =? TARGET_SIZE) && (height =? TARGET_SIZE) && is_png (meta_format meta)
  then
    (* Already correct size and PNG *)
    ret input
  else
    (* Center-crop to square before resizing to avoid distortion *)
    let '(left_, top_, size) := crop_square width height in
    let! output := or_throw
      (sharp_extract_resize_png E bytes left_ top_ size size TARGET_SIZE TARGET_SIZE)
      "extract_area: bad extract area" in
    alloc_buffer output.

End image.

(** ** lib/store.ts *)

Module Store.

Definition thread_of (st : State) (sessionId threadId : string) : option ThreadState :=
  store st !! sessionId ≫= λ threads, threads !! threadId.

(** [session.threads.set(threadId, t)], the session being in the store. *)
Definition threads_set (sessionId threadId : string) (t : ThreadState) : M unit :=
  modify (with_store (λ s, <[sessionId := <[threadId := t]> (default ∅ (s !! sessionId))]> s)).

Definition getSession (sessionId : string) : M (gmap string ThreadState) :=
  let! s := gets (λ st, store st !! sessionId) in
  match s with
  | Some threads => ret threads
  | None =>
      modify (with_store (insert sessionId ∅));;
      ret ∅
  end.

(** [threadId] has the default value ["default"] in the source; every
    caller passes it. *)
Definition getThread (sessionId threadId : string) : M ThreadState :=
  let! session := getSession sessionId in
  match session !! threadId with
  | Some t => ret t
  | None =>
      let! arr := alloc_array [] in
      let t := mkThreadState arr None None in
      threads_set sessionId threadId t;;
      ret t
  end.

Definition setLastImage (sessionId threadId : string) (buf : Buffer) (mime : string) : M unit :=
  let! t := getThread sessionId threadId in
  threads_set sessionId threadId (mkThreadState (messages t) (Some buf) (Some mime)).

Definition addMessage (sessionId threadId : string) (msg : ChatMessage) : M unit :=
  let! t := getThread sessionId threadId in
  array_push (messages t) msg.

Definition getMessages (sessionId threadId : string) : M (list ChatMessage) :=
  let! thread := getThread sessionId threadId in
  gets (λ st, read_array st (messages thread)).

(** [`t-${Date.now()}-${Math.floor(Math.random() * 1e6)}`] *)
Definition fresh_thread_id (E : Env) : M string :=
  let! now := Date_now E in
  let! r := Math_random_1e6 E in
  ret ("t-" +:+ pretty now +:+ "-" +:+ pretty r).

(** [m.imageUrl || m.videoUrl] as a condition. *)
Definition has_media (m : ChatMessage) : bool :=
  truthy_opt (imageUrl m) || truthy_opt (videoUrl m).

Definition cloneThread (E : Env) (sessionId : string)
    (sourceThread newThreadId : option string) : M string :=
  let sid := sessionId in
  let! source := getThread sid (default "default" sourceThread) in
  let! id := match newThreadId with
             | Some n => if truthy_string n then ret n else fresh_thread_id E
             | None => fresh_thread_id E
             end in
  (* Find the latest image/video message from the source thread *)
  let! source_messages := gets (λ st, read_array st (messages source)) in
  let latestImageMessage := last (List.filter has_media source_messages) in
  let! copied := alloc_array source_messages in
  let cloned :=
    mkThreadState copied (buffer_slice <$> lastImage source) (lastImageMime source) in
  (* If there's a latest image/video message, create an inherited message *)
  match latestImageMessage with
  | Some latest =>
      let! now_id := Date_now E in
      let! now_ts := Date_now E in
      array_push (messages cloned)
        (mkChatMessage (pretty now_id +:+ "-inherited") assistant
           (Some "Inherited from parent node")
           (imageUrl latest) (videoUrl latest) now_ts)
  | None => ret tt
  end;;
  getSession sid;;
  threads_set sid id cloned;;
  ret id.

Definition createThread (E : Env) (sessionId : string) (threadId : option string) : M string :=
  let! id := match threadId with
             | Some n => if truthy_string n then ret n else fresh_thread_id E
             | None => fresh_thread_id E
             end in
  let! session := getSession sessionId in
  match session !! id with
  | Some _ => ret tt
  | None =>
      let! arr := alloc_array [] in
      threads_set sessionId id (mkThreadState arr None None)
  end;;
  ret id.

Definition deleteThread (sessionId threadId : string) : M bool :=
  let! session := getSession sessionId in
  modify (with_store (λ s, <[sessionId := delete threadId session]> s));;
  ret (bool_decide (is_Some (session !! threadId))).

(** The message log and the artifact bytes of a thread, as a reader
    of the store sees them. *)
Definition thread_messages (st : State) (sessionId threadId : string) : list ChatMessage :=
  match thread_of st sessionId threadId with
  | Some t => read_array st (messages t)
  | None => []
  end.

Definition thread_lastImage (st : State) (sessionId threadId : string) : option Buffer :=
  thread_of st sessionId threadId ≫= lastImage.

Definition thread_lastImageMime (st : State) (sessionId threadId : string) : option string :=
  thread_of st sessionId threadId ≫= lastImageMime.

Definition thread_artifact (st : State) (sessionId threadId : string)
    : option (list byte * option string) :=
  match thread_lastImage st sessionId threadId with
  | Some b => Some (buffer_bytes st b, thread_lastImageMime st sessionId threadId)
  | None => None
  end.

(** The thread object that [getThread] creates, and the state after. *)
Definition new_thread (st : State) : ThreadState :=
  mkThreadState (fresh (dom (arrays st))) None None.

Definition with_new_thread (sid tid : string) (st : State) : State :=
  mkState (<[sid := <[tid := new_thread st]> (default ∅ (store st !! sid))]> (store st))
          (<[fresh (dom (arrays st)) := []]> (arrays st))
          (memory st) (ticks st) (draws st) (trace st).

End Store.

(** ** lib/gemini.ts *)

Module gemini.

Record BaseImage := mkBaseImage { data : Buffer; mimeType : string }.

Record GenerateImageParams := mkGenerateImageParams {
  gi_prompt : string;
  gi_baseImage : option BaseImage;
  gi_modelId : option string;
  gi_templateId : option string
}.

Record GenerateVideoParams := mkGenerateVideoParams {
  gv_prompt : string;
  gv_baseImage : option BaseImage;
  gv_modelId : option string
}.

Definition GEMINI_IMAGE_MODEL (E : Env) : string :=
  or_else (env_GEMINI_IMAGE_MODEL E) "gemini-2.5-flash-image-preview".

(** *** Prompt templates *)

Record Template := mkTemplate { name : string; prompt : string }.

Definition logo : Template := mkTemplate "Logo Design"
"You are a logo-generation assistant using Gemini 2.5 Flash Image.
Always generate or edit a single logo at exactly 1024x1024 pixels.
Prioritize simple, high-contrast, scalable vector-like aesthetics with clean silhouettes and minimal shapes.
Maintain the existing composition unless the user explicitly requests a redesign.
If the user asks for an edit, treat the previous image as the base and apply the change.
Never output non-1024x1024 images.".

Definition general : Template := mkTemplate "General Images"
"You are an image generation assistant using Gemini 2.5 Flash Image.
Generate high-quality, detailed images at exactly 1024x1024 pixels.
Focus on photorealistic quality, rich details, and vibrant colors.
If the user asks for an edit, treat the previous image as the base and apply the change.
Create visually stunning and accurate representations of the user's request.
Never output non-1024x1024 images.".

Definition artistic : Template := mkTemplate "Artistic Images"
"You are an artistic image generation assistant using Gemini 2.5 Flash Image.
Create artistic, stylized images at exactly 1024x1024 pixels.
Focus on creative interpretations, unique art styles, and expressive visuals.
Emphasize artistic techniques like painting, illustration, digital art, or mixed media styles.
If the user asks for an edit, treat the previous image as the base and apply the change.
Never output non-1024x1024 images.".

Definition product : Template := mkTemplate "Product Images"
"You are a product photography assistant using Gemini 2.5 Flash Image.
Generate clean, professional product images at exactly 1024x1024 pixels.
Focus on clear, well-lit product shots with clean backgrounds.
Emphasize product details, textures, and commercial appeal.
If the user asks for an edit, treat the previous image as the base and apply the change.
Never output non-1024x1024 images.".

Definition portrait : Template := mkTemplate "Portrait & Character"
"You are a portrait generation assistant using Gemini 2.5 Flash Image.
Generate detailed portraits and character images at exactly 1024x1024 pixels.
Focus on facial features, expressions, and character design.
Emphasize realistic proportions, lighting, and emotional depth.
If the user asks for an edit, treat the previous image as the base and apply the change.
Never output non-1024x1024 images.".

Definition landscape : Template := mkTemplate "Landscapes & Scenes"
"You are a landscape and scene generation assistant using Gemini 2.5 Flash Image.
Generate beautiful landscapes, cityscapes, and environmental scenes at exactly 1024x1024 pixels.
Focus on composition, atmospheric effects, and scenic beauty.
Emphasize depth, lighting, and environmental storytelling.
If the user asks for an edit, treat the previous image as the base and apply the change.
Never output non-1024x1024 images.".

(** The own properties of the object literal [PROMPT_TEMPLATES]
    (the [icon] of a template is left out). *)
Definition PROMPT_TEMPLATES : list (string * Template) :=
  [("logo", logo); ("general", general); ("artistic", artistic);
   ("product", product); ("portrait", portrait); ("landscape", landscape)].

Definition VIDEO_SYSTEM_PROMPT : string :=
"You are a video-generation assistant using Veo 3.
Generate high-quality videos with synchronized audio based on the user's description.
Create cinematic content with realistic physics and smooth motion.
Keep videos engaging and professionally produced.
If provided with an image, use it as the starting frame for the video generation.".

(** [PROMPT_TEMPLATES] is a plain object, so [PROMPT_TEMPLATES[k]]
    also finds what it inherits from [Object.prototype]: functions
    (and, for [__proto__], the prototype itself), all of them truthy
    and none with a [prompt] property. *)
Definition Object_prototype_keys : list string :=
  ["constructor"; "hasOwnProperty"; "isPrototypeOf"; "propertyIsEnumerable";
   "toLocaleString"; "toString"; "valueOf"; "__proto__";
   "__defineGetter__"; "__defineSetter__"; "__lookupGetter__"; "__lookupSetter__"].

Inductive Property :=
| OwnTemplate (t : Template)
| Inherited
| Undefined.

Fixpoint own_template (k : string) (ts : list (string * Template)) : option Template :=
  match ts with
  | [] => None
  | (k', t) :: rest => if String.eqb k k' then Some t else own_template k rest
  end.

(** [PROMPT_TEMPLATES[k]] *)
Definition PROMPT_TEMPLATES_get (k : string) : Property :=
  match own_template k PROMPT_TEMPLATES with
  | Some t => OwnTemplate t
  | None => if bool_decide (k ∈ Object_prototype_keys) then Inherited else Undefined
  end.

(** Helper function to get system prompt based on model and template.
    The result is [None] where the JavaScript function returns
    [undefined]. *)
Definition getSystemPrompt (modelId templateId : option string) : option string :=
  if bool_decide (modelId = Some "veo-3.0-generate-preview") then
    Some VIDEO_SYSTEM_PROMPT
  else
    match templateId with
    | Some tid =>
        if truthy_string tid then
          match PROMPT_TEMPLATES_get tid with
          | OwnTemplate t => Some (prompt t)
          | Inherited => None
          | Undefined => Some (prompt logo)
          end
        else Some (prompt logo)
    | None =>
        (* Default to logo prompt for backward compatibility *)
        Some (prompt logo)
    end.

(** *** Strings and regular expressions *)

Definition lower (a : Ascii.ascii) : Ascii.ascii :=
  let n := Ascii.nat_of_ascii a in
  if (65 <=? n)%nat && (n <=? 90)%nat then Ascii.ascii_of_nat (n + 32) else a.

Fixpoint prefix_ci (p s : string) : bool :=
  match p, s with
  | EmptyString, _ => true
  | String a p', String b s' => Ascii.eqb (lower a) (lower b) && prefix_ci p' s'
  | String _ _, EmptyString => false
  end.

Fixpoint contains_ci (p s : string) : bool :=
  prefix_ci p s ||
  match s with
  | EmptyString => false
  | String _ s' => contains_ci p s'
  end.

(** [/gemini/i.test(s)] *)
Definition test_gemini (s : string) : bool := contains_ci "gemini" s.

(** [s.startsWith(p)], with what follows the prefix. *)
Fixpoint strip_prefix (p s : string) : option string :=
  match p, s with
  | EmptyString, _ => Some s
  | String a p', String b s' => if Ascii.eqb a b then strip_prefix p' s' else None
  | String _ _, EmptyString => None
  end.

(** The character class [[a-zA-Z0-9.+-]]. *)
Definition mime_char (a : Ascii.ascii) : bool :=
  let n := Ascii.nat_of_ascii a in
  ((97 <=? n) && (n <=? 122) || (65 <=? n) && (n <=? 90) || (48 <=? n) && (n <=? 57)
   || (n =? 46) || (n =? 43) || (n =? 45))%nat.

(** The longest run of class characters at the head of [s], and the rest. *)
Fixpoint span_mime (s : string) : string * string :=
  match s with
  | EmptyString => (EmptyString, EmptyString)
  | String a s' =>
      if mime_char a
      then let '(run, rest) := span_mime s' in (String a run, rest)
      else (EmptyString, s)
  end.

(** No line terminator (LF, CR, U+2028, U+2029 in UTF-8) occurs in [s]:
    [.] matches every other character, and [$] only the end of the text. *)
Fixpoint no_line_terminator (s : string) : bool :=
  match s with
  | EmptyString => true
  | String a s' =>
      negb (Ascii.eqb a "010"%char) && negb (Ascii.eqb a "013"%char)
      && match strip_prefix (String "226"%char (String "128"%char EmptyString)) s with
         | Some (String c _) =>
             negb (Ascii.eqb c "168"%char) && negb (Ascii.eqb c "169"%char)
         | _ => true
         end
      && no_line_terminator s'
  end.

(** [text.match(re)] for the regular expression of the source:
    the text [data:], a first group made of [image/] and one or more
    characters of the class, the text [;base64,], and a second group
    of any characters up to the end of the text. The result is
    [(m[2], m[1])]. Only the longest run of class characters can be
    followed by [;]. *)
Definition match_data_uri (text : string) : option (string * string) :=
  match strip_prefix "data:image/" text with
  | Some after =>
      let '(subtype, rest) := span_mime after in
      match subtype, strip_prefix ";base64," rest with
      | String _ _, Some payload =>
          if no_line_terminator payload
          then Some (payload, "image/" +:+ subtype)
          else None
      | _, _ => None
      end
  | None => None
  end.

(** *** Reading the response of the image model *)

Fixpoint first_some {A B} (f : A → option B) (l : list A) : option B :=
  match l with
  | [] => None
  | x :: rest =>
      match f x with
      | Some y => Some y
      | None => first_some f rest
      end
  end.

(** [p["inline_data"] ?? p["inlineData"] ?? p["file_data"] ?? p["fileData"]] *)
Definition part_inline (p : json) : option json :=
  nullish (nullish (nullish (get (Some p) "inline_data") (get (Some p) "inlineData"))
                   (get (Some p) "file_data"))
          (get (Some p) "fileData").

(** The inline-data test of the loop body: the base64 text and the
    MIME type. *)
Definition inline_payload (p : json) : option (string * string) :=
  let inline := part_inline p in
  if isRecord inline then
    match as_string (get inline "data") with
    | Some d =>
        let mime :=
          match as_string (get inline "mime_type") with
          | Some m => m
          | None =>
              match as_string (get inline "mimeType") with
              | Some m => m
              | None => "image/png"
              end
          end in
        Some (d, mime)
    | None => None
    end
  else None.

(** The text test of the loop body. *)
Definition text_payload (p : json) : option (string * string) :=
  match as_string (get (Some p) "text") with
  | Some t =>
      match strip_prefix "data:image/" t with
      | Some _ => match_data_uri t
      | None => None
      end
  | None => None
  end.

(** One turn of the inner loop of the source: [Some] when it returns. *)
Definition scan_part (p : json) : option (string * string) :=
  if isRecord (Some p) then
    match inline_payload p with
    | Some r => Some r
    | None => text_payload p
    end
  else None.

(** One turn of the outer loop. *)
Definition scan_candidate (c : json) : option (string * string) :=
  if isRecord (Some c) then
    let content := get (Some c) "content" in
    if isRecord content
    then first_some scan_part (as_array (get content "parts"))
    else None
  else None.

(** The top-level [images] array (experimental). *)
Definition scan_images (j : json) : option (string * string) :=
  if isRecord (Some j) then
    let first := head (as_array (get (Some j) "images")) in
    if isRecord first then
      match as_string (get first "data") with
      | Some d =>
          Some (d, match as_string (get first "mime_type") with
                   | Some m => m
                   | None => "image/png"
                   end)
      | None => None
      end
    else None
  else None.

(** What the code after [await res.json()] finds: the base64 text
    and the MIME type of the image, or nothing. *)
Definition find_image (j : json) : option (string * string) :=
  match (if isRecord (Some j)
         then first_some scan_candidate (as_array (get (Some j) "candidates"))
         else None) with
  | Some r => Some r
  | None => scan_images j
  end.

(** *** The two calls *)

Definition assertEnv (E : Env) : M unit :=
  if truthy_opt (GOOGLE_API_KEY E) then ret tt
  else throw "Missing GOOGLE_API_KEY in environment".

(** The model of the request: the caller's when the pattern matches
    it, the configured image model otherwise. *)
Definition select_model (E : Env) (modelId : option string) : string :=
  let chosen :=
    match modelId with
    | Some m => if truthy_string m && test_gemini m then m else GEMINI_IMAGE_MODEL E
    | None => GEMINI_IMAGE_MODEL E
    end in
  if truthy_string chosen then chosen else GEMINI_IMAGE_MODEL E.

(** [{ mime_type: baseImage.mimeType || "image/png",
       data: baseImage.data.toString("base64") }] when [baseImage?.data]. *)
Definition inline_of_base (E : Env) (baseImage : option BaseImage)
    : M (option (string * string)) :=
  match baseImage with
  | Some b =>
      let! bytes := gets (λ st, buffer_bytes st (data b)) in
      ret (Some (or_else (Some (mimeType b)) "image/png", base64_encode E bytes))
  | None => ret None
  end.

Definition generateOrEditImage (E : Env) (params : GenerateImageParams)
    : M (Buffer * string) :=
  assertEnv E;;
  let model := select_model E (gi_modelId params) in
  let! inline := inline_of_base E (gi_baseImage params) in
  let system := getSystemPrompt (gi_modelId params) (gi_templateId params) in
  emit (EvGenerateContent model system inline (gi_prompt params));;
  let res := fetch_generateContent E model system inline (gi_prompt params) in
  if negb (res_ok res) then
    throw ("Gemini API error " +:+ pretty (res_status res) +:+ ": " +:+ res_text res)
  else
    let! j := or_throw (res_json res) "Unexpected token in JSON" in
    match find_image j with
    | Some (d, mime) =>
        let! buffer := alloc_buffer (base64_decode E d) in
        ret (buffer, mime)
    | None => throw "Gemini did not return an image payload"
    end.

Definition maxAttempts : nat := 40.

(** The uri of the first generated video of a finished operation. *)
Definition video_uri (checkJson : json) : option string :=
  let result := get (Some checkJson) "result" in
  if isRecord result && isArray (get result "generated_videos") then
    let firstVideo := head (as_array (get result "generated_videos")) in
    if isRecord firstVideo && isRecord (get firstVideo "video")
    then as_string (get (get firstVideo "video") "uri")
    else None
  else None.

(** One turn of the polling loop: [Some] when the function returns,
    [None] when the loop goes on. *)
Definition poll_once (E : Env) (operationName : string) (attempt : nat)
    : M (option (Buffer * string)) :=
  emit (EvSleep 5000);;
  emit (EvPollOperation operationName);;
  let checkRes := fetch_operation E operationName attempt in
  if negb (res_ok checkRes) then
    throw ("Operation check failed: " +:+ pretty (res_status checkRes))
  else
    let! checkJson := or_throw (res_json checkRes) "Unexpected token in JSON" in
    if isRecord (Some checkJson) then
      match get (Some checkJson) "done" with
      | Some (JBool true) =>
          match video_uri checkJson with
          | Some uri =>
              emit (EvDownload uri);;
              let '(ok, status, content) := fetch_uri E uri in
              if ok then
                let! videoBuffer := alloc_buffer content in
                ret (Some (videoBuffer, "video/mp4"))
              else throw ("Failed to download video: " +:+ pretty status)
          | None => throw "Video generation completed but no video found in response"
          end
      | _ =>
          if truthy (get (Some checkJson) "error") then
            throw ("Veo 3 generation failed: "
                   +:+ json_stringify E (default JNull (get (Some checkJson) "error")))
          else ret None
      end
    else ret None.

(** [for (let attempt = ...; attempt < maxAttempts; attempt++)], with
    [remaining = maxAttempts - attempt]. *)
Fixpoint poll_loop (E : Env) (operationName : string) (attempt remaining : nat)
    : M (Buffer * string) :=
  match remaining with
  | O => throw "Veo 3 video generation timed out after 3+ minutes"
  | S remaining' =>
      let! r := poll_once E operationName attempt in
      match r with
      | Some v => ret v
      | None => poll_loop E operationName (S attempt) remaining'
      end
  end.

Definition generateVideo (E : Env) (params : GenerateVideoParams)
    : M (Buffer * string) :=
  assertEnv E;;
  let! base := inline_of_base E (gv_baseImage params) in
  emit (EvGenerateVideos (gv_prompt params) base);;
  let res := fetch_generateVideos E (gv_prompt params) base in
  if negb (res_ok res) then
    throw ("Veo 3 API error " +:+ pretty (res_status res) +:+ ": " +:+ res_text res)
  else
    let! j := or_throw (res_json res) "Unexpected token in JSON" in
    match (if isRecord (Some j) then as_string (get (Some j) "name") else None) with
    | Some operationName => poll_loop E operationName 0 maxAttempts
    | None => throw "Veo 3 did not return a valid operation"
    end.

End gemini.

(** ** app/api/messages/route.ts *)

Module route.

Import image Store gemini.

(** A value of a multipart form: a string or a [File]. *)
Inductive FormValue :=
| FormString (s : string)
| FormFile (content : list byte).

(** The body of the request as the handler reads it: [formData()]
    when the content type includes [multipart/form-data], [json()]
    otherwise; either may reject. *)
Inductive RequestBody :=
| FormBody (fields : list (string * FormValue))
| JsonBody (body : json)
| Unreadable (message : string).

(** [form.get(k)]: the first value of the field. *)
Fixpoint form_get (k : string) (fields : list (string * FormValue)) : option FormValue :=
  match fields with
  | [] => None
  | (k', v) :: rest => if String.eqb k k' then Some v else form_get k rest
  end.

Record Fields := mkFields {
  f_prompt : json;                   (* [prompt], of type any *)
  f_uploadBuffer : option Buffer;
  f_themeName : option string;
  f_modelId : option string;
  f_threadId : string
}.

(** [typeof v === "string" && v.trim()] then [v.trim()]. *)
Definition trimmed (E : Env) (v : option string) : option string :=
  match v with
  | Some s => if truthy_string (string_trim E s) then Some (string_trim E s) else None
  | None => None
  end.

Definition form_string (v : option FormValue) : option string :=
  match v with
  | Some (FormString s) => Some s
  | _ => None
  end.

(** Lines 31-66 of the handler. *)
Definition read_fields (E : Env) (body : RequestBody) : M Fields :=
  match body with
  | FormBody form =>
      let prompt := default "" (form_string (form_get "message" form)) in
      let! uploadBuffer :=
        match form_get "file" form with
        | Some (FormFile content) =>
            let! b := alloc_buffer content in ret (Some b)
        | _ => ret None
        end in
      ret (mkFields (JStr prompt) uploadBuffer
             (trimmed E (form_string (form_get "theme" form)))
             (trimmed E (form_string (form_get "model" form)))
             (default "default" (trimmed E (form_string (form_get "thread" form)))))
  | JsonBody body =>
      let message := get (Some body) "message" in
      ret (mkFields (if truthy message then default JNull message else JStr "")
             None
             (trimmed E (as_string (get (Some body) "theme")))
             (trimmed E (as_string (get (Some body) "model")))
             (default "default" (trimmed E (as_string (get (Some body) "thread")))))
  | Unreadable message => throw message
  end.

Inductive ReplyBody :=
| ErrorBody (error : string)
| MessageBody (thread : string) (message : ChatMessage).

(** [NextResponse.json(body, { status })] *)
Record Reply := mkReply { status : Z; body : ReplyBody }.

(** [uploadBuffer ? await enforcePng1024(uploadBuffer) : null]
    (line 96; a [Buffer] is truthy, whatever its length). *)
Definition normalize_upload (E : Env) (uploadBuffer : option Buffer) : M (option Buffer) :=
  match uploadBuffer with
  | Some b => let! n := enforcePng1024 E b in ret (Some n)
  | None => ret None
  end.

(** Optional theme image from public/themes (lines 99-114). *)
Definition theme_buffer (E : Env) (themeName : option string) : M (option Buffer) :=
  if truthy_opt themeName then
    try_catch
      (match read_theme_file E (path_basename E (default "" themeName)) with
       | Some content =>
           let! raw := alloc_buffer content in
           let! t := enforcePng1024 E raw in
           ret (Some t)
       | None => ret None
       end)
      (λ _, (* ignore invalid theme *) ret None)
  else ret None.

(** Precedence: upload > theme > lastImage (lines 117-123). *)
Definition select_base (normalizedUpload themeBuffer : option Buffer)
    (threadState : ThreadState) : option BaseImage :=
  match normalizedUpload with
  | Some n => Some (mkBaseImage n "image/png")
  | None =>
      match themeBuffer with
      | Some t => Some (mkBaseImage t "image/png")
      | None =>
          match lastImage threadState with
          | Some l => Some (mkBaseImage l (or_else (lastImageMime threadState) "image/png"))
          | None => None
          end
      end
  end.

(** Determine base image: uploaded or theme or last in this thread
    (lines 96-123). *)
Definition resolve_base (E : Env) (uploadBuffer : option Buffer)
    (themeName : option string) (threadState : ThreadState) : M (option BaseImage) :=
  let! normalizedUpload := normalize_upload E uploadBuffer in
  let! themeBuffer := theme_buffer E themeName in
  ret (select_base normalizedUpload themeBuffer threadState).

(** [await fs.promises.mkdir(dir, { recursive: true })] *)
Definition mkdir (E : Env) (dir : string) : M unit :=
  emit (EvMkdir dir);;
  if fs_mkdir E dir then ret tt else throw "EACCES: permission denied, mkdir".

(** [await fs.promises.writeFile(filepath, buf)] *)
Definition writeFile (E : Env) (filepath : string) (buf : Buffer) : M unit :=
  let! bytes := gets (λ st, buffer_bytes st buf) in
  if fs_writeFile E filepath bytes
  then emit (EvWriteFile filepath bytes)
  else throw "ENOSPC: no space left on device, write".

(** The body of the [try] block (lines 135-194). *)
Definition generate (E : Env) (sid threadId prompt : string) (modelId : option string)
    (baseImage : option BaseImage) : M Reply :=
  let isVideoModel := bool_decide (modelId = Some "veo-3") in
  if isVideoModel then
    (* Generate video with Veo 3 *)
    let! (video, _) := generateVideo E (mkGenerateVideoParams prompt baseImage modelId) in
    (* Persist video to public folder *)
    let dir := "public/outputs/" +:+ sid in
    mkdir E dir;;
    let! now := Date_now E in
    let filename := pretty now +:+ ".mp4" in
    let filepath := dir +:+ "/" +:+ filename in
    writeFile E filepath video;;
    let relUrl := "/outputs/" +:+ sid +:+ "/" +:+ filename in
    let! now_id := Date_now E in
    let! now_ts := Date_now E in
    let assistantMsg :=
      mkChatMessage (pretty now_id +:+ "-a") assistant None None (Some relUrl) now_ts in
    addMessage sid threadId assistantMsg;;
    ret (mkReply 200 (MessageBody threadId assistantMsg))
  else
    (* Generate image with Gemini Image *)
    let! (image, _) :=
      generateOrEditImage E (mkGenerateImageParams prompt baseImage modelId None) in
    (* Enforce 1024x1024 PNG *)
    let! png := enforcePng1024 E image in
    (* Persist to public folder *)
    let dir := "public/outputs/" +:+ sid in
    mkdir E dir;;
    let! now := Date_now E in
    let filename := pretty now +:+ ".png" in
    let filepath := dir +:+ "/" +:+ filename in
    writeFile E filepath png;;
    let relUrl := "/outputs/" +:+ sid +:+ "/" +:+ filename in
    (* Update thread state *)
    setLastImage sid threadId png "image/png";;
    let! now_id := Date_now E in
    let! now_ts := Date_now E in
    let assistantMsg :=
      mkChatMessage (pretty now_id +:+ "-a") assistant None (Some relUrl) None now_ts in
    addMessage sid threadId assistantMsg;;
    ret (mkReply 200 (MessageBody threadId assistantMsg)).

(** The [catch] block (lines 195-205). *)
Definition report_error (E : Env) (sid threadId : string) (msg : string) : M Reply :=
  let! now_id := Date_now E in
  let! now_ts := Date_now E in
  let assistantMsg :=
    mkChatMessage (pretty now_id +:+ "-a-err") assistant
      (Some ("Error: " +:+ msg)) None None now_ts in
  addMessage sid threadId assistantMsg;;
  ret (mkReply 500 (ErrorBody ("Error: " +:+ msg))).

(** The handler after the request has been read and the prompt
    checked (lines 76-206). *)
Definition handle (E : Env) (sid : string) (prompt : string) (f : Fields) : M Reply :=
  let threadId := f_threadId f in
  (* Record user message *)
  let! now_id := Date_now E in
  let! now_ts := Date_now E in
  let userMsg := mkChatMessage (pretty now_id +:+ "-u") user (Some prompt) None None now_ts in
  addMessage sid threadId userMsg;;
  let! threadState := getThread sid threadId in
  let! baseImage := resolve_base E (f_uploadBuffer f) (f_themeName f) threadState in
  try_catch (generate E sid threadId prompt (f_modelId f) baseImage)
            (report_error E sid threadId).

(** [sid] is the session identifier of the cookie. *)
Definition POST (E : Env) (sid : string) (body : RequestBody) : M Reply :=
  λ st,
    match read_fields E body st with
    | (Throw msg, st') => (Ok (mkReply 400 (ErrorBody ("Invalid request: " +:+ msg))), st')
    | (Ok f, st') =>
        match f_prompt f with
        | JStr prompt =>
            if truthy_string prompt then handle E sid prompt f st'
            else (Ok (mkReply 400 (ErrorBody "Missing message")), st')
        | _ => (Ok (mkReply 400 (ErrorBody "Missing message")), st')
        end
    end.

(** [GET]: [thread] is [url.searchParams.get("thread")]; the answer is
    [{ thread, messages }]. *)
Definition GET (sid : string) (thread : option string) : M (string * list ChatMessage) :=
  let threadId := or_else thread "default" in
  let! msgs := getMessages sid threadId in
  ret (threadId, msgs).

End route.

(** ** app/api/threads/route.ts *)

Module threads.

Import Store.

(** The answers of the two handlers. *)
Inductive Answer :=
| Created (thread : string)
| Deleted (ok : bool)
| Failed (status : Z) (error : string).

(** [body] is the result of [req.json()], [None] when it rejects
    (the handler then reads [{}]). *)
Definition POST (E : Env) (sid : string) (body : option json) : M Answer :=
  let body := default (JObj []) body in
  let source := route.trimmed E (as_string (get (Some body) "sourceThread")) in
  let! thread :=
    match source with
    | Some src => cloneThread E sid (Some src) None
    | None => createThread E sid None
    end in
  ret (Created thread).

(** [param] is [url.searchParams.get("thread")]; the body is read only
    when the parameter is absent or empty. *)
Definition DELETE (sid : string) (param : option string) (body : option json) : M Answer :=
  let threadId :=
    if truthy_opt param then param
    else as_string (get (Some (default (JObj []) body)) "thread") in
  if truthy_opt threadId then
    let! ok := deleteThread sid (default "" threadId) in
    ret (Deleted ok)
  else ret (Failed 400 "Missing thread").

End threads.

(** * Definitions used in the statements *)

(** ** Code that only allocates

    [frame st st']: the session store and every message array are the
    same, and every piece of memory allocated in [st] is still there,
    with the same bytes. The clock and the trace may have moved. *)

Definition frame (st st' : State) : Prop :=
  store st' = store st ∧ arrays st' = arrays st ∧ memory st ⊆ memory st'.

Lemma frame_refl st : frame st st.
Proof. by unfold frame. Qed.

Lemma frame_trans st1 st2 st3 : frame st1 st2 → frame st2 st3 → frame st1 st3.
Proof.
  intros (Hs & Ha & Hm) (Hs' & Ha' & Hm'). unfold frame.
  rewrite Hs', Ha'. repeat split; try done. by etrans.
Qed.

(** Every run of [m] is a frame. *)
Definition Framed {A} (m : M A) : Prop :=
  ∀ st r st', m st = (r, st') → frame st st'.

(** ** A concrete environment

    Stand-ins for the collaborators, so that the model can be run:
    an image is a header of five bytes (the format, 1 for PNG and 2 for
    JPEG, then the width and the height on two bytes each) followed by
    anything; base64 is replaced by the identity on byte strings. *)

Module Scenario.

Definition byte_Z (b : byte) : Z := Z.of_N (Byte.to_N b).

Definition format_name (b : byte) : option string :=
  if (byte_Z b =? 1) then Some "png"
  else if (byte_Z b =? 2) then Some "jpeg"
  else None.

Definition metadata (bytes : list byte) : option Metadata :=
  match bytes with
  | f :: wh :: wl :: hh :: hl :: _ =>
      let w := 256 * byte_Z wh + byte_Z wl in
      let h := 256 * byte_Z hh + byte_Z hl in
      match format_name f with
      | Some fmt =>
          if (0 <? w) && (0 <? h)
          then Some (mkMetadata (Some w) (Some h) (Some fmt))
          else None
      | None => None
      end
  | _ => None
  end.

(** A 1024 x 1024 PNG. *)
Definition png_1024 : list byte := [Byte.x01; Byte.x04; Byte.x00; Byte.x04; Byte.x00].

Definition extract_resize_png (bytes : list byte) (left_ top_ width height tw th : Z)
    : option (list byte) :=
  match metadata bytes with
  | Some m =>
      if (0 <=? left_) && (0 <=? top_) && (0 <? width) && (0 <? height)
         && (left_ + width <=? default 0 (meta_width m))
         && (top_ + height <=? default 0 (meta_height m))
         && (tw =? 1024) && (th =? 1024)
      then Some png_1024
      else None
  | None => None
  end.

Definition plain (status : Z) (j : json) : Response :=
  mkResponse (bool_decide (200 ≤ status < 300)) status "" (Some j).

(** The environment of a run: the answers of the model API, of the
    video download and of the theme directory are the parameters. *)
Definition env (content videos : Response) (operation : nat → Response)
    (download : bool * Z * list byte) (theme : option (list byte)) : Env :=
  {| GOOGLE_API_KEY := Some "key";
     env_GEMINI_IMAGE_MODEL := None;
     date_now := λ n, 1700000000000 + Z.of_nat n;
     random_1e6 := λ _, 424242;
     sharp_metadata := metadata;
     sharp_extract_resize_png := extract_resize_png;
     base64_encode := String.string_of_list_byte;
     base64_decode := String.list_byte_of_string;
     json_stringify := λ _, "{}";
     string_trim := λ s, s;
     fetch_generateContent := λ _ _ _ _, content;
     fetch_generateVideos := λ _ _, videos;
     fetch_operation := λ _ n, operation n;
     fetch_uri := λ _, download;
     path_basename := λ s, s;
     read_theme_file := λ _, theme;
     fs_mkdir := λ _, true;
     fs_writeFile := λ _ _, true |}.

Definition no_response : Response := mkResponse false 503 "unavailable" None.

(** An environment in which the model API is down. *)
Definition offline : Env :=
  env no_response no_response (λ _, no_response) (false, 503, []) None.

(** The model API is down, and every file of the themes directory
    holds the two letters [hi]. *)
Definition notes_as_theme : Env :=
  env no_response no_response (λ _, no_response) (false, 503, [])
      (Some [Byte.x68; Byte.x69]).

(** The model API is down, and every theme of the themes directory is
    a 1024 x 1024 PNG. *)
Definition themed : Env :=
  env no_response no_response (λ _, no_response) (false, 503, []) (Some png_1024).

(** A JPEG of 2000 x 1500 pixels, and a state in which a buffer holds it. *)
Definition jpeg_2000x1500 : list byte :=
  [Byte.x02; Byte.x07; Byte.xd0; Byte.x05; Byte.xdc; Byte.xaa; Byte.xbb].

(** The state after [m]. *)
Definition exec {A} (m : M A) (st : State) : State := snd (m st).

(** A session [s] whose thread [main] holds a three-byte artifact and
    one message that refers to it. *)
Definition one_artifact : State :=
  exec (let! b := alloc_buffer [Byte.x01; Byte.x02; Byte.x03] in
        Store.setLastImage "s" "main" b "image/png";;
        Store.addMessage "s" "main"
          (mkChatMessage "1-a" assistant None (Some "/outputs/s/1.png") None 1))
       empty_state.

Definition one_upload : State := exec (alloc_buffer jpeg_2000x1500) empty_state.

(** The session of [one_artifact], and a buffer that holds an uploaded
    JPEG. *)
Definition artifact_and_upload : State := exec (alloc_buffer jpeg_2000x1500) one_artifact.

(** A multipart request for the thread [main] with an uploaded file
    that is not an image. *)
Definition upload_of_text : route.RequestBody :=
  route.FormBody [("message", route.FormString "make it blue");
                  ("thread", route.FormString "main");
                  ("file", route.FormFile [Byte.x68; Byte.x69])].

(** The video model answers with an operation that is finished at the
    poll number [ready], and whose video can be downloaded. *)
Definition finished : json :=
  JObj [("done", JBool true);
        ("result", JObj [("generated_videos",
           JArr [JObj [("video", JObj [("uri", JStr "https://videos/1.mp4")])]])])].

Definition pending : json := JObj [("done", JBool false)].

Definition video_ready (ready : nat) : Env :=
  env no_response (plain 200 (JObj [("name", JStr "operations/1")]))
      (λ n, plain 200 (if (n <? ready)%nat then pending else finished))
      (true, 200, [Byte.x00; Byte.x01]) None.

(** The video model answers with an operation that never finishes. *)
Definition video_never : Env :=
  env no_response (plain 200 (JObj [("name", JStr "operations/1")]))
      (λ _, plain 200 pending) (false, 404, []) None.


End Scenario.

(** ** What the normaliser expects of sharp *)

(** The image in [bytes] is a 1024 x 1024 PNG. *)
Definition is_canonical (E : Env) (bytes : list byte) : Prop :=
  sharp_metadata E bytes
  = Some (mkMetadata (Some image.TARGET_SIZE) (Some image.TARGET_SIZE) (Some "png")).

(** The contract of the library: an image that decodes has a width and
    a height; a square inside the image can always be extracted,
    resized and encoded; and the result of the pipeline decodes as a
    PNG of the requested size. *)
Definition sharp_contract (E : Env) : Prop :=
  (∀ bytes m, sharp_metadata E bytes = Some m →
     ∃ w h, meta_width m = Some w ∧ meta_height m = Some h ∧ 0 < w ∧ 0 < h)
  ∧ (∀ bytes m w h l t s,
       sharp_metadata E bytes = Some m → meta_width m = Some w → meta_height m = Some h →
       0 ≤ l → 0 ≤ t → 0 < s → l + s ≤ w → t + s ≤ h →
       is_Some (sharp_extract_resize_png E bytes l t s s image.TARGET_SIZE image.TARGET_SIZE))
  ∧ (∀ bytes l t w h tw th out,
       sharp_extract_resize_png E bytes l t w h tw th = Some out →
       sharp_metadata E out = Some (mkMetadata (Some tw) (Some th) (Some "png"))).

(** ** The theme of a request *)

(** No theme is available from the state [st]: none is named, or the
    file of the named theme cannot be read, or sharp cannot decode the
    bytes of the file, or, more generally, the bytes of the file
    cannot be normalised. *)
Definition theme_unavailable (E : Env) (themeName : option string) (st : State) : Prop :=
  truthy_opt themeName = false
  ∨ (∃ name, themeName = Some name ∧ read_theme_file E (path_basename E name) = None)
  ∨ (∃ name content,
       themeName = Some name
       ∧ read_theme_file E (path_basename E name) = Some content
       ∧ sharp_metadata E content = None)
  ∨ (∃ name content raw sa e sb,
       themeName = Some name
       ∧ read_theme_file E (path_basename E name) = Some content
       ∧ alloc_buffer content st = (Ok raw, sa)
       ∧ image.enforcePng1024 E raw sa = (Throw e, sb)).

(** ** Requests *)

(** The body of the request could be read. *)
Definition readable (body : route.RequestBody) : Prop :=
  match body with
  | route.Unreadable _ => False
  | _ => True
  end.

(** The prompt text of a request, when it has one. *)
Definition prompt_of (body : route.RequestBody) : option string :=
  match body with
  | route.FormBody form => route.form_string (route.form_get "message" form)
  | route.JsonBody body => as_string (get (Some body) "message")
  | route.Unreadable _ => None
  end.

(** ** Cloning *)

(** The message that [cloneThread] appends for the latest message
    with an image or a video. *)
Definition is_inherited_from (latest inherited : ChatMessage) : Prop :=
  role inherited = assistant
  ∧ text inherited = Some "Inherited from parent node"
  ∧ imageUrl inherited = imageUrl latest
  ∧ videoUrl inherited = videoUrl latest
  ∧ ∃ now : Z, id inherited = pretty now +:+ "-inherited".

(** ** Strings *)

(** Every character of [s] passes the test [f]. *)
Fixpoint all_chars (f : Ascii.ascii → bool) (s : string) : bool :=
  match s with
  | EmptyString => true
  | String a s' => f a && all_chars f s'
  end.

(** ** The order of the scan of an image response *)

Module ResponseOrder.
Import gemini.

(** The parts of the content of a candidate. *)
Definition candidate_parts (c : json) : list json :=
  if isRecord (Some c) then
    let content := get (Some c) "content" in
    if isRecord content then as_array (get content "parts") else []
  else [].

(** The parts of the candidates of a response, in their order. *)
Definition response_parts (j : json) : list json :=
  if isRecord (Some j)
  then flat_map candidate_parts (as_array (get (Some j) "candidates"))
  else [].

(** [v] when it is neither [undefined] nor [null]. *)
Definition defined (v : option json) : option json :=
  match v with
  | None | Some JNull => None
  | Some x => Some x
  end.

(** The keys under which a part may declare inline data, in the order
    in which they are looked up. *)
Definition inline_keys : list string :=
  ["inline_data"; "inlineData"; "file_data"; "fileData"].

(** The inline data that a part declares: the value of the first key
    that holds one. *)
Definition declared_inline (p : json) : option json :=
  head (omap (λ k, defined (get (Some p) k)) inline_keys).

(** The image that inline data carries: its [data], when that is a
    string, with the MIME type declared under the first of [mime_keys]
    that holds a string, and [image/png] when none does. *)
Definition inline_image (mime_keys : list string) (inline : json)
    : option (string * string) :=
  match get (Some inline) "data" with
  | Some (JStr d) =>
      Some (d, default "image/png"
                 (head (omap (λ k, as_string (get (Some inline) k)) mime_keys)))
  | _ => None
  end.

Definition inline_of_part (p : json) : option (string * string) :=
  declared_inline p ≫= inline_image ["mime_type"; "mimeType"].

(** [t] is the data URI of an image: the text
    [data:image/<subtype>;base64,<payload>], for a subtype of one or
    more characters of the class and a payload on one line. *)
Definition is_image_data_uri (t payload mime : string) : Prop :=
  ∃ subtype,
    subtype ≠ ""
    ∧ all_chars mime_char subtype = true
    ∧ no_line_terminator payload = true
    ∧ mime = "image/" +:+ subtype
    ∧ t = "data:" +:+ mime +:+ ";base64," +:+ payload.

(** The text of the part is the data URI of an image. *)
Definition text_of_part (p : json) (payload mime : string) : Prop :=
  ∃ t, get (Some p) "text" = Some (JStr t) ∧ is_image_data_uri t payload mime.

(** What one part gives: its inline data when it carries some,
    otherwise the image of its text when the text is a data URI,
    otherwise nothing. *)
Definition part_gives (p : json) (r : option (string * string)) : Prop :=
  match inline_of_part p with
  | Some i => r = Some i
  | None =>
      match r with
      | Some (d, mime) => text_of_part p d mime
      | None => ∀ d mime, ¬ text_of_part p d mime
      end
  end.

(** What the first part that gives an image gives. *)
Inductive first_part_gives : list json → option (string * string) → Prop :=
| no_part_gives : first_part_gives [] None
| this_part_gives p parts i :
    part_gives p (Some i) → first_part_gives (p :: parts) (Some i)
| later_part_gives p parts r :
    part_gives p None → first_part_gives parts r → first_part_gives (p :: parts) r.

(** The first element of the top-level [images] array, read as inline
    data whose MIME type can be declared under [mime_type] only. *)
Definition images_fallback (j : json) : option (string * string) :=
  head (as_array (get (Some j) "images")) ≫= inline_image ["mime_type"].

(** The reading in one pass over the parts: the first part that gives
    an image, each part being tested for inline data and then for a
    data URI; the [images] array when no part gives one. *)
Definition read_by_part (j : json) (r : option (string * string)) : Prop :=
  ∃ r1,
    first_part_gives (response_parts j) r1
    ∧ r = match r1 with
          | Some i => Some i
          | None => images_fallback j
          end.

(** What the first part whose text is a data URI gives. *)
Inductive first_text_gives : list json → option (string * string) → Prop :=
| no_text_gives : first_text_gives [] None
| this_text_gives p parts d mime :
    text_of_part p d mime → first_text_gives (p :: parts) (Some (d, mime))
| later_text_gives p parts r :
    (∀ d mime, ¬ text_of_part p d mime) →
    first_text_gives parts r → first_text_gives (p :: parts) r.

(** The reading in three passes, in the order of the specification:
    first the inline data of the parts, then a text part that is a
    data URI, then the [images] array. *)
Definition read_in_order (j : json) (r : option (string * string)) : Prop :=
  match head (omap inline_of_part (response_parts j)) with
  | Some i => r = Some i
  | None =>
      ∃ r1,
        first_text_gives (response_parts j) r1
        ∧ r = match r1 with
              | Some i => Some i
              | None => images_fallback j
              end
  end.

(** The response to the request that [generateOrEditImage] sends from
    the state [st]. *)
Definition image_request_inline (E : Env) (st : State) (baseImage : option BaseImage)
    : option (string * string) :=
  match baseImage with
  | Some b =>
      Some (or_else (Some (mimeType b)) "image/png", base64_encode E (buffer_bytes st (data b)))
  | None => None
  end.

Definition image_request_event (E : Env) (st : State) (params : GenerateImageParams) : Event :=
  EvGenerateContent (select_model E (gi_modelId params))
    (getSystemPrompt (gi_modelId params) (gi_templateId params))
    (image_request_inline E st (gi_baseImage params)) (gi_prompt params).

Definition image_response (E : Env) (st : State) (params : GenerateImageParams) : Response :=
  fetch_generateContent E (select_model E (gi_modelId params))
    (getSystemPrompt (gi_modelId params) (gi_templateId params))
    (image_request_inline E st (gi_baseImage params)) (gi_prompt params).

(** A response in which a data-URI text part comes before an
    inline-data part. *)
Definition text_before_inline : json :=
  JObj [("candidates", JArr [
    JObj [("content", JObj [("parts", JArr [
      JObj [("text", JStr "data:image/png;base64,VEVYVA==")];
      JObj [("inline_data", JObj [("mime_type", JStr "image/jpeg");
                                  ("data", JStr "SU5MSU5F")])] ])])] ])].

End ResponseOrder.

(** ** Polling a video operation *)

Module Polling.
Import gemini.

(** [checkJson.done === true] *)
Definition reports_done (j : json) : bool :=
  match get (Some j) "done" with
  | Some (JBool true) => true
  | _ => false
  end.

(** The answer to a poll is a JSON record with an error payload. *)
Definition reports_error (r : Response) : bool :=
  res_ok r &&
  match res_json r with
  | Some j => isRecord (Some j) && truthy (get (Some j) "error")
  | None => false
  end.

(** The answer to a poll is a JSON value that reports neither
    completion nor an error. *)
Definition still_pending (r : Response) : bool :=
  res_ok r &&
  match res_json r with
  | Some j =>
      if isRecord (Some j)
      then negb (reports_done j) && negb (truthy (get (Some j) "error"))
      else true
  | None => false
  end.

(** The answer carries a result. *)
Definition carries_result (j : json) : bool :=
  match get (Some j) "result" with
  | None | Some JNull => false
  | Some _ => true
  end.

(** The failure of an operation whose answer [j] carries an error
    payload and no finished result: the error payload, or, when the
    answer says [done: true], the absence of a video. *)
Definition operation_failure (E : Env) (j : json) : string :=
  if reports_done j
  then "Video generation completed but no video found in response"
  else "Veo 3 generation failed: "
       +:+ json_stringify E (default JNull (get (Some j) "error")).

(** What [n] turns of the loop do: a wait of 5000 ms, then a poll. *)
Definition poll_events (name : string) (n : nat) : list Event :=
  concat (replicate n [EvSleep 5000; EvPollOperation name]).

Definition polled (name : string) (st : State) : State :=
  mkState (store st) (arrays st) (memory st) (ticks st) (draws st)
          ((trace st ++ [EvSleep 5000]) ++ [EvPollOperation name]).

Definition video_request_event (E : Env) (st : State) (params : GenerateVideoParams) : Event :=
  EvGenerateVideos (gv_prompt params)
    (ResponseOrder.image_request_inline E st (gv_baseImage params)).

Definition requested (E : Env) (params : GenerateVideoParams) (st : State) : State :=
  mkState (store st) (arrays st) (memory st) (ticks st) (draws st)
          (trace st ++ [video_request_event E st params]).

(** The name of the operation that the first request of
    [generateVideo] starts from the state [st], when it starts one:
    there is a credential, and the answer is a successful JSON record
    with a [name] that is a string. *)
Definition started_operation (E : Env) (st : State) (params : GenerateVideoParams)
    : option string :=
  if truthy_opt (GOOGLE_API_KEY E) then
    let res := fetch_generateVideos E (gv_prompt params)
                 (ResponseOrder.image_request_inline E st (gv_baseImage params)) in
    if res_ok res then
      match res_json res with
      | Some j => if isRecord (Some j) then as_string (get (Some j) "name") else None
      | None => None
      end
    else None
  else None.

(** The answer of an operation that has failed: [done: true] with an
    error payload and no result. *)
Definition failed : json :=
  JObj [("done", JBool true);
        ("error", JObj [("code", JNum (13 # 1)); ("message", JStr "internal")])].

(** The video model answers with an operation that fails at the poll
    number [at]. *)
Definition video_fails (at_ : nat) : Env :=
  Scenario.env Scenario.no_response
    (Scenario.plain 200 (JObj [("name", JStr "operations/1")]))
    (λ n, Scenario.plain 200 (if (n <? at_)%nat then Scenario.pending else failed))
    (false, 404, []) None.

(** An answer outside the protocol of the operations endpoint: it
    carries an error payload and, at once, a finished video that can
    be downloaded. *)
Definition error_and_video : json :=
  JObj [("done", JBool true);
        ("error", JObj [("code", JNum (13 # 1)); ("message", JStr "internal")]);
        ("result", JObj [("generated_videos",
           JArr [JObj [("video", JObj [("uri", JStr "https://videos/1.mp4")])]])])].

Definition error_and_video_env : Env :=
  Scenario.env Scenario.no_response
    (Scenario.plain 200 (JObj [("name", JStr "operations/1")]))
    (λ _, Scenario.plain 200 error_and_video)
    (true, 200, [Byte.x00; Byte.x01]) None.

End Polling.

(** ** Well-formed stores *)

Module Wf.
Import Store.

(** Every thread of the store has its message array in the heap. *)
Definition logs_allocated (st : State) : Prop :=
  ∀ s t th, thread_of st s t = Some th → is_Some (arrays st !! messages th).

(** No two threads of the store share a message array. *)
Definition logs_separate (st : State) : Prop :=
  ∀ s1 t1 s2 t2 th1 th2,
    thread_of st s1 t1 = Some th1 → thread_of st s2 t2 = Some th2 →
    messages th1 = messages th2 → (s1, t1) = (s2, t2).

Definition store_wf (st : State) : Prop := logs_allocated st ∧ logs_separate st.

End Wf.

(** ** Code that works on one thread *)

(** Every run of [m] from a well-formed store ends in a well-formed
    store in which the threads other than [key] are the same objects,
    with the same logs, and in which the memory that was allocated
    keeps its bytes. *)
Definition only_touches {A} (key : string * string) (m : M A) : Prop :=
  ∀ st r st',
    m st = (r, st') → Wf.store_wf st →
    Wf.store_wf st'
    ∧ memory st ⊆ memory st'
    ∧ ∀ s t, (s, t) ≠ key →
        Store.thread_of st' s t = Store.thread_of st s t
        ∧ Store.thread_messages st' s t = Store.thread_messages st s t.

(** The thread that a request names (lines 50-53 and 63-65 of the
    handler): ["default"] when the field is absent, not a string, or
    blank. *)
Definition target_thread (E : Env) (body : route.RequestBody) : string :=
  match body with
  | route.FormBody form =>
      default "default" (route.trimmed E (route.form_string (route.form_get "thread" form)))
  | route.JsonBody j =>
      default "default" (route.trimmed E (as_string (get (Some j) "thread")))
  | route.Unreadable _ => "default"
  end.

(** ** The thread endpoint *)

(** The thread that a request to delete names: the query parameter
    when it is not empty; otherwise the field [thread] of the body,
    when the body is an object and the field a string that is not
    empty. *)
Definition named_thread (param : option string) (body : option json) : option string :=
  match param with
  | Some (String a p) => Some (String a p)
  | _ =>
      match body with
      | Some (JObj fields) =>
          match assoc "thread" fields with
          | Some (JStr (String a t)) => Some (String a t)
          | _ => None
          end
      | _ => None
      end
  end.

(** * Properties *)

(** ** Running monadic code *)

Section Running.
Context {A B : Type}.

Lemma bind_Ok (m : M A) (k : A → M B) st a st1 :
  m st = (Ok a, st1) → bind m k st = k a st1.
Proof. unfold bind. by intros ->. Qed.

Lemma bind_Throw (m : M A) (k : A → M B) st e st1 :
  m st = (Throw e, st1) → bind m k st = (Throw e, st1).
Proof. unfold bind. by intros ->. Qed.

Lemma bind_inv (m : M A) (k : A → M B) st r st' :
  bind m k st = (r, st') →
  (∃ a st1, m st = (Ok a, st1) ∧ k a st1 = (r, st'))
  ∨ (∃ e, m st = (Throw e, st') ∧ r = Throw e).
Proof.
  unfold bind. destruct (m st) as [[a|e] st1]; intros H.
  - left. eauto.
  - right. inversion H; subst. eauto.
Qed.

Lemma bind_Ok_inv (m : M A) (k : A → M B) st b st' :
  bind m k st = (Ok b, st') →
  ∃ a st1, m st = (Ok a, st1) ∧ k a st1 = (Ok b, st').
Proof.
  intros H. apply bind_inv in H as [H | (e & _ & ?)]; [done | discriminate].
Qed.

End Running.

Lemma try_catch_inv {A} (m : M A) (h : string → M A) st r st' :
  try_catch m h st = (r, st') →
  (∃ a, m st = (Ok a, st') ∧ r = Ok a)
  ∨ (∃ e st1, m st = (Throw e, st1) ∧ h e st1 = (r, st')).
Proof.
  unfold try_catch. destruct (m st) as [[a|e] st1]; intros H.
  - left. inversion H; subst. eauto.
  - right. eauto.
Qed.


Create HintDb framed.

Lemma Framed_ret {A} (a : A) : Framed (ret a).
Proof. intros st r st' [= <- <-]. apply frame_refl. Qed.

Lemma Framed_throw {A} e : Framed (@throw A e).
Proof. intros st r st' [= <- <-]. apply frame_refl. Qed.

Lemma Framed_gets {A} (f : State → A) : Framed (gets f).
Proof. intros st r st' [= <- <-]. apply frame_refl. Qed.

Lemma Framed_or_throw {A} (o : option A) e : Framed (or_throw o e).
Proof. destruct o; [apply Framed_ret | apply Framed_throw]. Qed.

Lemma Framed_bind {A B} (m : M A) (k : A → M B) :
  Framed m → (∀ a, Framed (k a)) → Framed (bind m k).
Proof.
  intros Hm Hk st r st' H. apply bind_inv in H as [(a & st1 & H1 & H2) | (e & H1 & _)].
  - eapply frame_trans; [by eapply Hm | by eapply Hk].
  - by eapply Hm.
Qed.

Lemma Framed_try_catch {A} (m : M A) h :
  Framed m → (∀ e, Framed (h e)) → Framed (try_catch m h).
Proof.
  intros Hm Hh st r st' H. apply try_catch_inv in H as [(a & H1 & _) | (e & st1 & H1 & H2)].
  - by eapply Hm.
  - eapply frame_trans; [by eapply Hm | by eapply Hh].
Qed.

Lemma Framed_emit e : Framed (emit e).
Proof. intros st r st' [= <- <-]. by unfold frame. Qed.

Lemma Framed_Date_now E : Framed (Date_now E).
Proof. intros st r st' [= <- <-]. by unfold frame. Qed.

Lemma Framed_Math_random_1e6 E : Framed (Math_random_1e6 E).
Proof. intros st r st' [= <- <-]. by unfold frame. Qed.

Lemma fresh_memory_free (st : State) : memory st !! fresh (dom (memory st)) = None.
Proof. apply not_elem_of_dom, is_fresh. Qed.

Lemma Framed_alloc_buffer bytes : Framed (alloc_buffer bytes).
Proof.
  intros st r st' [= <- <-]. unfold frame; simpl. repeat split; try done.
  apply insert_subseteq, fresh_memory_free.
Qed.

#[export] Hint Resolve Framed_ret Framed_throw Framed_gets Framed_or_throw
  Framed_emit Framed_Date_now Framed_Math_random_1e6 Framed_alloc_buffer : framed.

(** Goals [Framed m] for code written with the notations above. *)
Ltac framed :=
  repeat first
    [ apply Framed_bind; [| intros ?]
    | apply Framed_try_catch; [| intros ?]
    | progress auto with framed
    | progress cbv zeta
    | match goal with
      | |- Framed (if ?b then _ else _) => destruct b
      | |- Framed (match ?x with _ => _ end) => destruct x
      | |- Framed (let '(_, _) := ?x in _) => destruct x
      end ].

(** Bytes of an allocated buffer survive a frame. *)
Lemma frame_buffer_bytes st st' b :
  frame st st' → is_Some (memory st !! buf_mem b) →
  buffer_bytes st' b = buffer_bytes st b.
Proof.
  intros (_ & _ & Hm) [bytes Hb]. unfold buffer_bytes, read_memory.
  rewrite Hb. by rewrite (lookup_weaken _ _ _ _ Hb Hm).
Qed.

Lemma frame_allocated st st' l :
  frame st st' → is_Some (memory st !! l) → is_Some (memory st' !! l).
Proof.
  intros (_ & _ & Hm) [bytes Hb]. exists bytes. by eapply lookup_weaken.
Qed.

Section FramedCode.
Import image gemini route.
Variable E : Env.

Lemma Framed_enforcePng1024 input : Framed (enforcePng1024 E input).
Proof. unfold enforcePng1024. framed. Qed.

Lemma Framed_inline_of_base b : Framed (inline_of_base E b).
Proof. unfold inline_of_base. framed. Qed.

Lemma Framed_generateOrEditImage params : Framed (generateOrEditImage E params).
Proof.
  unfold generateOrEditImage, assertEnv. pose proof Framed_inline_of_base. framed.
Qed.

Lemma Framed_poll_once name attempt : Framed (poll_once E name attempt).
Proof. unfold poll_once. framed. Qed.

Lemma Framed_poll_loop name remaining :
  ∀ attempt, Framed (poll_loop E name attempt remaining).
Proof.
  induction remaining as [|n IH]; intros attempt; cbn [poll_loop].
  - framed.
  - pose proof Framed_poll_once. framed.
Qed.

Lemma Framed_generateVideo params : Framed (generateVideo E params).
Proof.
  unfold generateVideo, assertEnv.
  apply Framed_bind; [framed|]. intros _.
  apply Framed_bind; [apply Framed_inline_of_base|]. intros base.
  apply Framed_bind; [framed|]. intros _. cbv zeta.
  destruct (negb _); [framed|].
  apply Framed_bind; [framed|]. intros j.
  destruct (if isRecord (Some j) then _ else _); [apply Framed_poll_loop | framed].
Qed.

Lemma Framed_mkdir dir : Framed (mkdir E dir).
Proof. unfold mkdir. framed. Qed.

Lemma Framed_writeFile path buf : Framed (writeFile E path buf).
Proof. unfold writeFile. framed. Qed.

Lemma Framed_normalize_upload up : Framed (normalize_upload E up).
Proof. unfold normalize_upload. pose proof Framed_enforcePng1024. framed. Qed.

Lemma Framed_theme_buffer th : Framed (theme_buffer E th).
Proof. unfold theme_buffer. pose proof Framed_enforcePng1024. framed. Qed.

Lemma Framed_resolve_base up th ts : Framed (resolve_base E up th ts).
Proof.
  unfold resolve_base.
  apply Framed_bind; [apply Framed_normalize_upload|]. intros n.
  apply Framed_bind; [apply Framed_theme_buffer|]. intros t. apply Framed_ret.
Qed.

Lemma Framed_read_fields body : Framed (read_fields E body).
Proof. unfold read_fields. framed. Qed.

End FramedCode.

#[export] Hint Resolve Framed_enforcePng1024 Framed_inline_of_base
  Framed_generateOrEditImage Framed_poll_once Framed_poll_loop Framed_generateVideo
  Framed_mkdir Framed_writeFile Framed_normalize_upload Framed_theme_buffer
  Framed_resolve_base Framed_read_fields : framed.

(** ** The store operations *)

Section StoreFacts.
Import Store.

Lemma getSession_eq sid st :
  getSession sid st =
    (Ok (default ∅ (store st !! sid)),
     match store st !! sid with
     | Some _ => st
     | None => with_store (insert sid ∅) st
     end).
Proof.
  unfold getSession, bind, gets. simpl. by destruct (store st !! sid).
Qed.

Lemma getThread_existing sid tid st t :
  thread_of st sid tid = Some t → getThread sid tid st = (Ok t, st).
Proof.
  unfold thread_of, getThread. intros H.
  destruct (store st !! sid) as [threads|] eqn:Hs; simpl in H; [|done].
  unfold bind. rewrite getSession_eq, Hs. simpl. by rewrite H.
Qed.


Lemma getThread_missing sid tid st :
  thread_of st sid tid = None →
  getThread sid tid st = (Ok (new_thread st), with_new_thread sid tid st).
Proof.
  unfold thread_of, getThread. intros H.
  unfold bind. rewrite getSession_eq.
  destruct (store st !! sid) as [threads|] eqn:Hs; simpl in *.
  - rewrite H. unfold alloc_array, threads_set, modify, with_store, with_arrays,
      with_new_thread, new_thread, ret. simpl. by rewrite Hs.
  - rewrite lookup_empty. unfold alloc_array, threads_set, modify, with_store,
      with_arrays, with_new_thread, new_thread, ret. simpl.
    rewrite lookup_insert_eq, Hs. simpl. by rewrite insert_insert_eq.
Qed.

Lemma fresh_array_free (st : State) : arrays st !! fresh (dom (arrays st)) = None.
Proof. apply not_elem_of_dom, is_fresh. Qed.

Lemma thread_of_with_new_thread sid tid st :
  thread_of (with_new_thread sid tid st) sid tid = Some (new_thread st).
Proof.
  unfold thread_of, with_new_thread; simpl.
  rewrite lookup_insert_eq. simpl. by rewrite lookup_insert_eq.
Qed.

(** What every caller of [getThread] relies on. *)
Lemma getThread_spec sid tid st :
  ∃ t st',
    getThread sid tid st = (Ok t, st')
    ∧ thread_of st' sid tid = Some t
    ∧ read_array st' (messages t) = thread_messages st sid tid
    ∧ lastImage t = thread_lastImage st sid tid
    ∧ lastImageMime t = thread_lastImageMime st sid tid
    ∧ memory st' = memory st ∧ ticks st' = ticks st
    ∧ draws st' = draws st ∧ trace st' = trace st.
Proof.
  unfold thread_messages, thread_lastImage, thread_lastImageMime.
  destruct (thread_of st sid tid) as [t|] eqn:Ht.
  - exists t, st. rewrite (getThread_existing _ _ _ _ Ht). by rewrite Ht.
  - exists (new_thread st), (with_new_thread sid tid st).
    rewrite (getThread_missing _ _ _ Ht), thread_of_with_new_thread.
    repeat split; try done.
    unfold read_array, with_new_thread, new_thread; simpl.
    by rewrite lookup_insert_eq.
Qed.

Lemma addMessage_spec sid tid m st :
  ∃ st',
    addMessage sid tid m st = (Ok tt, st')
    ∧ thread_messages st' sid tid = thread_messages st sid tid ++ [m]
    ∧ thread_lastImage st' sid tid = thread_lastImage st sid tid
    ∧ thread_lastImageMime st' sid tid = thread_lastImageMime st sid tid
    ∧ memory st' = memory st ∧ ticks st' = ticks st
    ∧ draws st' = draws st ∧ trace st' = trace st.
Proof.
  destruct (getThread_spec sid tid st)
    as (t & st1 & Hget & Ht & Hread & Himg & Hmime & Hmem & Htk & Hdr & Htr).
  eexists. split.
  { unfold addMessage. rewrite (bind_Ok _ _ _ _ _ Hget). reflexivity. }
  unfold thread_messages, thread_lastImage, thread_lastImageMime in *.
  unfold thread_of in *. simpl. rewrite Ht. simpl.
  repeat split; try done.
  unfold read_array in *. simpl. rewrite lookup_insert_eq. simpl. by rewrite Hread.
Qed.

Lemma setLastImage_spec sid tid buf mime st :
  ∃ st',
    setLastImage sid tid buf mime st = (Ok tt, st')
    ∧ thread_messages st' sid tid = thread_messages st sid tid
    ∧ thread_lastImage st' sid tid = Some buf
    ∧ thread_lastImageMime st' sid tid = Some mime
    ∧ memory st' = memory st ∧ ticks st' = ticks st
    ∧ draws st' = draws st ∧ trace st' = trace st.
Proof.
  destruct (getThread_spec sid tid st)
    as (t & st1 & Hget & Ht & Hread & Himg & Hmime & Hmem & Htk & Hdr & Htr).
  eexists. split.
  { unfold setLastImage. rewrite (bind_Ok _ _ _ _ _ Hget). reflexivity. }
  unfold thread_messages, thread_lastImage, thread_lastImageMime, thread_of in *.
  simpl. rewrite lookup_insert_eq. simpl. rewrite lookup_insert_eq. simpl.
  by repeat split.
Qed.

(** A frame changes nothing that a reader of the store sees, except
    possibly bytes behind a buffer whose memory was never allocated. *)
Lemma frame_thread_messages st st' sid tid :
  frame st st' → thread_messages st' sid tid = thread_messages st sid tid.
Proof.
  intros (Hs & Ha & _). unfold thread_messages, thread_of, read_array. by rewrite Hs, Ha.
Qed.

Lemma frame_thread_lastImage st st' sid tid :
  frame st st' → thread_lastImage st' sid tid = thread_lastImage st sid tid.
Proof. intros (Hs & _ & _). unfold thread_lastImage, thread_of. by rewrite Hs. Qed.

Lemma frame_thread_lastImageMime st st' sid tid :
  frame st st' → thread_lastImageMime st' sid tid = thread_lastImageMime st sid tid.
Proof. intros (Hs & _ & _). unfold thread_lastImageMime, thread_of. by rewrite Hs. Qed.

End StoreFacts.


(** ** The system prompt and the model of a request (lib/gemini.ts) *)

Section SystemPrompt.
Import gemini.

Lemma GEMINI_IMAGE_MODEL_truthy E : truthy_string (GEMINI_IMAGE_MODEL E) = true.
Proof.
  unfold GEMINI_IMAGE_MODEL, or_else.
  destruct (env_GEMINI_IMAGE_MODEL E) as [s|]; [|done].
  by destruct (truthy_string s) eqn:Hs.
Qed.

(** The model of the request is the caller's when the pattern matches
    it, and the configured image model otherwise. *)
Lemma select_model_spec E modelId :
  select_model E modelId =
    match modelId with
    | Some m => if test_gemini m then m else GEMINI_IMAGE_MODEL E
    | None => GEMINI_IMAGE_MODEL E
    end.
Proof.
  unfold select_model. pose proof (GEMINI_IMAGE_MODEL_truthy E) as Hd.
  destruct modelId as [m|]; [|by rewrite Hd].
  destruct (truthy_string m) eqn:Hm; simpl.
  - destruct (test_gemini m); [by rewrite Hm | by rewrite Hd].
  - rewrite Hd. destruct m; [|done]. by vm_compute.
Qed.

Lemma getSystemPrompt_video templateId :
  getSystemPrompt (Some "veo-3.0-generate-preview") templateId = Some VIDEO_SYSTEM_PROMPT.
Proof. unfold getSystemPrompt. by rewrite bool_decide_eq_true_2. Qed.

Lemma own_template_assoc k ts t :
  own_template k ts = Some t → (k, t) ∈ ts.
Proof.
  induction ts as [|[k' t'] ts IH]; simpl; [done|].
  destruct (String.eqb_spec k k') as [->|_].
  - intros [= ->]. left.
  - intros H. right. auto.
Qed.

(** A template identifier that names a template selects its text. *)
Lemma getSystemPrompt_template modelId tid t :
  modelId ≠ Some "veo-3.0-generate-preview" →
  own_template tid PROMPT_TEMPLATES = Some t →
  getSystemPrompt modelId (Some tid) = Some (prompt t).
Proof.
  intros Hm Ht. unfold getSystemPrompt, PROMPT_TEMPLATES_get.
  rewrite bool_decide_eq_false_2 by done. rewrite Ht.
  destruct tid; [by vm_compute in Ht | done].
Qed.

(** An absent identifier, or one that names neither a template nor a
    member of [Object.prototype], selects the default template. *)
Lemma getSystemPrompt_default modelId templateId :
  modelId ≠ Some "veo-3.0-generate-preview" →
  match templateId with
  | Some tid => own_template tid PROMPT_TEMPLATES = None ∧ tid ∉ Object_prototype_keys
  | None => True
  end →
  getSystemPrompt modelId templateId = Some (prompt logo).
Proof.
  intros Hm Ht. unfold getSystemPrompt, PROMPT_TEMPLATES_get.
  rewrite bool_decide_eq_false_2 by done.
  destruct templateId as [tid|]; [|done]. destruct Ht as [-> Hk].
  rewrite bool_decide_eq_false_2 by done. by destruct (truthy_string tid).
Qed.

(** C8. The template identifier [constructor] names no template, yet
    [getSystemPrompt] does not fall back to the default template for
    it: [PROMPT_TEMPLATES["constructor"]] is the function inherited
    from [Object.prototype], which is truthy and has no [prompt], so
    the function returns [undefined] and the request is sent without
    a system instruction text. The model of the request is the
    configured image model, as the claim says. *)
Theorem C8_getSystemPrompt_inherited_key :
  own_template "constructor" PROMPT_TEMPLATES = None
  ∧ getSystemPrompt None (Some "constructor") = None
  ∧ getSystemPrompt None (Some "constructor") ≠ Some (prompt logo)
  ∧ (∀ st, ∃ st',
       generateOrEditImage Scenario.offline
         (mkGenerateImageParams "a logo" None None (Some "constructor")) st
       = (Throw "Gemini API error 503: unavailable", st')
       ∧ trace st' = trace st ++
           [EvGenerateContent "gemini-2.5-flash-image-preview" None None "a logo"]).
Proof.
  split; [by vm_compute|]. split; [by vm_compute|]. split; [by vm_compute|].
  intros st. eexists. split; [by vm_compute | done].
Qed.

End SystemPrompt.

(** ** Reading the response of the image model (lib/gemini.ts) *)

Section ImageResponse.
Import gemini ResponseOrder.

Lemma first_some_app {A B} (f : A → option B) (l1 l2 : list A) :
  first_some f (l1 ++ l2) =
    match first_some f l1 with
    | Some r => Some r
    | None => first_some f l2
    end.
Proof.
  induction l1 as [|x l1 IH]; simpl; [done|]. by destruct (f x).
Qed.

Lemma first_some_None {A B} (f : A → option B) (l : list A) :
  first_some f l = None ↔ Forall (λ x, f x = None) l.
Proof.
  induction l as [|x l IH]; simpl.
  - split; [constructor | done].
  - destruct (f x) eqn:Hx.
    + split; [done | intros H; inversion H; congruence].
    + rewrite IH. split; [by constructor | by inversion 1].
Qed.

Lemma first_some_ext {A B} (f g : A → option B) (l : list A) :
  Forall (λ x, f x = g x) l → first_some f l = first_some g l.
Proof.
  induction 1 as [|x l Hx _ IH]; simpl; [done|]. rewrite Hx, IH. done.
Qed.

Lemma scan_candidate_parts c :
  scan_candidate c = first_some scan_part (candidate_parts c).
Proof.
  unfold scan_candidate, candidate_parts.
  destruct (isRecord (Some c)); [|done].
  by destruct (isRecord (get (Some c) "content")).
Qed.

Lemma first_some_flat_map {A B C} (f : B → option C) (g : A → list B) (l : list A) :
  first_some (λ a, first_some f (g a)) l = first_some f (flat_map g l).
Proof.
  induction l as [|a l IH]; simpl; [done|].
  rewrite first_some_app, IH. done.
Qed.

(** The two nested loops visit the parts of the response in order. *)
Lemma find_image_parts j :
  find_image j = match first_some scan_part (response_parts j) with
                 | Some r => Some r
                 | None => scan_images j
                 end.
Proof.
  unfold find_image, response_parts.
  destruct (isRecord (Some j)); [|done].
  rewrite <- first_some_flat_map.
  rewrite (first_some_ext scan_candidate (λ c, first_some scan_part (candidate_parts c))).
  - done.
  - apply Forall_forall. intros c _. apply scan_candidate_parts.
Qed.

(** *** The tests of the loop body against their description *)

#[local] Arguments mime_char : simpl never.

Lemma strip_prefix_app p s : strip_prefix p (p +:+ s) = Some s.
Proof.
  induction p as [|a p IH]; simpl; [by destruct s|]. by rewrite Ascii.eqb_refl.
Qed.

Lemma strip_prefix_Some p s r : strip_prefix p s = Some r → s = p +:+ r.
Proof.
  revert s. induction p as [|a p IH]; intros s; simpl.
  - destruct s; by intros [= <-].
  - destruct s as [|b s]; [done|].
    destruct (Ascii.eqb_spec a b) as [->|]; [|done].
    intros H. by rewrite (IH _ H).
Qed.

Lemma span_mime_app subtype rest :
  all_chars mime_char subtype = true →
  match rest with
  | EmptyString => True
  | String a _ => mime_char a = false
  end →
  span_mime (subtype +:+ rest) = (subtype, rest).
Proof.
  intros Hsub Hrest. induction subtype as [|a subtype IH]; simpl.
  - destruct rest as [|b rest]; [done|]. simpl. by rewrite Hrest.
  - simpl in Hsub. apply andb_prop in Hsub as [Ha Hsub]. by rewrite Ha, IH.
Qed.

Lemma span_mime_Some s run rest :
  span_mime s = (run, rest) → s = run +:+ rest ∧ all_chars mime_char run = true.
Proof.
  revert run rest. induction s as [|a s IH]; intros run rest; simpl.
  - by intros [= <- <-].
  - destruct (mime_char a) eqn:Ha.
    + destruct (span_mime s) as [run' rest']. intros [= <- <-].
      destruct (IH _ _ eq_refl) as [-> Hall]. simpl. by rewrite Ha.
    + by intros [= <- <-].
Qed.

Lemma match_data_uri_spec t d mime :
  match_data_uri t = Some (d, mime) ↔ is_image_data_uri t d mime.
Proof.
  split.
  - unfold match_data_uri.
    destruct (strip_prefix "data:image/" t) as [after|] eqn:Hpre; [|done].
    destruct (span_mime after) as [subtype rest] eqn:Hspan.
    destruct subtype as [|a subtype]; [done|].
    destruct (strip_prefix ";base64," rest) as [p|] eqn:Hb64; [|done].
    destruct (no_line_terminator p) eqn:Hnl; [|done].
    intros [= <- <-].
    apply strip_prefix_Some in Hpre, Hb64.
    apply span_mime_Some in Hspan as [Hafter Hall].
    exists (String a subtype). split; [done|]. split; [done|]. split; [done|].
    split; [done|]. rewrite Hpre, Hafter, Hb64. reflexivity.
  - intros (subtype & Hne & Hall & Hnl & -> & ->). unfold match_data_uri.
    change ("data:" +:+ ("image/" +:+ subtype) +:+ ";base64," +:+ d)
      with ("data:image/" +:+ subtype +:+ ";base64," +:+ d).
    rewrite (strip_prefix_app "data:image/").
    rewrite (span_mime_app subtype (";base64," +:+ d) Hall) by done.
    rewrite (strip_prefix_app ";base64,"), Hnl.
    by destruct subtype.
Qed.

Lemma defined_part_inline p : defined (part_inline p) = declared_inline p.
Proof.
  unfold part_inline, declared_inline, inline_keys.
  destruct p as [| | | |items|fields]; try done.
  cbn [omap list_omap get].
  destruct (assoc "inline_data" fields) as [[]|]; try done;
    destruct (assoc "inlineData" fields) as [[]|]; try done;
    destruct (assoc "file_data" fields) as [[]|]; try done;
    by destruct (assoc "fileData" fields) as [[]|].
Qed.

Lemma inline_payload_spec p : inline_payload p = inline_of_part p.
Proof.
  unfold inline_payload, inline_of_part. rewrite <- defined_part_inline.
  destruct (part_inline p) as [inline|]; [|done].
  destruct inline as [| | | |items|fields]; try done.
  simpl. unfold inline_image. simpl.
  destruct (assoc "data" fields) as [[]|]; simpl; try done.
  destruct (assoc "mime_type" fields) as [[]|]; simpl; try done;
    by destruct (assoc "mimeType" fields) as [[]|].
Qed.

Lemma text_payload_spec p d mime :
  text_payload p = Some (d, mime) ↔ text_of_part p d mime.
Proof.
  unfold text_payload, text_of_part. split.
  - destruct (get (Some p) "text") as [[| | |t| |]|]; try done. cbn [as_string].
    destruct (strip_prefix "data:image/" t); [|done].
    intros H. exists t. split; [done|]. by apply match_data_uri_spec.
  - intros (t & -> & Huri). cbn [as_string].
    apply match_data_uri_spec in Huri as Hmatch. rewrite Hmatch.
    destruct Huri as (subtype & _ & _ & _ & -> & ->).
    change ("data:" +:+ ("image/" +:+ subtype) +:+ ";base64," +:+ d)
      with ("data:image/" +:+ (subtype +:+ ";base64," +:+ d)).
    by rewrite (strip_prefix_app "data:image/").
Qed.

(** One turn of the inner loop gives what the part gives. *)
Lemma scan_part_gives p : part_gives p (scan_part p).
Proof.
  unfold scan_part, part_gives. rewrite inline_payload_spec.
  destruct (isRecord (Some p)) eqn:Hrec.
  - destruct (inline_of_part p) as [i|]; [done|].
    destruct (text_payload p) as [[d mime]|] eqn:Htext.
    + by apply text_payload_spec.
    + intros d mime H. apply text_payload_spec in H. congruence.
  - destruct p; try done; intros d mime (t & Ht & _); done.
Qed.

Lemma first_some_scan_part parts :
  first_part_gives parts (first_some scan_part parts).
Proof.
  induction parts as [|p parts IH]; simpl; [constructor|].
  pose proof (scan_part_gives p) as Hp.
  destruct (scan_part p) as [i|].
  - by constructor.
  - by apply later_part_gives.
Qed.

Lemma scan_images_spec j : scan_images j = images_fallback j.
Proof.
  unfold scan_images, images_fallback.
  destruct j as [| | | |items|fields]; try done. simpl.
  destruct (head (as_array (assoc "images" fields))) as [first|]; [|done]. simpl.
  destruct first as [| | | |items|fs]; try done.
  unfold inline_image. simpl.
  destruct (assoc "data" fs) as [[]|]; simpl; try done.
  by destruct (assoc "mime_type" fs) as [[]|].
Qed.

(** The code reads the response in one pass over the parts. *)
Lemma find_image_reads j : read_by_part j (find_image j).
Proof.
  rewrite find_image_parts. exists (first_some scan_part (response_parts j)).
  split; [apply first_some_scan_part|].
  destruct (first_some scan_part (response_parts j)); [done|apply scan_images_spec].
Qed.

(** A response has one reading. *)
Lemma part_gives_fun p r1 r2 : part_gives p r1 → part_gives p r2 → r1 = r2.
Proof.
  unfold part_gives. destruct (inline_of_part p); [congruence|].
  destruct r1 as [[d1 m1]|], r2 as [[d2 m2]|]; try done.
  - intros H1 H2. apply text_payload_spec in H1, H2. congruence.
  - intros H1 H2. by destruct (H2 _ _ H1).
  - intros H1 H2. by destruct (H1 _ _ H2).
Qed.

Lemma first_part_gives_fun parts r1 r2 :
  first_part_gives parts r1 → first_part_gives parts r2 → r1 = r2.
Proof.
  intros H1. revert r2. induction H1 as [|p parts i Hp|p parts r Hp H1 IH]; intros r2 H2.
  - by inversion H2.
  - inversion H2 as [|? ? i2 Hp2|? ? ? Hp2 ?]; subst.
    + by apply (part_gives_fun p).
    + by pose proof (part_gives_fun _ _ _ Hp Hp2).
  - inversion H2 as [|? ? i2 Hp2|? ? ? Hp2 ?]; subst.
    + by pose proof (part_gives_fun _ _ _ Hp Hp2).
    + by apply IH.
Qed.

Lemma read_by_part_fun j r1 r2 : read_by_part j r1 → read_by_part j r2 → r1 = r2.
Proof.
  intros (a & Ha & ->) (b & Hb & ->). by rewrite (first_part_gives_fun _ _ _ Ha Hb).
Qed.

(** C7, as stated, fails: in a response whose first part is a data-URI
    text and whose second part carries inline data, the code returns
    the payload of the text part, where three passes in the stated order
    return the inline data. *)
Lemma C7_counterexample_text_before_inline :
  find_image text_before_inline = Some ("VEVYVA==", "image/png")
  ∧ read_in_order text_before_inline (Some ("SU5MSU5F", "image/jpeg"))
  ∧ ∀ r, read_in_order text_before_inline r → r = Some ("SU5MSU5F", "image/jpeg").
Proof. split; [by vm_compute|]. split; [by vm_compute|]. by intros r H. Qed.

Lemma buffer_bytes_alloc bytes st :
  ∃ b st', alloc_buffer bytes st = (Ok b, st') ∧ buffer_bytes st' b = bytes
    ∧ trace st' = trace st ∧ is_Some (memory st' !! buf_mem b).
Proof.
  eexists _, _. split; [reflexivity|]. unfold buffer_bytes, read_memory. simpl.
  rewrite lookup_insert_eq. simpl. rewrite drop_0, firstn_all. by eauto.
Qed.

Lemma inline_of_base_eq E baseImage st :
  inline_of_base E baseImage st = (Ok (image_request_inline E st baseImage), st).
Proof. by destruct baseImage. Qed.

(** C7 (amended). With a credential and a successful JSON response,
    [generateOrEditImage] sends one request and reads the response in
    one pass over the parts of the candidates: each part is tested for
    inline data (with its declared MIME type, or [image/png]) and then
    for a data-URI text, and the first part that passes either test
    gives the image; the top-level [images] array is read only when no
    part does; when nothing is found the call fails with the no-image
    error, having sent that one request only. The response has one
    such reading, [found]. *)
Theorem C7_image_response_scanned_by_part E params st j :
  truthy_opt (GOOGLE_API_KEY E) = true →
  res_ok (image_response E st params) = true →
  res_json (image_response E st params) = Some j →
  ∃ found r st',
    read_by_part j found
    ∧ (∀ other, read_by_part j other → other = found)
    ∧ generateOrEditImage E params st = (r, st')
    ∧ trace st' = trace st ++ [image_request_event E st params]
    ∧ match found with
      | Some (d, mime) =>
          ∃ buffer, r = Ok (buffer, mime) ∧ buffer_bytes st' buffer = base64_decode E d
      | None => r = Throw "Gemini did not return an image payload"
      end.
Proof.
  intros Hkey Hok Hjson. exists (find_image j).
  pose proof (find_image_reads j) as Hread.
  unfold generateOrEditImage, assertEnv. rewrite Hkey.
  unfold bind at 1. simpl. unfold bind at 1. rewrite inline_of_base_eq.
  unfold bind at 1. simpl.
  fold (image_response E st params). rewrite Hok. simpl.
  unfold bind at 1. rewrite Hjson. simpl.
  fold (image_request_event E st params).
  set (st1 := mkState _ _ _ _ _ _).
  destruct (find_image j) as [[d mime]|].
  - destruct (buffer_bytes_alloc (base64_decode E d) st1) as (b & st' & Ha & Hb & Ht & _).
    exists (Ok (b, mime)), st'. split; [done|].
    split; [intros other Hother; by apply (read_by_part_fun j)|].
    rewrite (bind_Ok _ _ _ _ _ Ha).
    split; [done|]. split; [by rewrite Ht|]. by exists b.
  - eexists _, _. split; [done|].
    split; [intros other Hother; by apply (read_by_part_fun j)|].
    split; [reflexivity|]. done.
Qed.

(** A run of C7: the parts of the response give nothing, and the first
    element of the [images] array carries data without a MIME type. *)
Lemma C7_witness :
  ∃ r st',
    generateOrEditImage
      (Scenario.env
         (Scenario.plain 200
            (JObj [("candidates", JArr [JObj [("content",
                      JObj [("parts", JArr [JObj [("text", JStr "here is the logo")]])])]]);
                   ("images", JArr [JObj [("data", JStr "AQID")]])]))
         Scenario.no_response (λ _, Scenario.no_response) (false, 503, []) None)
      (mkGenerateImageParams "a logo" None None None) empty_state = (r, st')
    ∧ ∃ buffer, r = Ok (buffer, "image/png").
Proof.
  edestruct (C7_image_response_scanned_by_part
    (Scenario.env
       (Scenario.plain 200
          (JObj [("candidates", JArr [JObj [("content",
                    JObj [("parts", JArr [JObj [("text", JStr "here is the logo")]])])]]);
                 ("images", JArr [JObj [("data", JStr "AQID")]])]))
       Scenario.no_response (λ _, Scenario.no_response) (false, 503, []) None)
    (mkGenerateImageParams "a logo" None None None) empty_state)
    as (found & r & st' & _ & Hone & Hrun & _ & Hres);
    [reflexivity | reflexivity | reflexivity |].
  exists r, st'. split; [exact Hrun|].
  rewrite <- (Hone (Some ("AQID", "image/png"))) in Hres.
  - destruct Hres as (buffer & -> & _). by exists buffer.
  - exists None. split; [|done].
    apply later_part_gives; [|constructor].
    intros d mime (t & [= <-] & (subtype & _ & _ & _ & -> & [=])).
Defined.

End ImageResponse.

(** ** Cloning a thread (lib/store.ts) *)

Section Clone.
Import Store.

Lemma last_filter_None {A} (f : A → bool) (l : list A) :
  last (List.filter f l) = None ↔ existsb f l = false.
Proof.
  rewrite last_None. induction l as [|x l IH]; simpl; [done|].
  destruct (f x); simpl; [done | exact IH].
Qed.

Lemma last_filter_Some {A} (f : A → bool) (l : list A) x :
  last (List.filter f l) = Some x → f x = true ∧ x ∈ l ∧ existsb f l = true.
Proof.
  intros H. assert (Hin : In x (List.filter f l)).
  { apply last_Some in H as [l' Hl']. rewrite Hl'. apply in_or_app. right. by left. }
  apply filter_In in Hin as [Hin Hf]. split; [done|]. split.
  - by apply list_elem_of_In.
  - apply existsb_exists. eauto.
Qed.

Lemma choose_thread_id E (threadId : option string) st :
  ∃ newId st',
    match threadId with
    | Some n => if truthy_string n then ret n else fresh_thread_id E
    | None => fresh_thread_id E
    end st = (Ok newId, st')
    ∧ store st' = store st ∧ arrays st' = arrays st ∧ memory st' = memory st
    ∧ trace st' = trace st
    ∧ (truthy_opt threadId = true → threadId = Some newId).
Proof.
  destruct threadId as [n|]; simpl; [destruct (truthy_string n) eqn:Hn|].
  - by eexists _, _.
  - eexists _, _. split; [reflexivity|]. by simpl.
  - eexists _, _. split; [reflexivity|]. by simpl.
Qed.

Lemma cloneThread_spec E sid sourceThread newThreadId st :
  ∃ newId st' cloned,
    cloneThread E sid sourceThread newThreadId st = (Ok newId, st')
    ∧ (truthy_opt newThreadId = true → newThreadId = Some newId)
    ∧ thread_of st' sid newId = Some cloned
    ∧ lastImage cloned
        = buffer_slice <$> thread_lastImage st sid (default "default" sourceThread)
    ∧ lastImageMime cloned = thread_lastImageMime st sid (default "default" sourceThread)
    ∧ memory st' = memory st ∧ trace st' = trace st
    ∧ match last (List.filter has_media
                    (thread_messages st sid (default "default" sourceThread))) with
      | Some latest =>
          ∃ inherited,
            is_inherited_from latest inherited
            ∧ read_array st' (messages cloned)
              = thread_messages st sid (default "default" sourceThread) ++ [inherited]
      | None =>
          read_array st' (messages cloned)
          = thread_messages st sid (default "default" sourceThread)
      end.
Proof.
  destruct (getThread_spec sid (default "default" sourceThread) st)
    as (t & st1 & Hget & Ht & Hread & Himg & Hmime & Hmem & Htk & Hdr & Htr).
  destruct (choose_thread_id E newThreadId st1)
    as (newId & st2 & Hid & Hs2 & Ha2 & Hm2 & Ht2 & Hnew).
  unfold cloneThread. rewrite (bind_Ok _ _ _ _ _ Hget), (bind_Ok _ _ _ _ _ Hid).
  rewrite <- Hread, <- Himg, <- Hmime.
  assert (Hr2 : read_array st2 (messages t) = read_array st1 (messages t)).
  { unfold read_array. by rewrite Ha2. }
  erewrite (bind_Ok (gets _)); [|reflexivity]. rewrite Hr2.
  erewrite (bind_Ok (alloc_array _)); [|reflexivity].
  destruct (last (List.filter has_media (read_array st1 (messages t)))) as [latest|].
  - erewrite (bind_Ok (bind (Date_now E) _)); [|reflexivity].
    erewrite (bind_Ok (getSession sid)); [|apply getSession_eq].
    erewrite (bind_Ok (threads_set _ _ _)); [|reflexivity].
    eexists newId, _, _. split; [reflexivity|]. split; [done|].
    split; [unfold thread_of; simpl|].
    { rewrite lookup_insert_eq. simpl. by rewrite lookup_insert_eq. }
    simpl. split; [done|]. split; [done|].
    split; [by destruct (store st2 !! sid); simpl; congruence|].
    split; [by destruct (store st2 !! sid); simpl; congruence|].
    eexists. split; cycle 1.
    + unfold read_array. destruct (store st2 !! sid); simpl;
        rewrite lookup_insert_eq; simpl; rewrite lookup_insert_eq; reflexivity.
    + unfold is_inherited_from; simpl. repeat split; eauto.
  - erewrite (bind_Ok (ret tt)); [|reflexivity].
    erewrite (bind_Ok (getSession sid)); [|apply getSession_eq].
    erewrite (bind_Ok (threads_set _ _ _)); [|reflexivity].
    eexists newId, _, _. split; [reflexivity|]. split; [done|].
    split; [unfold thread_of; simpl|].
    { rewrite lookup_insert_eq. simpl. by rewrite lookup_insert_eq. }
    simpl. split; [done|]. split; [done|].
    split; [by destruct (store st2 !! sid); simpl; congruence|].
    split; [by destruct (store st2 !! sid); simpl; congruence|].
    unfold read_array. destruct (store st2 !! sid); simpl; by rewrite lookup_insert_eq.
Qed.

(** C5. The clone of a thread with N messages has N messages when no
    message of the source carries an image or a video reference, and
    N + 1 otherwise; in the second case the log of the clone is the
    log of the source followed by one assistant message that carries
    the inherited marker and the references of the latest message of
    the source with an image or a video. *)
Theorem C5_cloneThread_message_count E sid sourceThread newThreadId st :
  ∃ newId st',
    cloneThread E sid sourceThread newThreadId st = (Ok newId, st')
    ∧ length (thread_messages st' sid newId)
      = (length (thread_messages st sid (default "default" sourceThread))
         + (if existsb has_media (thread_messages st sid (default "default" sourceThread))
            then 1 else 0))%nat
    ∧ match last (List.filter has_media
                    (thread_messages st sid (default "default" sourceThread))) with
      | Some latest =>
          has_media latest = true
          ∧ latest ∈ thread_messages st sid (default "default" sourceThread)
          ∧ ∃ inherited,
              thread_messages st' sid newId
              = thread_messages st sid (default "default" sourceThread) ++ [inherited]
              ∧ is_inherited_from latest inherited
      | None =>
          existsb has_media (thread_messages st sid (default "default" sourceThread)) = false
          ∧ thread_messages st' sid newId
            = thread_messages st sid (default "default" sourceThread)
      end.
Proof.
  destruct (cloneThread_spec E sid sourceThread newThreadId st)
    as (newId & st' & cloned & Hrun & _ & Hth & _ & _ & _ & _ & Hlog).
  exists newId, st'. split; [exact Hrun|].
  assert (Hnew : thread_messages st' sid newId = read_array st' (messages cloned)).
  { unfold thread_messages. by rewrite Hth. }
  rewrite Hnew. clear Hnew Hth.
  destruct (last (List.filter has_media
              (thread_messages st sid (default "default" sourceThread)))) as [latest|] eqn:Hl.
  - destruct Hlog as (inh & Hinh & Hread).
    apply last_filter_Some in Hl as (Hm & Hin & Hex).
    rewrite Hread, Hex, length_app. split; [done|]. eauto 6.
  - apply last_filter_None in Hl. rewrite Hlog, Hl. split; [lia|]. done.
Qed.

End Clone.

(** ** The artifact of a clone (lib/store.ts) *)

Section CloneArtifact.
Import Store.

(** The buffer of the clone is a window onto the memory of the buffer
    of the source: [slice()] copies no bytes. *)
Lemma cloneThread_artifact_shared E sid sourceThread newThreadId st b :
  thread_lastImage st sid (default "default" sourceThread) = Some b →
  ∃ newId st' b',
    cloneThread E sid sourceThread newThreadId st = (Ok newId, st')
    ∧ thread_lastImage st' sid newId = Some b'
    ∧ buf_mem b' = buf_mem b
    ∧ buffer_bytes st' b' = buffer_bytes st b.
Proof.
  intros Hb.
  destruct (cloneThread_spec E sid sourceThread newThreadId st)
    as (newId & st' & cloned & Hrun & _ & Hth & Himg & _ & Hmem & _ & _).
  rewrite Hb in Himg. simpl in Himg.
  exists newId, st', (buffer_slice b). split; [done|].
  unfold thread_lastImage. rewrite Hth. simpl. split; [done|]. split; [done|].
  unfold buffer_bytes, read_memory, buffer_slice, buffer_subarray. simpl.
  rewrite Hmem. by rewrite Nat.add_0_r, Nat.sub_0_r.
Qed.

(** C4. In a session whose thread [main] holds the artifact 01 02 03,
    [cloneThread] gives the clone [fork] a buffer over the same memory
    as the buffer of [main]: writing one byte through the artifact of
    the clone changes the bytes of the artifact of the source. The
    bytes are not copied, although the comment in the code says that
    [slice()] is used for copying. *)
Theorem C4_cloneThread_shares_artifact_memory :
  ∃ st1 main_buf fork_buf,
    cloneThread Scenario.offline "s" (Some "main") (Some "fork") Scenario.one_artifact
      = (Ok "fork", st1)
    ∧ thread_lastImage st1 "s" "main" = Some main_buf
    ∧ thread_lastImage st1 "s" "fork" = Some fork_buf
    ∧ buf_mem fork_buf = buf_mem main_buf
    ∧ thread_artifact st1 "s" "main"
      = Some ([Byte.x01; Byte.x02; Byte.x03], Some "image/png")
    ∧ thread_artifact (buffer_write fork_buf 0 Byte.xff st1) "s" "main"
      = Some ([Byte.xff; Byte.x02; Byte.x03], Some "image/png").
Proof.
  eexists _, _, _. split; [by vm_compute|].
  split; [by vm_compute|]. split; [by vm_compute|].
  split; [by vm_compute|]. split; by vm_compute.
Qed.

Lemma getThread_arrays sid tid st t st' :
  getThread sid tid st = (Ok t, st') → arrays st ⊆ arrays st'.
Proof.
  destruct (thread_of st sid tid) as [t0|] eqn:Ht.
  - rewrite (getThread_existing _ _ _ _ Ht). by intros [= _ <-].
  - rewrite (getThread_missing _ _ _ Ht). intros [= _ <-]. simpl.
    apply insert_subseteq, fresh_array_free.
Qed.

(** The log of the clone is a new array: its location held no array
    before the call, and every array that existed is left as it was.
    Appending to the log of the clone therefore changes no log that
    existed before, and appending to one of those does not change the
    log of the clone. *)
Lemma cloneThread_log_fresh E sid sourceThread newThreadId st :
  ∃ newId st' cloned,
    cloneThread E sid sourceThread newThreadId st = (Ok newId, st')
    ∧ thread_of st' sid newId = Some cloned
    ∧ arrays st !! messages cloned = None
    ∧ arrays st ⊆ arrays st'.
Proof.
  destruct (getThread_spec sid (default "default" sourceThread) st)
    as (t & st1 & Hget & _).
  pose proof (getThread_arrays _ _ _ _ _ Hget) as Hsub.
  destruct (choose_thread_id E newThreadId st1)
    as (newId & st2 & Hid & Hs2 & Ha2 & _).
  unfold cloneThread. rewrite (bind_Ok _ _ _ _ _ Hget), (bind_Ok _ _ _ _ _ Hid).
  erewrite (bind_Ok (gets _)); [|reflexivity].
  erewrite (bind_Ok (alloc_array _)); [|reflexivity].
  assert (Hfresh1 : arrays st1 !! fresh (dom (arrays st2)) = None).
  { rewrite <- Ha2. apply fresh_array_free. }
  assert (Hfresh : arrays st !! fresh (dom (arrays st2)) = None).
  { destruct (arrays st !! fresh (dom (arrays st2))) as [xs|] eqn:Hx; [|done].
    by rewrite (lookup_weaken _ _ _ _ Hx Hsub) in Hfresh1. }
  destruct (last (List.filter has_media (read_array st2 (messages t)))) as [latest|].
  - erewrite (bind_Ok (bind (Date_now E) _)); [|reflexivity].
    erewrite (bind_Ok (getSession sid)); [|apply getSession_eq].
    erewrite (bind_Ok (threads_set _ _ _)); [|reflexivity].
    eexists newId, _, _. split; [reflexivity|].
    split; [unfold thread_of; simpl|].
    { rewrite lookup_insert_eq. simpl. by rewrite lookup_insert_eq. }
    simpl. split; [done|].
    assert (arrays st ⊆ <[fresh (dom (arrays st2)) :=
                default [] (<[fresh (dom (arrays st2)) := read_array st2 (messages t)]>
                              (arrays st2) !! fresh (dom (arrays st2)))
                ++ [mkChatMessage (pretty (date_now E (ticks st2)) +:+ "-inherited")
                      assistant (Some "Inherited from parent node")
                      (imageUrl latest) (videoUrl latest)
                      (date_now E (S (ticks st2)))]]>
             (<[fresh (dom (arrays st2)) := read_array st2 (messages t)]> (arrays st2))).
    { rewrite insert_insert_eq, Ha2. etrans; [exact Hsub|].
      apply insert_subseteq. by rewrite <- Ha2 at 1. }
    by destruct (store st2 !! sid).
  - erewrite (bind_Ok (ret tt)); [|reflexivity].
    erewrite (bind_Ok (getSession sid)); [|apply getSession_eq].
    erewrite (bind_Ok (threads_set _ _ _)); [|reflexivity].
    eexists newId, _, _. split; [reflexivity|].
    split; [unfold thread_of; simpl|].
    { rewrite lookup_insert_eq. simpl. by rewrite lookup_insert_eq. }
    simpl. split; [done|].
    assert (arrays st ⊆ <[fresh (dom (arrays st2)) := read_array st2 (messages t)]>
                          (arrays st2)).
    { rewrite Ha2. etrans; [exact Hsub|]. apply insert_subseteq. by rewrite <- Ha2 at 1. }
    by destruct (store st2 !! sid).
Qed.

(** Deleting a thread changes no other thread: in particular, deleting
    the source of a clone leaves the log and the artifact of the clone
    as they were. *)
Lemma deleteThread_other sid tid st sid' tid' :
  (sid', tid') ≠ (sid, tid) →
  ∃ existed st',
    deleteThread sid tid st = (Ok existed, st')
    ∧ thread_of st' sid' tid' = thread_of st sid' tid'
    ∧ arrays st' = arrays st ∧ memory st' = memory st.
Proof.
  intros Hne. unfold deleteThread.
  erewrite (bind_Ok (getSession sid)); [|apply getSession_eq].
  erewrite (bind_Ok (modify _)); [|reflexivity].
  eexists _, _. split; [reflexivity|].
  unfold thread_of. simpl.
  destruct (decide (sid' = sid)) as [->|Hs].
  - assert (tid' ≠ tid) by congruence.
    destruct (store st !! sid) as [threads|] eqn:Hst; simpl;
      rewrite lookup_insert_eq; simpl; by rewrite lookup_delete_ne.
  - destruct (store st !! sid) as [threads|] eqn:Hst; simpl.
    + by rewrite lookup_insert_ne.
    + by rewrite !lookup_insert_ne.
Qed.

Lemma deleteThread_keeps_others sid tid st sid' tid' :
  (sid', tid') ≠ (sid, tid) →
  ∃ existed st',
    deleteThread sid tid st = (Ok existed, st')
    ∧ thread_messages st' sid' tid' = thread_messages st sid' tid'
    ∧ thread_artifact st' sid' tid' = thread_artifact st sid' tid'.
Proof.
  intros Hne. destruct (deleteThread_other sid tid st sid' tid' Hne)
    as (existed & st' & Hrun & Hth & Ha & Hm).
  exists existed, st'. split; [done|].
  unfold thread_messages, thread_artifact, thread_lastImage, thread_lastImageMime,
    read_array, buffer_bytes, read_memory.
  by rewrite Hth, Ha, Hm.
Qed.

End CloneArtifact.

(** ** The normaliser (lib/image.ts) *)

Section Normaliser.
Import image.

(** The square that is cut out is the largest centred square of the
    image: its side is the smaller dimension, and it lies inside. *)
Lemma crop_square_inside width height :
  0 < width → 0 < height →
  ∃ left_ top_ size,
    crop_square width height = (left_, top_, size)
    ∧ size = Z.min width height
    ∧ left_ = (width - size) / 2 ∧ top_ = (height - size) / 2
    ∧ 0 ≤ left_ ∧ 0 ≤ top_ ∧ 0 < size
    ∧ left_ + size ≤ width ∧ top_ + size ≤ height.
Proof.
  intros Hw Hh. unfold crop_square. eexists _, _, _. split; [reflexivity|].
  assert (0 ≤ (width - Z.min width height) / 2 ≤ width - Z.min width height).
  { split; [apply Z.div_pos; lia | apply Z.div_le_upper_bound; lia]. }
  assert (0 ≤ (height - Z.min width height) / 2 ≤ height - Z.min width height).
  { split; [apply Z.div_pos; lia | apply Z.div_le_upper_bound; lia]. }
  repeat split; lia.
Qed.

Lemma is_png_true fmt : is_png fmt = true → fmt = Some "png".
Proof.
  destruct fmt as [f|]; simpl; [|done]. by intros ->%String.eqb_eq.
Qed.

Lemma enforcePng1024_fast E input st :
  is_canonical E (buffer_bytes st input) → enforcePng1024 E input st = (Ok input, st).
Proof.
  unfold is_canonical, enforcePng1024. intros H.
  erewrite (bind_Ok (gets _)); [|reflexivity]. rewrite H. reflexivity.
Qed.

(** C3. On bytes that sharp decodes, and with a sharp that keeps its
    contract, [enforcePng1024] returns a buffer that holds a PNG of
    1024 x 1024 pixels; it returns its input, and changes nothing, when
    the input is such a PNG already; and normalising its result again
    returns that same result. *)
Theorem C3_enforcePng1024_canonical E input st :
  sharp_contract E →
  is_Some (sharp_metadata E (buffer_bytes st input)) →
  ∃ out st',
    enforcePng1024 E input st = (Ok out, st')
    ∧ is_canonical E (buffer_bytes st' out)
    ∧ (is_canonical E (buffer_bytes st input) → out = input ∧ st' = st)
    ∧ enforcePng1024 E out st' = (Ok out, st').
Proof.
  intros (Hdims & Htotal & Hout) [m Hm].
  destruct (Hdims _ _ Hm) as (w & h & Hw & Hh & Hwpos & Hhpos).
  unfold enforcePng1024 at 1.
  erewrite (bind_Ok (gets _)); [|reflexivity]. rewrite Hm. simpl.
  unfold bind at 1. simpl. rewrite Hw, Hh. simpl.
  destruct ((w =? TARGET_SIZE) && (h =? TARGET_SIZE) && is_png (meta_format m)) eqn:Hfast.
  - apply andb_prop in Hfast as [Hwh Hfmt]. apply andb_prop in Hwh as [Hw1 Hh1].
    apply Z.eqb_eq in Hw1, Hh1. apply is_png_true in Hfmt. subst w h.
    assert (Hcanon : is_canonical E (buffer_bytes st input)).
    { unfold is_canonical. rewrite Hm. destruct m; simpl in *. congruence. }
    exists input, st. split; [done|]. split; [done|]. split; [done|].
    by apply enforcePng1024_fast.
  - destruct (crop_square_inside w h Hwpos Hhpos)
      as (l & t & s & Hcrop & _ & _ & _ & Hl & Ht & Hs & Hlw & Hth).
    unfold crop_square in Hcrop. injection Hcrop as <- <- <-.
    destruct (Htotal _ _ _ _ _ _ _ Hm Hw Hh Hl Ht Hs Hlw Hth) as [output Houtput].
    rewrite Houtput. simpl.
    destruct (buffer_bytes_alloc output st) as (b & st' & Halloc & Hbytes & _ & _).
    unfold bind at 1. simpl. rewrite Halloc.
    assert (Hcanon : is_canonical E (buffer_bytes st' b)).
    { unfold is_canonical. rewrite Hbytes. by eapply Hout. }
    exists b, st'. split; [done|]. split; [done|]. split.
    + intros Hc. unfold is_canonical in Hc. rewrite Hm in Hc.
      injection Hc as ->. simpl in *.
      injection Hw as <-. injection Hh as <-. by vm_compute in Hfast.
    + by apply enforcePng1024_fast.
Qed.

(** With a sharp that keeps its contract, the normaliser fails on
    bytes that do not decode, and on no others. *)
Lemma enforcePng1024_Throw E input st e st' :
  sharp_contract E →
  enforcePng1024 E input st = (Throw e, st') →
  sharp_metadata E (buffer_bytes st input) = None.
Proof.
  intros (Hdims & Htotal & _) Hrun.
  destruct (sharp_metadata E (buffer_bytes st input)) as [m|] eqn:Hm; [exfalso|done].
  destruct (Hdims _ _ Hm) as (w & h & Hw & Hh & Hwpos & Hhpos).
  unfold enforcePng1024 in Hrun.
  erewrite (bind_Ok (gets _)) in Hrun; [|reflexivity]. rewrite Hm in Hrun. simpl in Hrun.
  unfold bind at 1 in Hrun. simpl in Hrun. rewrite Hw, Hh in Hrun. simpl in Hrun.
  destruct ((w =? TARGET_SIZE) && (h =? TARGET_SIZE) && is_png (meta_format m)); [done|].
  destruct (crop_square_inside w h Hwpos Hhpos)
    as (l & t & s & Hcrop & _ & _ & _ & Hl & Ht & Hs & Hlw & Hth).
  unfold crop_square in Hcrop. injection Hcrop as <- <- <-.
  destruct (Htotal _ _ _ _ _ _ _ Hm Hw Hh Hl Ht Hs Hlw Hth) as [output Houtput].
  rewrite Houtput in Hrun. simpl in Hrun. done.
Qed.

Lemma Scenario_sharp_contract content videos operation download theme :
  sharp_contract (Scenario.env content videos operation download theme).
Proof.
  unfold sharp_contract; simpl. split; [|split].
  - intros bytes m. unfold Scenario.metadata.
    destruct bytes as [|f [|wh [|wl [|hh [|hl rest]]]]]; try done.
    destruct (Scenario.format_name f); [|done].
    destruct (_ && _) eqn:Hpos; [|done]. intros [= <-]. simpl.
    apply andb_prop in Hpos as [Hw%Z.ltb_lt Hh%Z.ltb_lt].
    eexists _, _. by repeat split.
  - intros bytes m w h l t s Hm Hw Hh Hl Ht Hs Hlw Hth.
    unfold Scenario.extract_resize_png. rewrite Hm, Hw, Hh. simpl.
    apply Z.leb_le in Hl, Ht, Hlw, Hth. apply Z.ltb_lt in Hs.
    rewrite Hl, Ht, Hs, Hlw, Hth. simpl. eauto.
  - intros bytes l t w h tw th out. unfold Scenario.extract_resize_png.
    destruct (Scenario.metadata bytes); [|done].
    destruct (_ && _) eqn:Hc; [|done]. intros [= <-].
    apply andb_prop in Hc as [Hc Hth%Z.eqb_eq]. apply andb_prop in Hc as [_ Htw%Z.eqb_eq].
    by subst.
Qed.

(** A run of C3 on a JPEG of 2000 x 1500 pixels. *)
Lemma C3_witness :
  ∃ out st',
    enforcePng1024 Scenario.offline (mkBuffer 0%nat 0%nat 7%nat) Scenario.one_upload = (Ok out, st')
    ∧ is_canonical Scenario.offline (buffer_bytes st' out)
    ∧ enforcePng1024 Scenario.offline out st' = (Ok out, st').
Proof.
  destruct (C3_enforcePng1024_canonical Scenario.offline (mkBuffer 0%nat 0%nat 7%nat) Scenario.one_upload)
    as (out & st' & Hrun & Hcanon & _ & Hidem).
  - apply Scenario_sharp_contract.
  - vm_compute. eauto.
  - by exists out, st'.
Defined.

End Normaliser.

(** ** The result of a video generation (lib/gemini.ts) *)

Section VideoResult.
Import gemini.




End VideoResult.

(** ** The request handler (app/api/messages/route.ts) *)

Section Handler.
Import image Store gemini route.

(** Lines 76-86: the user message is appended, and the thread is read. *)
Lemma handle_user_message E sid prompt f st :
  ∃ userMsg threadState st1,
    (role userMsg = user ∧ text userMsg = Some prompt
     ∧ imageUrl userMsg = None ∧ videoUrl userMsg = None)
    ∧ thread_messages st1 sid (f_threadId f)
      = thread_messages st sid (f_threadId f) ++ [userMsg]
    ∧ thread_of st1 sid (f_threadId f) = Some threadState
    ∧ lastImage threadState = thread_lastImage st sid (f_threadId f)
    ∧ lastImageMime threadState = thread_lastImageMime st sid (f_threadId f)
    ∧ memory st1 = memory st ∧ trace st1 = trace st
    ∧ handle E sid prompt f st
      = (let! baseImage :=
           resolve_base E (f_uploadBuffer f) (f_themeName f) threadState in
         try_catch (generate E sid (f_threadId f) prompt (f_modelId f) baseImage)
                   (report_error E sid (f_threadId f))) st1.
Proof.
  unfold handle.
  erewrite (bind_Ok (Date_now E)); [|reflexivity].
  erewrite (bind_Ok (Date_now E)); [|reflexivity].
  match goal with
  | |- context [bind (addMessage sid (f_threadId f) ?m) _ ?s] =>
      destruct (addMessage_spec sid (f_threadId f) m s)
        as (sc & Hadd & Hmsgs & Himg & Hmime & Hmem & _ & _ & Htr);
      exists m
  end.
  rewrite (bind_Ok _ _ _ _ _ Hadd).
  destruct (getThread_spec sid (f_threadId f) sc)
    as (ts & sd & Hget & Hth & Hread & Himg' & Hmime' & Hmem' & _ & _ & Htr').
  rewrite (bind_Ok _ _ _ _ _ Hget).
  exists ts, sd. split; [done|].
  split. { unfold thread_messages at 1. rewrite Hth, Hread. exact Hmsgs. }
  split; [done|].
  split; [by rewrite Himg', Himg|]. split; [by rewrite Hmime', Hmime|].
  split; [by rewrite Hmem', Hmem|]. split; [by rewrite Htr', Htr|]. done.
Qed.

(** C10. A request that could be read and whose prompt text is missing
    or empty is answered with status 400 and the error [Missing
    message]; no thread is created, no message is appended and no
    artifact is set: the session store and the message arrays are
    exactly what they were, and the memory that was allocated keeps its
    bytes. *)
Theorem C10_missing_message_rejected E sid body st :
  readable body →
  truthy_opt (prompt_of body) = false →
  ∃ st',
    POST E sid body st = (Ok (mkReply 400 (ErrorBody "Missing message")), st')
    ∧ store st' = store st ∧ arrays st' = arrays st
    ∧ memory st ⊆ memory st' ∧ trace st' = trace st.
Proof.
  intros Hreadable Hprompt. unfold POST.
  destruct body as [form | j | msg]; [| |done]; unfold prompt_of in Hprompt.
  - unfold read_fields.
    destruct (form_get "file" form) as [[s|content]|].
    + erewrite (bind_Ok (ret None)); [|reflexivity]. unfold ret. simpl.
      destruct (form_string (form_get "message" form)) as [[|c s']|];
        simpl in *; try done; by eexists.
    + erewrite (bind_Ok (bind (alloc_buffer content) _)); [|reflexivity]. unfold ret. simpl.
      assert (memory st ⊆ <[fresh (dom (memory st)) := content]> (memory st))
        by apply insert_subseteq, fresh_memory_free.
      destruct (form_string (form_get "message" form)) as [[|c s']|];
        simpl in *; try done; by eexists.
    + erewrite (bind_Ok (ret None)); [|reflexivity]. unfold ret. simpl.
      destruct (form_string (form_get "message" form)) as [[|c s']|];
        simpl in *; try done; by eexists.
  - unfold read_fields, ret.
    remember (get (Some j) "message") as message eqn:Hmessage. clear Hmessage.
    destruct message as [[|[]|q|[|c s']|items|fields]|];
      simpl in *; try done; try (by eexists).
    destruct (negb (Qnum q =? 0)); by eexists.
Qed.

(** A run of C10: a JSON body without a message. *)
Lemma C10_witness :
  ∃ st',
    POST Scenario.offline "s" (JsonBody (JObj [("thread", JStr "main")])) Scenario.one_artifact
      = (Ok (mkReply 400 (ErrorBody "Missing message")), st')
    ∧ store st' = store Scenario.one_artifact.
Proof.
  destruct (C10_missing_message_rejected Scenario.offline "s"
              (JsonBody (JObj [("thread", JStr "main")])) Scenario.one_artifact)
    as (st' & Hrun & Hstore & _); [exact I | reflexivity |].
  by exists st'.
Defined.

Lemma buffer_bytes_same_memory st st' b :
  memory st' = memory st → buffer_bytes st' b = buffer_bytes st b.
Proof. intros H. unfold buffer_bytes, read_memory. by rewrite H. Qed.

(** The theme step never fails: a theme that cannot be read or
    normalised counts as no theme. *)
Lemma theme_buffer_total E themeName st :
  ∃ o st', theme_buffer E themeName st = (Ok o, st').
Proof.
  unfold theme_buffer. destruct (truthy_opt themeName); [|by exists None, st].
  match goal with
  | |- context [try_catch ?m ?h st] =>
      unfold try_catch; destruct (m st) as [[o|e] st']
  end.
  - by exists o, st'.
  - by exists None, st'.
Qed.

(** A theme is available when its name is not empty, its file can be
    read, and the bytes can be normalised. *)
Lemma theme_buffer_available E name content st raw st1 t st2 :
  truthy_string name = true →
  read_theme_file E (path_basename E name) = Some content →
  alloc_buffer content st = (Ok raw, st1) →
  enforcePng1024 E raw st1 = (Ok t, st2) →
  theme_buffer E (Some name) st = (Ok (Some t), st2).
Proof.
  intros Hname Hfile Halloc Hnorm. unfold theme_buffer, try_catch. simpl.
  rewrite Hname, Hfile.
  rewrite (bind_Ok _ _ _ _ _ Halloc), (bind_Ok _ _ _ _ _ Hnorm). done.
Qed.

(** No theme is available when none is named, when the file of the
    named theme cannot be read, and when its bytes cannot be
    normalised. *)
Lemma theme_buffer_unavailable E themeName st :
  theme_unavailable E themeName st → ∃ st', theme_buffer E themeName st = (Ok None, st').
Proof.
  unfold theme_buffer, try_catch.
  intros [Hnone | [(name & -> & Hfile) | [(name & content & -> & Hfile & Hmeta)
    | (name & content & raw & sa & e & sb & -> & Hfile & Halloc & Hnorm)]]].
  - rewrite Hnone. by exists st.
  - destruct (truthy_opt (Some name)); [|by exists st]. simpl. rewrite Hfile. by exists st.
  - destruct (truthy_opt (Some name)); [|by exists st]. simpl. rewrite Hfile.
    destruct (buffer_bytes_alloc content st) as (raw & sa & Halloc & Hbytes & _).
    rewrite (bind_Ok _ _ _ _ _ Halloc).
    assert (Hnorm : enforcePng1024 E raw sa
                    = (Throw "Input buffer contains unsupported image format", sa)).
    { unfold enforcePng1024. erewrite (bind_Ok (gets _)); [|reflexivity].
      by rewrite Hbytes, Hmeta. }
    rewrite (bind_Throw _ _ _ _ _ Hnorm). by exists sa.
  - destruct (truthy_opt (Some name)); [|by exists st]. simpl. rewrite Hfile.
    rewrite (bind_Ok _ _ _ _ _ Halloc), (bind_Throw _ _ _ _ _ Hnorm). by exists sb.
Qed.

(** C1. After the user message is recorded, the base image of the
    generation is resolved in this order: the normalised upload when
    there is an upload; otherwise the normalised theme image when a
    theme is available; otherwise, no theme being named or the named
    theme being unreadable or not an image, the last image of the
    thread, the very buffer that the thread held before the call, with
    its MIME type; otherwise none. The generation is then run with
    that base. *)
Theorem C1_base_precedence E sid prompt f st :
  ∃ threadState st1,
    lastImage threadState = thread_lastImage st sid (f_threadId f)
    ∧ lastImageMime threadState = thread_lastImageMime st sid (f_threadId f)
    ∧ memory st1 = memory st
    ∧ (∀ baseImage st2,
         resolve_base E (f_uploadBuffer f) (f_themeName f) threadState st1
           = (Ok baseImage, st2) →
         handle E sid prompt f st
         = try_catch (generate E sid (f_threadId f) prompt (f_modelId f) baseImage)
                     (report_error E sid (f_threadId f)) st2)
    ∧ (∀ upload normalized sa,
         f_uploadBuffer f = Some upload →
         enforcePng1024 E upload st1 = (Ok normalized, sa) →
         ∃ st2,
           resolve_base E (f_uploadBuffer f) (f_themeName f) threadState st1
             = (Ok (Some (mkBaseImage normalized "image/png")), st2)
           ∧ (is_Some (memory sa !! buf_mem normalized) →
              buffer_bytes st2 normalized = buffer_bytes sa normalized))
    ∧ (∀ name content raw sa normalized st2,
         f_uploadBuffer f = None →
         f_themeName f = Some name → truthy_string name = true →
         read_theme_file E (path_basename E name) = Some content →
         alloc_buffer content st1 = (Ok raw, sa) →
         enforcePng1024 E raw sa = (Ok normalized, st2) →
         resolve_base E (f_uploadBuffer f) (f_themeName f) threadState st1
           = (Ok (Some (mkBaseImage normalized "image/png")), st2))
    ∧ (f_uploadBuffer f = None →
       theme_unavailable E (f_themeName f) st1 →
       ∃ st2,
         resolve_base E (f_uploadBuffer f) (f_themeName f) threadState st1
           = (Ok match thread_lastImage st sid (f_threadId f) with
                 | Some l =>
                     Some (mkBaseImage l
                             (or_else (thread_lastImageMime st sid (f_threadId f))
                                      "image/png"))
                 | None => None
                 end, st2)
         ∧ ∀ l, thread_lastImage st sid (f_threadId f) = Some l →
                is_Some (memory st !! buf_mem l) →
                buffer_bytes st2 l = buffer_bytes st l).
Proof.
  destruct (handle_user_message E sid prompt f st)
    as (userMsg & ts & st1 & _ & _ & _ & Himg & Hmime & Hmem & _ & Hhandle).
  exists ts, st1. split; [done|]. split; [done|]. split; [done|].
  split; [|split; [|split]].
  - intros base st2 Hbase. rewrite Hhandle. by rewrite (bind_Ok _ _ _ _ _ Hbase).
  - intros u n sa Hu Hn. rewrite Hu.
    assert (Hnu : normalize_upload E (Some u) st1 = (Ok (Some n), sa)).
    { unfold normalize_upload. by rewrite (bind_Ok _ _ _ _ _ Hn). }
    unfold resolve_base. rewrite (bind_Ok _ _ _ _ _ Hnu).
    destruct (theme_buffer_total E (f_themeName f) sa) as (o & st2 & Ho).
    rewrite (bind_Ok _ _ _ _ _ Ho). exists st2. split; [done|].
    intros Hall. apply frame_buffer_bytes; [|done]. by eapply Framed_theme_buffer.
  - intros name content raw sa n st2 Hu Hth Hname Hfile Halloc Hn.
    rewrite Hu, Hth. unfold resolve_base.
    erewrite (bind_Ok (normalize_upload E None)); [|reflexivity].
    by rewrite (bind_Ok _ _ _ _ _ (theme_buffer_available _ _ _ _ _ _ _ _ Hname Hfile Halloc Hn)).
  - intros Hu Hnone.
    destruct (theme_buffer_unavailable _ _ _ Hnone) as (st2 & Hth).
    exists st2. rewrite Hu. unfold resolve_base.
    erewrite (bind_Ok (normalize_upload E None)); [|reflexivity].
    rewrite (bind_Ok _ _ _ _ _ Hth). unfold ret, select_base.
    rewrite Himg, Hmime. split; [done|].
    intros l Hl Hall. transitivity (buffer_bytes st1 l).
    + apply frame_buffer_bytes; [by eapply Framed_theme_buffer | by rewrite Hmem].
    + unfold buffer_bytes, read_memory. by rewrite Hmem.
Qed.

(** Three runs of C1. In a thread that holds an image, a request that
    names a theme whose file does not exist is served from the image
    of the thread, and so is a request that names a theme whose file
    is not an image. In the same thread, a request with an uploaded
    JPEG and the name of a theme that exists is served from the
    normalised upload. *)
Lemma C1_witness :
  (∃ threadState st1 l st2,
     thread_lastImage Scenario.one_artifact "s" "main" = Some l
     ∧ resolve_base Scenario.offline None (Some "missing.png") threadState st1
       = (Ok (Some (mkBaseImage l "image/png")), st2))
  ∧ (∃ threadState st1 l st2,
       thread_lastImage Scenario.one_artifact "s" "main" = Some l
       ∧ resolve_base Scenario.notes_as_theme None (Some "notes.txt") threadState st1
         = (Ok (Some (mkBaseImage l "image/png")), st2))
  ∧ (∃ threadState st1 normalized st2,
       resolve_base Scenario.themed (Some (mkBuffer 1%nat 0%nat 7%nat)) (Some "sunset.png")
         threadState st1
       = (Ok (Some (mkBaseImage normalized "image/png")), st2)).
Proof.
  split.
  - destruct (C1_base_precedence Scenario.offline "s" "make it blue"
                (mkFields (JStr "make it blue") None (Some "missing.png") None "main")
                Scenario.one_artifact)
      as (ts & st1 & _ & _ & _ & _ & _ & _ & Hlast).
    destruct Hlast as (st2 & Hbase & _); [reflexivity | right; left; by exists "missing.png" |].
    exists ts, st1, (mkBuffer 0%nat 0%nat 3%nat), st2. split; [by vm_compute|]. exact Hbase.
  - split.
  + destruct (C1_base_precedence Scenario.notes_as_theme "s" "make it blue"
                (mkFields (JStr "make it blue") None (Some "notes.txt") None "main")
                Scenario.one_artifact)
      as (ts & st1 & _ & _ & _ & _ & _ & _ & Hlast).
    destruct Hlast as (st2 & Hbase & _);
      [reflexivity | right; right; left; by exists "notes.txt", [Byte.x68; Byte.x69] |].
    exists ts, st1, (mkBuffer 0%nat 0%nat 3%nat), st2. split; [by vm_compute|]. exact Hbase.
  + destruct (C1_base_precedence Scenario.themed "s" "make it blue"
                (mkFields (JStr "make it blue") (Some (mkBuffer 1%nat 0%nat 7%nat))
                   (Some "sunset.png") None "main")
                Scenario.artifact_and_upload)
      as (ts & st1 & _ & _ & Hmem & _ & Hupload & _).
    destruct (enforcePng1024 Scenario.themed (mkBuffer 1%nat 0%nat 7%nat) st1)
      as [[n|e] sa] eqn:Hn.
    * destruct (Hupload _ _ _ eq_refl Hn) as (st2 & Hbase & _).
      by exists ts, st1, n, st2.
    * exfalso. apply enforcePng1024_Throw in Hn; [|apply Scenario_sharp_contract].
      rewrite (buffer_bytes_same_memory _ _ _ Hmem) in Hn. by vm_compute in Hn.
Defined.

(** *** The catch block *)

Lemma report_error_spec E sid tid e st :
  ∃ errMsg st',
    report_error E sid tid e st = (Ok (mkReply 500 (ErrorBody ("Error: " +:+ e))), st')
    ∧ (role errMsg = assistant ∧ text errMsg = Some ("Error: " +:+ e)
       ∧ imageUrl errMsg = None ∧ videoUrl errMsg = None)
    ∧ thread_messages st' sid tid = thread_messages st sid tid ++ [errMsg]
    ∧ thread_lastImage st' sid tid = thread_lastImage st sid tid
    ∧ thread_lastImageMime st' sid tid = thread_lastImageMime st sid tid
    ∧ memory st' = memory st ∧ trace st' = trace st.
Proof.
  unfold report_error.
  erewrite (bind_Ok (Date_now E)); [|reflexivity].
  erewrite (bind_Ok (Date_now E)); [|reflexivity].
  match goal with
  | |- context [bind (addMessage sid tid ?m) _ ?s] =>
      destruct (addMessage_spec sid tid m s)
        as (st' & Hadd & Hmsgs & Himg & Hmime & Hmem & _ & _ & Htr);
      exists m, st'
  end.
  rewrite (bind_Ok _ _ _ _ _ Hadd). by repeat split.
Qed.

(** *** The try block *)

(** A failure of the try block leaves the store as it was: every step
    that can fail comes before [setLastImage]. *)
Lemma generate_Throw E sid tid prompt modelId baseImage st e st' :
  generate E sid tid prompt modelId baseImage st = (Throw e, st') → frame st st'.
Proof.
  unfold generate. destruct (bool_decide (modelId = Some "veo-3")).
  - intros H.
    apply bind_inv in H as [((video & mime) & s1 & H1 & H) | (e1 & H1 & _)];
      [|by eapply Framed_generateVideo].
    apply Framed_generateVideo in H1.
    apply bind_inv in H as [([] & s2 & H2 & H) | (e2 & H2 & _)];
      [|apply Framed_mkdir in H2; by eapply frame_trans].
    apply Framed_mkdir in H2.
    apply bind_inv in H as [(now & s3 & H3 & H) | (e3 & H3 & _)]; [|done].
    apply Framed_Date_now in H3.
    apply bind_inv in H as [([] & s4 & H4 & H) | (e4 & H4 & _)];
      [|apply Framed_writeFile in H4; eauto using frame_trans].
    exfalso. clear -H.
    apply bind_inv in H as [(n1 & s5 & _ & H) | (e5 & H5 & _)]; [|done].
    apply bind_inv in H as [(n2 & s6 & _ & H) | (e6 & H6 & _)]; [|done].
    match type of H with
    | bind (addMessage ?a ?b ?m) _ ?s = _ =>
        destruct (addMessage_spec a b m s) as (s7 & Hadd & _)
    end.
    rewrite (bind_Ok _ _ _ _ _ Hadd) in H. done.
  - intros H.
    apply bind_inv in H as [((image & mime) & s1 & H1 & H) | (e1 & H1 & _)];
      [|by eapply Framed_generateOrEditImage].
    apply Framed_generateOrEditImage in H1.
    apply bind_inv in H as [(png & s1' & H1' & H) | (e1' & H1' & _)];
      [|apply Framed_enforcePng1024 in H1'; by eapply frame_trans].
    apply Framed_enforcePng1024 in H1'.
    apply bind_inv in H as [([] & s2 & H2 & H) | (e2 & H2 & _)];
      [|apply Framed_mkdir in H2; eauto using frame_trans].
    apply Framed_mkdir in H2.
    apply bind_inv in H as [(now & s3 & H3 & H) | (e3 & H3 & _)]; [|done].
    apply Framed_Date_now in H3.
    apply bind_inv in H as [([] & s4 & H4 & H) | (e4 & H4 & _)];
      [|apply Framed_writeFile in H4; eauto using frame_trans].
    exfalso. clear -H.
    match type of H with
    | bind (setLastImage ?a ?b ?c ?d) _ ?s = _ =>
        destruct (setLastImage_spec a b c d s) as (s5 & Hset & _)
    end.
    rewrite (bind_Ok _ _ _ _ _ Hset) in H.
    apply bind_inv in H as [(n1 & s6 & _ & H) | (e5 & H5 & _)]; [|done].
    apply bind_inv in H as [(n2 & s7 & _ & H) | (e6 & H6 & _)]; [|done].
    match type of H with
    | bind (addMessage ?a ?b ?m) _ ?s = _ =>
        destruct (addMessage_spec a b m s) as (s8 & Hadd & _)
    end.
    rewrite (bind_Ok _ _ _ _ _ Hadd) in H. done.
Qed.

Lemma Date_now_inv E st now st' :
  Date_now E st = (Ok now, st') →
  store st' = store st ∧ arrays st' = arrays st ∧ memory st' = memory st
  ∧ trace st' = trace st.
Proof. by intros [= <- <-]. Qed.

Lemma mkdir_inv E dir st st' :
  mkdir E dir st = (Ok tt, st') →
  store st' = store st ∧ arrays st' = arrays st ∧ memory st' = memory st
  ∧ trace st' = trace st ++ [EvMkdir dir].
Proof.
  unfold mkdir. erewrite (bind_Ok (emit _)); [|reflexivity].
  destruct (fs_mkdir E dir); [|done]. by intros [= <-].
Qed.

Lemma writeFile_inv E path buf st st' :
  writeFile E path buf st = (Ok tt, st') →
  store st' = store st ∧ arrays st' = arrays st ∧ memory st' = memory st
  ∧ trace st' = trace st ++ [EvWriteFile path (buffer_bytes st buf)].
Proof.
  unfold writeFile. erewrite (bind_Ok (gets _)); [|reflexivity].
  destruct (fs_writeFile E path _); [|done]. by intros [= <-].
Qed.

(** What a video request that succeeds has done. *)
Lemma generate_video_Ok E sid tid prompt baseImage st reply st' :
  generate E sid tid prompt (Some "veo-3") baseImage st = (Ok reply, st') →
  ∃ video mime sv msg filename,
    generateVideo E (mkGenerateVideoParams prompt baseImage (Some "veo-3")) st
      = (Ok (video, mime), sv)
    ∧ reply = mkReply 200 (MessageBody tid msg)
    ∧ (role msg = assistant ∧ text msg = None ∧ imageUrl msg = None
       ∧ videoUrl msg = Some ("/outputs/" +:+ sid +:+ "/" +:+ filename))
    ∧ EvWriteFile ("public/outputs/" +:+ sid +:+ "/" +:+ filename) (buffer_bytes sv video)
        ∈ trace st'
    ∧ thread_messages st' sid tid = thread_messages st sid tid ++ [msg]
    ∧ thread_lastImage st' sid tid = thread_lastImage st sid tid
    ∧ thread_lastImageMime st' sid tid = thread_lastImageMime st sid tid
    ∧ memory st ⊆ memory st'
    ∧ trace st'
      = trace sv ++ [EvMkdir ("public/outputs/" +:+ sid);
                     EvWriteFile ("public/outputs/" +:+ sid +:+ "/" +:+ filename)
                       (buffer_bytes sv video)].
Proof.
  unfold generate. rewrite bool_decide_eq_true_2 by done. intros H.
  apply bind_Ok_inv in H as ((video & mime) & s1 & H1 & H).
  apply bind_Ok_inv in H as ([] & s2 & H2 & H).
  apply bind_Ok_inv in H as (now & s3 & H3 & H).
  apply bind_Ok_inv in H as ([] & s4 & H4 & H).
  apply bind_Ok_inv in H as (n1 & s5 & H5 & H).
  apply bind_Ok_inv in H as (n2 & s6 & H6 & H).
  match type of H with
  | bind (addMessage ?a ?b ?m) _ ?s = _ =>
      destruct (addMessage_spec a b m s)
        as (s7 & Hadd & Hmsgs & Himg & Hmime & Hmem & _ & _ & Htr);
      rewrite (bind_Ok _ _ _ _ _ Hadd) in H; injection H as <- <-;
      exists video, mime, s1, m, (pretty now +:+ ".mp4")
  end.
  assert (Hf6 : frame st s6).
  { apply Framed_generateVideo in H1 as F1. apply Framed_mkdir in H2 as F2.
    apply Framed_Date_now in H3 as F3. apply Framed_writeFile in H4 as F4.
    apply Framed_Date_now in H5 as F5. apply Framed_Date_now in H6 as F6.
    eauto 10 using frame_trans. }
  apply mkdir_inv in H2 as (_ & _ & M2 & T2).
  apply Date_now_inv in H3 as (_ & _ & M3 & T3).
  apply writeFile_inv in H4 as (_ & _ & _ & T4).
  apply Date_now_inv in H5 as (_ & _ & _ & T5).
  apply Date_now_inv in H6 as (_ & _ & _ & T6).
  split; [done|]. split; [done|]. split; [done|].
  split.
  { rewrite Htr, T6, T5, T4.
    rewrite (buffer_bytes_same_memory s1 s3) by congruence.
    apply list_elem_of_In, in_or_app. right. by left. }
  split; [by rewrite Hmsgs, (frame_thread_messages _ _ _ _ Hf6)|].
  split; [by rewrite Himg, (frame_thread_lastImage _ _ _ _ Hf6)|].
  split; [by rewrite Hmime, (frame_thread_lastImageMime _ _ _ _ Hf6)|].
  split; [rewrite Hmem; apply Hf6|].
  rewrite Htr, T6, T5, T4, T3, T2, <- app_assoc.
  by rewrite (buffer_bytes_same_memory s1 s3) by congruence.
Qed.

(** What an image request that succeeds has done. *)
Lemma generate_image_Ok E sid tid prompt modelId baseImage st reply st' :
  modelId ≠ Some "veo-3" →
  generate E sid tid prompt modelId baseImage st = (Ok reply, st') →
  ∃ image mime si png sp msg filename,
    generateOrEditImage E (mkGenerateImageParams prompt baseImage modelId None) st
      = (Ok (image, mime), si)
    ∧ enforcePng1024 E image si = (Ok png, sp)
    ∧ reply = mkReply 200 (MessageBody tid msg)
    ∧ (role msg = assistant ∧ text msg = None ∧ videoUrl msg = None
       ∧ imageUrl msg = Some ("/outputs/" +:+ sid +:+ "/" +:+ filename))
    ∧ EvWriteFile ("public/outputs/" +:+ sid +:+ "/" +:+ filename) (buffer_bytes sp png)
        ∈ trace st'
    ∧ thread_messages st' sid tid = thread_messages st sid tid ++ [msg]
    ∧ thread_lastImage st' sid tid = Some png
    ∧ thread_lastImageMime st' sid tid = Some "image/png"
    ∧ buffer_bytes st' png = buffer_bytes sp png
    ∧ memory st ⊆ memory st'
    ∧ trace st'
      = trace sp ++ [EvMkdir ("public/outputs/" +:+ sid);
                     EvWriteFile ("public/outputs/" +:+ sid +:+ "/" +:+ filename)
                       (buffer_bytes sp png)].
Proof.
  unfold generate. intros Hmodel. rewrite bool_decide_eq_false_2 by done. intros H.
  apply bind_Ok_inv in H as ((image & mime) & s1 & H1 & H).
  apply bind_Ok_inv in H as (png & s1' & H1' & H).
  apply bind_Ok_inv in H as ([] & s2 & H2 & H).
  apply bind_Ok_inv in H as (now & s3 & H3 & H).
  apply bind_Ok_inv in H as ([] & s4 & H4 & H).
  match type of H with
  | bind (setLastImage ?a ?b ?c ?d) _ ?s = _ =>
      destruct (setLastImage_spec a b c d s)
        as (s5 & Hset & Smsgs & Simg & Smime & Smem & _ & _ & Str);
      rewrite (bind_Ok _ _ _ _ _ Hset) in H
  end.
  apply bind_Ok_inv in H as (n1 & s6 & H6 & H).
  apply bind_Ok_inv in H as (n2 & s7 & H7 & H).
  match type of H with
  | bind (addMessage ?a ?b ?m) _ ?s = _ =>
      destruct (addMessage_spec a b m s)
        as (s8 & Hadd & Hmsgs & Himg & Hmime & Hmem & _ & _ & Htr);
      rewrite (bind_Ok _ _ _ _ _ Hadd) in H; injection H as <- <-;
      exists image, mime, s1, png, s1', m, (pretty now +:+ ".png")
  end.
  assert (Hf4 : frame st s4).
  { apply Framed_generateOrEditImage in H1 as F1. apply Framed_enforcePng1024 in H1' as F1'.
    apply Framed_mkdir in H2 as F2. apply Framed_Date_now in H3 as F3.
    apply Framed_writeFile in H4 as F4. eauto 10 using frame_trans. }
  apply Framed_Date_now in H6 as F6. apply Framed_Date_now in H7 as F7.
  assert (Hf57 : frame s5 s7) by eauto using frame_trans.
  apply mkdir_inv in H2 as (_ & _ & M2 & T2).
  apply Date_now_inv in H3 as (_ & _ & M3 & T3).
  apply writeFile_inv in H4 as (_ & _ & M4 & T4).
  apply Date_now_inv in H6 as (_ & _ & M6 & T6).
  apply Date_now_inv in H7 as (_ & _ & M7 & T7).
  split; [done|]. split; [done|]. split; [done|]. split; [done|].
  split.
  { rewrite Htr, T7, T6, Str, T4.
    rewrite (buffer_bytes_same_memory s1' s3) by congruence.
    apply list_elem_of_In, in_or_app. right. by left. }
  split.
  { by rewrite Hmsgs, (frame_thread_messages _ _ _ _ Hf57), Smsgs,
      (frame_thread_messages _ _ _ _ Hf4). }
  split; [by rewrite Himg, (frame_thread_lastImage _ _ _ _ Hf57)|].
  split; [by rewrite Hmime, (frame_thread_lastImageMime _ _ _ _ Hf57)|].
  split; [apply buffer_bytes_same_memory; congruence|].
  split; [assert (memory s8 = memory s4) as -> by congruence; apply Hf4|].
  rewrite Htr, T7, T6, Str, T4, T3, T2, <- app_assoc.
  by rewrite (buffer_bytes_same_memory s1' s3) by congruence.
Qed.


Lemma generate_Ok_status E sid tid prompt modelId baseImage st reply st' :
  generate E sid tid prompt modelId baseImage st = (Ok reply, st') → status reply = 200.
Proof.
  intros H. destruct (decide (modelId = Some "veo-3")) as [->|Hm].
  - apply generate_video_Ok in H as (? & ? & ? & ? & ? & _ & -> & _). done.
  - apply generate_image_Ok in H as (? & ? & ? & ? & ? & ? & ? & _ & _ & -> & _); done.
Qed.

(** The three ways in which the handler ends, once the prompt is
    accepted: the base image cannot be resolved and the failure leaves
    the handler; the generation succeeds; the generation fails and the
    failure is recorded in the thread. *)
Lemma handle_outcome E sid prompt f st r st' :
  handle E sid prompt f st = (r, st') →
  ∃ userMsg threadState st1,
    (role userMsg = user ∧ text userMsg = Some prompt
     ∧ imageUrl userMsg = None ∧ videoUrl userMsg = None)
    ∧ thread_messages st1 sid (f_threadId f)
      = thread_messages st sid (f_threadId f) ++ [userMsg]
    ∧ thread_lastImage st1 sid (f_threadId f) = thread_lastImage st sid (f_threadId f)
    ∧ thread_lastImageMime st1 sid (f_threadId f)
      = thread_lastImageMime st sid (f_threadId f)
    ∧ memory st1 = memory st
    ∧ ((∃ e, resolve_base E (f_uploadBuffer f) (f_themeName f) threadState st1
               = (Throw e, st')
             ∧ r = Throw e ∧ frame st1 st')
       ∨ (∃ baseImage st2 reply,
            resolve_base E (f_uploadBuffer f) (f_themeName f) threadState st1
              = (Ok baseImage, st2)
            ∧ frame st1 st2
            ∧ generate E sid (f_threadId f) prompt (f_modelId f) baseImage st2
              = (Ok reply, st')
            ∧ r = Ok reply)
       ∨ (∃ baseImage st2 e st3 errMsg,
            resolve_base E (f_uploadBuffer f) (f_themeName f) threadState st1
              = (Ok baseImage, st2)
            ∧ generate E sid (f_threadId f) prompt (f_modelId f) baseImage st2
              = (Throw e, st3)
            ∧ frame st1 st3
            ∧ r = Ok (mkReply 500 (ErrorBody ("Error: " +:+ e)))
            ∧ (role errMsg = assistant ∧ text errMsg = Some ("Error: " +:+ e)
               ∧ imageUrl errMsg = None ∧ videoUrl errMsg = None)
            ∧ thread_messages st' sid (f_threadId f)
              = thread_messages st3 sid (f_threadId f) ++ [errMsg]
            ∧ thread_lastImage st' sid (f_threadId f)
              = thread_lastImage st3 sid (f_threadId f)
            ∧ thread_lastImageMime st' sid (f_threadId f)
              = thread_lastImageMime st3 sid (f_threadId f)
            ∧ memory st' = memory st3 ∧ trace st' = trace st3)).
Proof.
  destruct (handle_user_message E sid prompt f st)
    as (userMsg & ts & st1 & Huser & Hmsgs & Hth & Himg & Hmime & Hmem & _ & Hhandle).
  intros H. rewrite Hhandle in H. clear Hhandle.
  exists userMsg, ts, st1. split; [done|]. split; [done|].
  split; [by unfold thread_lastImage; rewrite Hth|].
  split; [by unfold thread_lastImageMime; rewrite Hth|]. split; [done|].
  apply bind_inv in H as [(base & st2 & Hbase & H) | (e & Hbase & ->)].
  - apply Framed_resolve_base in Hbase as Fbase.
    apply try_catch_inv in H as [(reply & Hgen & ->) | (e & st3 & Hgen & H)].
    + right. left. by exists base, st2, reply.
    + right. right.
      destruct (report_error_spec E sid (f_threadId f) e st3)
        as (errMsg & st'' & Hrep & Herr & Hm & Hi & Hmi & Hme & Htr).
      rewrite Hrep in H. injection H as <- <-.
      exists base, st2, e, st3, errMsg.
      apply generate_Throw in Hgen as Fgen.
      split; [done|]. split; [done|]. split; [by eapply frame_trans|]. done.
  - left. exists e. split; [done|]. split; [done|]. by eapply Framed_resolve_base.
Qed.



(** A generation that fails inside the try block is recorded: the
    thread gains the user message and one assistant message with the
    error text, and its last image is what it was. *)
Lemma failed_generation_recorded E sid prompt f st reply st' :
  handle E sid prompt f st = (Ok reply, st') →
  status reply ≠ 200 →
  ∃ userMsg errMsg e,
    reply = mkReply 500 (ErrorBody ("Error: " +:+ e))
    ∧ thread_messages st' sid (f_threadId f)
      = thread_messages st sid (f_threadId f) ++ [userMsg; errMsg]
    ∧ (role userMsg = user ∧ text userMsg = Some prompt)
    ∧ (role errMsg = assistant ∧ text errMsg = Some ("Error: " +:+ e)
       ∧ imageUrl errMsg = None ∧ videoUrl errMsg = None)
    ∧ thread_lastImage st' sid (f_threadId f) = thread_lastImage st sid (f_threadId f)
    ∧ thread_lastImageMime st' sid (f_threadId f)
      = thread_lastImageMime st sid (f_threadId f)
    ∧ memory st ⊆ memory st'.
Proof.
  intros H Hstatus.
  apply handle_outcome in H
    as (userMsg & ts & st1 & Huser & Hmsgs & Himg & Hmime & Hmem & H).
  destruct H as [(e & _ & ? & _) | [(base & st2 & reply' & _ & _ & Hgen & Hr)
     | (base & st2 & e & st3 & errMsg & _ & _ & F13 & Hr & Herr & Hlog & Hi & Hmi & Hme & _)]];
    [done | |].
  - injection Hr as ->. by apply generate_Ok_status in Hgen.
  - injection Hr as ->. exists userMsg, errMsg, e. split; [done|].
    split.
    { rewrite Hlog, (frame_thread_messages _ _ _ _ F13), Hmsgs, <- app_assoc. done. }
    split; [by destruct Huser as (? & ? & _)|]. split; [done|].
    split; [by rewrite Hi, (frame_thread_lastImage _ _ _ _ F13)|].
    split; [by rewrite Hmi, (frame_thread_lastImageMime _ _ _ _ F13)|].
    rewrite Hme, <- Hmem. apply F13.
Qed.

(** The handler itself fails only when the upload cannot be
    normalised; the thread has then gained the user message and
    nothing else. *)
Lemma unreported_failure_is_upload E sid prompt f st e st' :
  handle E sid prompt f st = (Throw e, st') →
  (∃ upload s1 s2, f_uploadBuffer f = Some upload
                   ∧ enforcePng1024 E upload s1 = (Throw e, s2))
  ∧ ∃ userMsg,
      thread_messages st' sid (f_threadId f)
      = thread_messages st sid (f_threadId f) ++ [userMsg]
      ∧ role userMsg = user.
Proof.
  intros H.
  apply handle_outcome in H
    as (userMsg & ts & st1 & Huser & Hmsgs & Himg & Hmime & Hmem & H).
  destruct H as [(e' & Hbase & [= <-] & F) | [(? & ? & ? & _ & _ & _ & ?)
                                            | (? & ? & ? & ? & ? & _ & _ & _ & ? & _)]];
    [| done | done].
  split.
  - unfold resolve_base in Hbase.
    apply bind_inv in Hbase as [(n & s2 & Hn & Hrest) | (e1 & Hn & [= <-])].
    + destruct (theme_buffer_total E (f_themeName f) s2) as (o & s3 & Ho).
      by rewrite (bind_Ok _ _ _ _ _ Ho) in Hrest.
    + unfold normalize_upload in Hn. destruct (f_uploadBuffer f) as [u|]; [|done].
      apply bind_inv in Hn as [(n & s2 & _ & ?) | (e1 & Hn & [= <-])]; [done|].
      by exists u, st1, st'.
  - exists userMsg. split; [|apply Huser].
    by rewrite (frame_thread_messages _ _ _ _ F).
Qed.

(** C2. A multipart request whose uploaded file is not an image: the
    normalisation of the upload fails before the try block is entered,
    so the failure leaves the handler without being caught. The thread
    has gained the user message, and no assistant message tells the
    error. *)
Theorem C2_upload_decode_failure_unreported :
  ∃ e st' userMsg,
    POST Scenario.offline "s" Scenario.upload_of_text Scenario.one_artifact = (Throw e, st')
    ∧ thread_messages st' "s" "main"
      = thread_messages Scenario.one_artifact "s" "main" ++ [userMsg]
    ∧ role userMsg = user ∧ text userMsg = Some "make it blue".
Proof.
  eexists _, _, _. split; [by vm_compute|]. split; [by vm_compute|]. done.
Qed.

End Handler.

(** ** Polling the video operation (lib/gemini.ts) *)

Section VideoPolling.
Import gemini Polling.

Lemma poll_events_S name n :
  poll_events name (S n) = [EvSleep 5000; EvPollOperation name] ++ poll_events name n.
Proof. done. Qed.

Lemma poll_events_snoc name n :
  poll_events name (S n) = poll_events name n ++ [EvSleep 5000; EvPollOperation name].
Proof.
  induction n as [|n IH]; [done|].
  rewrite poll_events_S, IH at 1. rewrite poll_events_S. by rewrite <- app_assoc.
Qed.

Lemma trace_polled name st :
  trace (polled name st) = trace st ++ poll_events name 1.
Proof. unfold polled, poll_events. simpl. by rewrite <- app_assoc. Qed.

Lemma trace_iter_polled name n st :
  trace (Nat.iter n (polled name) st) = trace st ++ poll_events name n.
Proof.
  induction n as [|n IH].
  - simpl. by rewrite app_nil_r.
  - change (Nat.iter (S n) (polled name) st) with (polled name (Nat.iter n (polled name) st)).
    rewrite trace_polled, IH, <- app_assoc. f_equal.
    by rewrite (poll_events_snoc name n).
Qed.

Lemma iter_polled_shift name n st :
  Nat.iter n (polled name) (polled name st) = Nat.iter (S n) (polled name) st.
Proof. induction n as [|n IH]; simpl; [done|]. by rewrite IH. Qed.

(** A turn on an answer that is still pending: the loop goes on. *)
Lemma poll_once_pending E name attempt st :
  still_pending (fetch_operation E name attempt) = true →
  poll_once E name attempt st = (Ok None, polled name st).
Proof.
  unfold still_pending, poll_once. intros H.
  apply andb_prop in H as [Hok H].
  erewrite (bind_Ok (emit _)); [|reflexivity].
  erewrite (bind_Ok (emit _)); [|reflexivity]. cbv zeta. rewrite Hok. cbn [negb].
  destruct (res_json (fetch_operation E name attempt)) as [j|]; [|done].
  erewrite (bind_Ok (or_throw _ _)); [|reflexivity].
  destruct (isRecord (Some j)); [|done].
  apply andb_prop in H as [Hdone Herr]. unfold reports_done in Hdone.
  apply negb_true_iff in Herr. rewrite Herr.
  by destruct (get (Some j) "done") as [[|[]| | | |]|].
Qed.

Lemma carries_result_video_uri j : carries_result j = false → video_uri j = None.
Proof.
  unfold carries_result, video_uri. by destruct (get (Some j) "result") as [[]|].
Qed.

(** A turn on an answer with an error payload and without a finished
    result: the function fails. *)
Lemma poll_once_error E name attempt st :
  reports_error (fetch_operation E name attempt) = true →
  (∀ j, res_json (fetch_operation E name attempt) = Some j →
        reports_done j && carries_result j = false) →
  ∃ j, res_json (fetch_operation E name attempt) = Some j
       ∧ poll_once E name attempt st = (Throw (operation_failure E j), polled name st).
Proof.
  unfold reports_error, poll_once. intros H Hnd.
  apply andb_prop in H as [Hok H].
  erewrite (bind_Ok (emit _)); [|reflexivity].
  erewrite (bind_Ok (emit _)); [|reflexivity]. cbv zeta. rewrite Hok. cbn [negb].
  destruct (res_json (fetch_operation E name attempt)) as [j|]; [|done].
  erewrite (bind_Ok (or_throw _ _)); [|reflexivity].
  apply andb_prop in H as [Hrec Herr]. rewrite Hrec, Herr.
  specialize (Hnd j eq_refl). exists j. split; [done|].
  unfold operation_failure. unfold reports_done in *.
  destruct (get (Some j) "done") as [[|[]| | | |]|]; try done.
  simpl in Hnd. by rewrite (carries_result_video_uri _ Hnd).
Qed.

(** Every turn waits and polls once, and may download once when it is
    the last. *)
Lemma poll_once_trace E name attempt st r st' :
  poll_once E name attempt st = (r, st') →
  ∃ tail, trace st' = trace (polled name st) ++ tail
          ∧ (tail = [] ∨ (r ≠ Ok None ∧ ∃ uri, tail = [EvDownload uri])).
Proof.
  unfold poll_once.
  erewrite (bind_Ok (emit _)); [|reflexivity].
  erewrite (bind_Ok (emit _)); [|reflexivity]. cbv zeta.
  fold (polled name st).
  destruct (negb _); [intros [= <- <-]; exists []; rewrite app_nil_r; auto|].
  destruct (res_json _) as [j|]; [|intros [= <- <-]; exists []; rewrite app_nil_r; auto].
  erewrite (bind_Ok (or_throw _ _)); [|reflexivity].
  destruct (isRecord (Some j)); [|intros [= <- <-]; exists []; rewrite app_nil_r; auto].
  assert (Hother :
    (if truthy (get (Some j) "error")
     then throw ("Veo 3 generation failed: "
                 +:+ json_stringify E (default JNull (get (Some j) "error")))
     else ret None) (polled name st) = (r, st') →
    ∃ tail, trace st' = trace (polled name st) ++ tail
            ∧ (tail = [] ∨ (r ≠ Ok None ∧ ∃ uri, tail = [EvDownload uri]))).
  { destruct (truthy _); intros [= <- <-]; exists []; rewrite app_nil_r; auto. }
  destruct (get (Some j) "done") as [[|[]| | | |]|]; try exact Hother.
  clear Hother.
  destruct (video_uri j) as [uri|]; [|intros [= <- <-]; exists []; rewrite app_nil_r; auto].
  erewrite (bind_Ok (emit _)); [|reflexivity].
  destruct (fetch_uri E uri) as [[[] status] content].
  - intros [= <- <-]. exists [EvDownload uri]. split; [done|]. right. split; [done|]. eauto.
  - intros [= <- <-]. exists [EvDownload uri]. split; [done|]. right. split; [done|]. eauto.
Qed.

Lemma poll_loop_pending E name n :
  ∀ attempt st,
    (∀ i, (i < n)%nat → still_pending (fetch_operation E name (attempt + i)) = true) →
    poll_loop E name attempt n st
    = (Throw "Veo 3 video generation timed out after 3+ minutes",
       Nat.iter n (polled name) st).
Proof.
  induction n as [|n IH]; intros attempt st Hpending; [done|].
  cbn [poll_loop].
  assert (Hfirst : still_pending (fetch_operation E name attempt) = true).
  { specialize (Hpending 0%nat). rewrite Nat.add_0_r in Hpending. apply Hpending. lia. }
  rewrite (bind_Ok _ _ _ _ _ (poll_once_pending E name attempt st Hfirst)).
  rewrite IH; [by rewrite iter_polled_shift|].
  intros i Hi. replace (S attempt + i)%nat with (attempt + S i)%nat by lia.
  apply Hpending. lia.
Qed.

Lemma poll_loop_error E name k :
  ∀ n attempt st,
    (k < n)%nat →
    (∀ i, (i < k)%nat → still_pending (fetch_operation E name (attempt + i)) = true) →
    reports_error (fetch_operation E name (attempt + k)) = true →
    (∀ j, res_json (fetch_operation E name (attempt + k)) = Some j →
          reports_done j && carries_result j = false) →
    ∃ j, res_json (fetch_operation E name (attempt + k)) = Some j
         ∧ poll_loop E name attempt n st
           = (Throw (operation_failure E j), Nat.iter (S k) (polled name) st).
Proof.
  induction k as [|k IH]; intros n attempt st Hk Hpending Herr Hnd.
  - destruct n as [|n]; [lia|]. cbn [poll_loop].
    rewrite Nat.add_0_r in *.
    destruct (poll_once_error E name attempt st Herr Hnd) as (j & Hj & He).
    exists j. split; [done|]. by rewrite (bind_Throw _ _ _ _ _ He).
  - destruct n as [|n]; [lia|]. cbn [poll_loop].
    assert (Hfirst : still_pending (fetch_operation E name attempt) = true).
    { specialize (Hpending 0%nat). rewrite Nat.add_0_r in Hpending. apply Hpending. lia. }
    rewrite (bind_Ok _ _ _ _ _ (poll_once_pending E name attempt st Hfirst)).
    replace (attempt + S k)%nat with (S attempt + k)%nat in * by lia.
    destruct (IH n (S attempt) (polled name st)) as (j & Hj & He).
    + lia.
    + intros i Hi. replace (S attempt + i)%nat with (attempt + S i)%nat by lia.
      apply Hpending. lia.
    + done.
    + done.
    + exists j. split; [done|]. by rewrite He, iter_polled_shift.
Qed.

(** The loop makes at most [n] polls, each after a wait of 5000 ms,
    and at most one download, at the very end. *)
Lemma poll_loop_trace E name n :
  ∀ attempt st r st',
    poll_loop E name attempt n st = (r, st') →
    ∃ k tail,
      (k ≤ n)%nat
      ∧ trace st' = trace st ++ poll_events name k ++ tail
      ∧ (tail = [] ∨ ∃ uri, tail = [EvDownload uri]).
Proof.
  induction n as [|n IH]; intros attempt st r st' H.
  - injection H as <- <-. exists 0%nat, []. split; [done|]. simpl.
    rewrite app_nil_r. auto.
  - cbn [poll_loop] in H.
    apply bind_inv in H as [(o & s1 & H1 & H) | (e & H1 & ->)].
    + apply poll_once_trace in H1 as (tail & Htr & Htail).
      rewrite trace_polled in Htr.
      destruct o as [v|].
      * injection H as <- <-. exists 1%nat, tail. split; [lia|].
        split; [by rewrite Htr, <- app_assoc|].
        destruct Htail as [?|(_ & ?)]; auto.
      * destruct Htail as [->|(? & _)]; [|done]. rewrite app_nil_r in Htr.
        apply IH in H as (k & tail & Hk & Htr' & Htail).
        exists (S k), tail. split; [lia|]. split; [|done].
        rewrite Htr', Htr, poll_events_S, <- !app_assoc. done.
    + apply poll_once_trace in H1 as (tail & Htr & Htail).
      rewrite trace_polled in Htr.
      exists 1%nat, tail. split; [lia|].
      split; [by rewrite Htr, <- app_assoc|].
      destruct Htail as [?|(_ & ?)]; auto.
Qed.

Lemma generateVideo_started E params st name :
  started_operation E st params = Some name →
  generateVideo E params st = poll_loop E name 0 maxAttempts (requested E params st).
Proof.
  unfold started_operation, generateVideo, assertEnv.
  destruct (truthy_opt (GOOGLE_API_KEY E)); [|done]. cbv zeta.
  erewrite (bind_Ok (ret tt)); [|reflexivity].
  rewrite (bind_Ok _ _ _ _ _ (inline_of_base_eq E (gv_baseImage params) st)).
  erewrite (bind_Ok (emit _)); [|reflexivity].
  destruct (res_ok _); [|done]. cbn [negb].
  destruct (res_json _) as [j|]; [|done].
  erewrite (bind_Ok (or_throw _ _)); [|reflexivity].
  destruct (isRecord (Some j)); [|done]. by intros ->.
Qed.

(** Outside the protocol of the operations endpoint: when an answer
    carries an error payload and, at once, [done: true] with a video
    that can be downloaded, [done] is tested first and the call
    succeeds. *)
Lemma error_with_finished_video_succeeds :
  started_operation error_and_video_env empty_state
    (mkGenerateVideoParams "a cat that waves" None (Some "veo-3")) = Some "operations/1"
  ∧ reports_error (fetch_operation error_and_video_env "operations/1" 0) = true
  ∧ ∃ video st',
      generateVideo error_and_video_env
        (mkGenerateVideoParams "a cat that waves" None (Some "veo-3")) empty_state
      = (Ok (video, "video/mp4"), st').
Proof.
  split; [by vm_compute|]. split; [by vm_compute|]. eexists _, _. by vm_compute.
Qed.

(** C6. Once the operation is started, [generateVideo] polls it at most
    40 times, each time after a wait of 5000 ms, and downloads at most
    once, after the last poll. If the 40 answers report neither
    [done: true] nor an error, it fails with the timeout error after
    exactly 40 polls, and the handler records that failure as an
    assistant message with the error text and without an image or a
    video reference. If an answer carries an error payload, the
    answers before it being pending, the call fails at that poll: it
    polls no further and downloads nothing. The answers follow the
    protocol of the operations endpoint, [{done, result | error}]: an
    answer with an error payload does not carry, at once, [done: true]
    and a result. *)
Theorem C6_video_polling_bounded E sid tid prompt baseImage st name :
  started_operation E st (mkGenerateVideoParams prompt baseImage (Some "veo-3")) = Some name →
  (∃ r st' k tail,
     generateVideo E (mkGenerateVideoParams prompt baseImage (Some "veo-3")) st = (r, st')
     ∧ (k ≤ 40)%nat
     ∧ trace st'
       = trace st
         ++ [video_request_event E st (mkGenerateVideoParams prompt baseImage (Some "veo-3"))]
         ++ poll_events name k ++ tail
     ∧ (tail = [] ∨ ∃ uri, tail = [EvDownload uri]))
  ∧ ((∀ i, (i < 40)%nat → still_pending (fetch_operation E name i) = true) →
     ∃ sv errMsg st',
       generateVideo E (mkGenerateVideoParams prompt baseImage (Some "veo-3")) st
       = (Throw "Veo 3 video generation timed out after 3+ minutes", sv)
       ∧ trace sv
         = trace st
           ++ [video_request_event E st (mkGenerateVideoParams prompt baseImage (Some "veo-3"))]
           ++ poll_events name 40
       ∧ try_catch (route.generate E sid tid prompt (Some "veo-3") baseImage)
                   (route.report_error E sid tid) st
         = (Ok (route.mkReply 500
                  (route.ErrorBody "Error: Veo 3 video generation timed out after 3+ minutes")),
            st')
       ∧ Store.thread_messages st' sid tid = Store.thread_messages st sid tid ++ [errMsg]
       ∧ role errMsg = assistant
       ∧ text errMsg = Some "Error: Veo 3 video generation timed out after 3+ minutes"
       ∧ imageUrl errMsg = None ∧ videoUrl errMsg = None)
  ∧ (∀ k, (k < 40)%nat →
       (∀ i, (i < k)%nat → still_pending (fetch_operation E name i) = true) →
       reports_error (fetch_operation E name k) = true →
       (∀ j, res_json (fetch_operation E name k) = Some j →
             reports_done j && carries_result j = false) →
       ∃ j sv,
         res_json (fetch_operation E name k) = Some j
         ∧ generateVideo E (mkGenerateVideoParams prompt baseImage (Some "veo-3")) st
           = (Throw (operation_failure E j), sv)
         ∧ trace sv
           = trace st
             ++ [video_request_event E st
                   (mkGenerateVideoParams prompt baseImage (Some "veo-3"))]
             ++ poll_events name (S k)).
Proof.
  intros Hstart. pose proof (generateVideo_started _ _ _ _ Hstart) as Hgen.
  split; [|split].
  - destruct (poll_loop E name 0 maxAttempts
               (requested E (mkGenerateVideoParams prompt baseImage (Some "veo-3")) st))
      as [r st'] eqn:Hloop.
    apply poll_loop_trace in Hloop as Htr. destruct Htr as (k & tail & Hk & Htr & Htail).
    exists r, st', k, tail. split; [by rewrite Hgen|]. split; [exact Hk|].
    split; [|done]. rewrite Htr. simpl. by rewrite <- app_assoc.
  - intros Hpending.
    assert (Hv : generateVideo E (mkGenerateVideoParams prompt baseImage (Some "veo-3")) st
                 = (Throw "Veo 3 video generation timed out after 3+ minutes",
                    Nat.iter 40 (polled name)
                      (requested E (mkGenerateVideoParams prompt baseImage (Some "veo-3")) st))).
    { rewrite Hgen. by apply poll_loop_pending. }
    set (sv := Nat.iter 40 (polled name) _) in Hv.
    destruct (report_error_spec E sid tid
                "Veo 3 video generation timed out after 3+ minutes" sv)
      as (errMsg & st' & Hrep & (Hrole & Htext & Himg & Hvid) & Hlog & _).
    exists sv, errMsg, st'. split; [exact Hv|].
    split. { unfold sv. rewrite trace_iter_polled. simpl. by rewrite <- app_assoc. }
    split.
    { unfold try_catch, route.generate. rewrite bool_decide_eq_true_2 by done.
      rewrite (bind_Throw _ _ _ _ _ Hv). exact Hrep. }
    split; [|done].
    rewrite Hlog. f_equal.
  - intros k Hk Hpending Herr Hnd.
    destruct (poll_loop_error E name k maxAttempts 0
                (requested E (mkGenerateVideoParams prompt baseImage (Some "veo-3")) st))
      as (j & Hj & He); try done.
    exists j, (Nat.iter (S k) (polled name)
                 (requested E (mkGenerateVideoParams prompt baseImage (Some "veo-3")) st)).
    split; [done|]. split; [by rewrite Hgen|].
    rewrite trace_iter_polled. simpl. by rewrite <- app_assoc.
Qed.

(** Two runs of C6: an operation that never finishes, and an operation
    that fails at the third poll, with [done: true] and an error
    payload. *)
Lemma C6_witness :
  (∃ st',
     try_catch (route.generate Scenario.video_never "s" "main" "a cat that waves"
                  (Some "veo-3") None)
               (route.report_error Scenario.video_never "s" "main") Scenario.one_artifact
     = (Ok (route.mkReply 500
              (route.ErrorBody "Error: Veo 3 video generation timed out after 3+ minutes")),
        st'))
  ∧ (∃ sv,
       generateVideo (video_fails 2)
         (mkGenerateVideoParams "a cat that waves" None (Some "veo-3")) Scenario.one_artifact
       = (Throw "Video generation completed but no video found in response", sv)
       ∧ trace sv
         = trace Scenario.one_artifact
           ++ [EvGenerateVideos "a cat that waves" None] ++ poll_events "operations/1" 3).
Proof.
  split.
  - destruct (C6_video_polling_bounded Scenario.video_never "s" "main" "a cat that waves"
                None Scenario.one_artifact "operations/1")
      as (_ & Htimeout & _); [reflexivity|].
    destruct Htimeout as (sv & errMsg & st' & _ & _ & Hrun & _); [by intros|].
    by exists st'.
  - destruct (C6_video_polling_bounded (video_fails 2) "s" "main" "a cat that waves"
                None Scenario.one_artifact "operations/1")
      as (_ & _ & Hfail); [reflexivity|].
    destruct (Hfail 2%nat) as (j & sv & Hj & Hrun & Htrace).
    + lia.
    + intros i Hi. by destruct i as [|[|i]]; [| |lia].
    + reflexivity.
    + by intros j [= <-].
    + injection Hj as <-. by exists sv.
Defined.

End VideoPolling.

(** * Further properties of the store, the client and the handlers *)

(** ** The store keeps its threads apart (lib/store.ts) *)

Section StoreInvariant.
Import Store Wf.

Lemma thread_of_set (S : gmap string (gmap string ThreadState)) sid tid x s t :
  (<[sid := <[tid := x]> (default ∅ (S !! sid))]> S) !! s ≫= (λ threads, threads !! t)
  = if decide ((s, t) = (sid, tid)) then Some x else S !! s ≫= (λ threads, threads !! t).
Proof.
  destruct (decide ((s, t) = (sid, tid))) as [[= -> ->]|Hne].
  - rewrite lookup_insert_eq. simpl. by rewrite lookup_insert_eq.
  - destruct (decide (s = sid)) as [->|Hs].
    + rewrite lookup_insert_eq. simpl.
      rewrite lookup_insert_ne by congruence.
      by destruct (S !! sid).
    + by rewrite lookup_insert_ne.
Qed.

Lemma thread_of_with_new_thread_other sid tid st s t :
  (s, t) ≠ (sid, tid) →
  thread_of (with_new_thread sid tid st) s t = thread_of st s t.
Proof.
  intros Hne. unfold thread_of, with_new_thread. simpl.
  rewrite thread_of_set. by rewrite decide_False.
Qed.

(** What [getThread] does to the store: nothing when the thread
    exists; otherwise it registers an empty thread over a new array. *)
Lemma getThread_effect sid tid st :
  ∃ t st',
    getThread sid tid st = (Ok t, st')
    ∧ thread_of st' sid tid = Some t
    ∧ (∀ s t', (s, t') ≠ (sid, tid) → thread_of st' s t' = thread_of st s t')
    ∧ memory st' = memory st
    ∧ ((thread_of st sid tid = Some t ∧ st' = st)
       ∨ (thread_of st sid tid = None
          ∧ t = mkThreadState (messages t) None None
          ∧ arrays st !! messages t = None
          ∧ arrays st' = <[messages t := []]> (arrays st))).
Proof.
  destruct (thread_of st sid tid) as [t|] eqn:Ht.
  - exists t, st. rewrite (getThread_existing _ _ _ _ Ht). by auto 10.
  - exists (new_thread st), (with_new_thread sid tid st).
    rewrite (getThread_missing _ _ _ Ht), thread_of_with_new_thread.
    split; [done|]. split; [done|].
    split; [intros; by apply thread_of_with_new_thread_other|].
    split; [done|]. right. split; [done|]. split; [done|].
    split; [apply fresh_array_free | done].
Qed.

Lemma wf_getThread sid tid st t st' :
  getThread sid tid st = (Ok t, st') → store_wf st → store_wf st'.
Proof.
  intros Hrun [Halloc Hsep].
  destruct (getThread_effect sid tid st)
    as (t0 & st0 & Hrun0 & Hth & Hother & _ & [(_ & ->) | (Hnone & Hshape & Hfresh & Harr)]);
    rewrite Hrun in Hrun0; injection Hrun0 as <- <-; [done|].
  split.
  - intros s t' th Hs. destruct (decide ((s, t') = (sid, tid))) as [[= -> ->]|Hne].
    + rewrite Hth in Hs. injection Hs as <-. rewrite Harr, lookup_insert_eq. eauto.
    + rewrite Hother in Hs by done. rewrite Harr.
      destruct (Halloc _ _ _ Hs) as [xs Hxs].
      rewrite lookup_insert_ne; [eauto|]. intros Heq. by rewrite <- Heq, Hfresh in Hxs.
  - intros s1 t1 s2 t2 th1 th2 H1 H2 Heq.
    destruct (decide ((s1, t1) = (sid, tid))) as [E1|N1];
      destruct (decide ((s2, t2) = (sid, tid))) as [E2|N2].
    + congruence.
    + exfalso. injection E1 as -> ->. rewrite Hth in H1. injection H1 as <-.
      rewrite Hother in H2 by done. destruct (Halloc _ _ _ H2) as [xs Hxs].
      by rewrite <- Heq, Hfresh in Hxs.
    + exfalso. injection E2 as -> ->. rewrite Hth in H2. injection H2 as <-.
      rewrite Hother in H1 by done. destruct (Halloc _ _ _ H1) as [xs Hxs].
      by rewrite Heq, Hfresh in Hxs.
    + rewrite Hother in H1, H2 by done. eauto.
Qed.

Lemma wf_empty_state : store_wf empty_state.
Proof. split; intros ? ? ; intros; done. Qed.

(** *** Closure of [only_touches] *)

Lemma only_touches_Framed {A} key (m : M A) : Framed m → only_touches key m.
Proof.
  intros Hm st r st' Hrun [Halloc Hsep].
  destruct (Hm _ _ _ Hrun) as (Hs & Ha & Hmem).
  assert (Hth : ∀ s t, thread_of st' s t = thread_of st s t).
  { intros. unfold thread_of. by rewrite Hs. }
  split; [split|split; [done|]].
  - intros s t th. rewrite Hth, Ha. apply Halloc.
  - intros s1 t1 s2 t2 th1 th2. rewrite !Hth. apply Hsep.
  - intros s t _. split; [apply Hth|]. unfold thread_messages, read_array.
    by rewrite Hth, Ha.
Qed.

Lemma only_touches_bind {A B} key (m : M A) (k : A → M B) :
  only_touches key m → (∀ a, only_touches key (k a)) → only_touches key (bind m k).
Proof.
  intros Hm Hk st r st' H Hwf.
  apply bind_inv in H as [(a & st1 & H1 & H2) | (e & H1 & _)].
  - destruct (Hm _ _ _ H1 Hwf) as (Hwf1 & Hmem1 & Hoth1).
    destruct (Hk a _ _ _ H2 Hwf1) as (Hwf2 & Hmem2 & Hoth2).
    split; [done|]. split; [by etrans|].
    intros s t Hne. destruct (Hoth1 s t Hne) as [<- <-]. by apply Hoth2.
  - by eapply Hm.
Qed.

Lemma only_touches_try_catch {A} key (m : M A) h :
  only_touches key m → (∀ e, only_touches key (h e)) → only_touches key (try_catch m h).
Proof.
  intros Hm Hh st r st' H Hwf.
  apply try_catch_inv in H as [(a & H1 & _) | (e & st1 & H1 & H2)].
  - by eapply Hm.
  - destruct (Hm _ _ _ H1 Hwf) as (Hwf1 & Hmem1 & Hoth1).
    destruct (Hh e _ _ _ H2 Hwf1) as (Hwf2 & Hmem2 & Hoth2).
    split; [done|]. split; [by etrans|].
    intros s t Hne. destruct (Hoth1 s t Hne) as [<- <-]. by apply Hoth2.
Qed.

(** *** The store operations *)

Lemma only_touches_getThread sid tid : only_touches (sid, tid) (getThread sid tid).
Proof.
  intros st r st' Hrun Hwf.
  destruct (getThread_effect sid tid st)
    as (t & st0 & Hrun0 & Hth & Hother & Hmem & Hcase).
  rewrite Hrun in Hrun0. injection Hrun0 as -> <-.
  split; [by eapply wf_getThread|]. split; [by rewrite Hmem|].
  intros s t' Hne. split; [by apply Hother|].
  unfold thread_messages. rewrite Hother by done.
  destruct Hcase as [(_ & ->) | (_ & _ & Hfresh & Harr)]; [done|].
  destruct (thread_of st s t') as [th|] eqn:Hs; [|done].
  unfold read_array. rewrite Harr.
  destruct (decide (messages t = messages th)) as [Heq|Hneq].
  - rewrite Heq, lookup_insert_eq. rewrite Heq in Hfresh. by rewrite Hfresh.
  - by rewrite lookup_insert_ne.
Qed.

Lemma only_touches_array_push_thread sid tid t m :
  ∀ st st', array_push (messages t) m st = (Ok tt, st') →
    thread_of st sid tid = Some t → store_wf st →
    store_wf st'
    ∧ memory st ⊆ memory st'
    ∧ ∀ s t', (s, t') ≠ (sid, tid) →
        thread_of st' s t' = thread_of st s t'
        ∧ thread_messages st' s t' = thread_messages st s t'.
Proof.
  intros st st' [= <-] Ht [Halloc Hsep].
  split; [split|split; [done|]].
  - intros s t' th Hs. simpl.
    destruct (decide (messages t = messages th)) as [<-|Hneq].
    + rewrite lookup_insert_eq. eauto.
    + rewrite lookup_insert_ne by done. by eapply Halloc.
  - exact Hsep.
  - intros s t' Hne. split; [done|]. unfold thread_messages.
    change (thread_of (with_arrays _ st) s t') with (thread_of st s t').
    destruct (thread_of st s t') as [th|] eqn:Hs; [|done].
    unfold read_array. simpl. rewrite lookup_insert_ne; [done|].
    intros Heq. apply Hne. symmetry. by eapply Hsep.
Qed.

Lemma only_touches_addMessage sid tid m : only_touches (sid, tid) (addMessage sid tid m).
Proof.
  intros st r st' Hrun Hwf. unfold addMessage in Hrun.
  apply bind_inv in Hrun as [(t & st1 & H1 & H2) | (e & H1 & _)].
  - destruct (only_touches_getThread sid tid _ _ _ H1 Hwf) as (Hwf1 & Hmem1 & Hoth1).
    assert (Ht : thread_of st1 sid tid = Some t).
    { destruct (getThread_effect sid tid st) as (t0 & st0 & Hrun0 & Hth & _).
      rewrite H1 in Hrun0. by injection Hrun0 as <- <-. }
    assert (r = Ok tt) as -> by (by injection H2 as <- _).
    destruct (only_touches_array_push_thread sid tid t m _ _ H2 Ht Hwf1)
      as (Hwf2 & Hmem2 & Hoth2).
    split; [done|]. split; [by etrans|].
    intros s t' Hne. destruct (Hoth1 s t' Hne) as [<- <-]. by apply Hoth2.
  - by eapply only_touches_getThread.
Qed.

Lemma only_touches_setLastImage sid tid buf mime :
  only_touches (sid, tid) (setLastImage sid tid buf mime).
Proof.
  intros st r st' Hrun Hwf. unfold setLastImage in Hrun.
  apply bind_inv in Hrun as [(t & st1 & H1 & H2) | (e & H1 & _)];
    [|by eapply only_touches_getThread].
  destruct (only_touches_getThread sid tid _ _ _ H1 Hwf) as ([Halloc Hsep] & Hmem1 & Hoth1).
  assert (Ht : thread_of st1 sid tid = Some t).
  { destruct (getThread_effect sid tid st) as (t0 & st0 & Hrun0 & Hth & _).
    rewrite H1 in Hrun0. by injection Hrun0 as <- <-. }
  injection H2 as <- <-.
  assert (Hth : ∀ s t',
    thread_of (with_store (λ S, <[sid := <[tid := mkThreadState (messages t) (Some buf)
                                               (Some mime)]> (default ∅ (S !! sid))]> S) st1) s t'
    = if decide ((s, t') = (sid, tid))
      then Some (mkThreadState (messages t) (Some buf) (Some mime))
      else thread_of st1 s t').
  { intros. unfold thread_of. simpl. apply thread_of_set. }
  assert (Hmsg : ∀ s t' th, thread_of (with_store (λ S, <[sid := <[tid :=
        mkThreadState (messages t) (Some buf) (Some mime)]> (default ∅ (S !! sid))]> S) st1)
        s t' = Some th → ∃ th1, thread_of st1 s t' = Some th1 ∧ messages th1 = messages th).
  { intros s t' th. rewrite Hth. case_decide as Hk.
    - injection Hk as -> ->. intros [= <-]. eauto.
    - eauto. }
  split; [split|split; [done|]].
  - intros s t' th Hs. destruct (Hmsg _ _ _ Hs) as (th1 & H1' & <-). by eapply Halloc.
  - intros s1 t1 s2 t2 th1 th2 Hs1 Hs2 Heq.
    destruct (Hmsg _ _ _ Hs1) as (a1 & Ha1 & Hm1).
    destruct (Hmsg _ _ _ Hs2) as (a2 & Ha2 & Hm2).
    eapply Hsep; [exact Ha1 | exact Ha2 | congruence].
  - intros s t' Hne. destruct (Hoth1 s t' Hne) as [<- <-].
    unfold thread_messages. rewrite Hth, decide_False by done. done.
Qed.

End StoreInvariant.

(** ** Cloning, creating and deleting threads (lib/store.ts) *)

Section Branching.
Import Store Wf.

Lemma thread_of_insert_empty_session (S : gmap string (gmap string ThreadState)) sid s t :
  S !! sid = None →
  (<[sid := ∅]> S) !! s ≫= (λ threads, threads !! t) = S !! s ≫= (λ threads, threads !! t).
Proof.
  intros Hnone. destruct (decide (s = sid)) as [->|Hs].
  - by rewrite lookup_insert_eq, Hnone.
  - by rewrite lookup_insert_ne.
Qed.

(** [getSession sid;; session.threads.set(id, x)] *)
Lemma register_thread sid tid x st :
  ∃ st',
    (getSession sid;; threads_set sid tid x) st = (Ok tt, st')
    ∧ (∀ s t, thread_of st' s t
              = if decide ((s, t) = (sid, tid)) then Some x else thread_of st s t)
    ∧ arrays st' = arrays st ∧ memory st' = memory st ∧ trace st' = trace st.
Proof.
  erewrite (bind_Ok (getSession sid)); [|apply getSession_eq].
  eexists. split; [reflexivity|].
  split; [|by destruct (store st !! sid)].
  intros s t. unfold thread_of. simpl.
  destruct (store st !! sid) as [threads|] eqn:Hs; simpl.
  - rewrite thread_of_set. done.
  - rewrite thread_of_set. case_decide; [done|].
    by apply thread_of_insert_empty_session.
Qed.

(** Reading through [getThread] changes what no reader sees. *)
Lemma getThread_reads_same sid tid st t st1 :
  getThread sid tid st = (Ok t, st1) →
  ∀ s t', thread_messages st1 s t' = thread_messages st s t'
          ∧ thread_lastImage st1 s t' = thread_lastImage st s t'
          ∧ thread_lastImageMime st1 s t' = thread_lastImageMime st s t'.
Proof.
  intros Hrun s t'.
  destruct (getThread_spec sid tid st)
    as (t0 & st0 & Hrun0 & Hth & Hread & Himg & Hmime & _).
  rewrite Hrun in Hrun0. injection Hrun0 as <- <-.
  destruct (getThread_effect sid tid st)
    as (t0 & st0 & Hrun0 & _ & Hother & _ & Hcase).
  rewrite Hrun in Hrun0. injection Hrun0 as <- <-.
  destruct (decide ((s, t') = (sid, tid))) as [[= -> ->]|Hne].
  - unfold thread_messages at 1, thread_lastImage at 1, thread_lastImageMime at 1.
    rewrite Hth. simpl. by rewrite Hread, Himg, Hmime.
  - unfold thread_lastImage, thread_lastImageMime, thread_messages.
    rewrite (Hother _ _ Hne). split; [|done].
    destruct Hcase as [(_ & ->) | (_ & _ & Hfresh & Harr)]; [done|].
    destruct (thread_of st s t') as [th|]; [|done].
    unfold read_array. rewrite Harr.
    destruct (decide (messages t = messages th)) as [Heq|Hneq].
    + rewrite Heq, lookup_insert_eq. rewrite Heq in Hfresh. by rewrite Hfresh.
    + by rewrite lookup_insert_ne.
Qed.

(** The run of [cloneThread], step by step. *)
Lemma cloneThread_run E sid sourceThread newThreadId st :
  ∃ t st1 newId st' f log,
    getThread sid (default "default" sourceThread) st = (Ok t, st1)
    ∧ cloneThread E sid sourceThread newThreadId st = (Ok newId, st')
    ∧ arrays st1 !! f = None
    ∧ arrays st' = <[f := log]> (arrays st1)
    ∧ memory st' = memory st1
    ∧ ∀ s t', thread_of st' s t'
              = if decide ((s, t') = (sid, newId))
                then Some (mkThreadState f (buffer_slice <$> lastImage t) (lastImageMime t))
                else thread_of st1 s t'.
Proof.
  destruct (getThread_spec sid (default "default" sourceThread) st) as (t & st1 & Hget & _).
  destruct (choose_thread_id E newThreadId st1)
    as (newId & st2 & Hid & Hs2 & Ha2 & Hm2 & _).
  assert (Hth2 : ∀ s t', thread_of st2 s t' = thread_of st1 s t').
  { intros. unfold thread_of. by rewrite Hs2. }
  exists t, st1, newId.
  unfold cloneThread. rewrite (bind_Ok _ _ _ _ _ Hget), (bind_Ok _ _ _ _ _ Hid).
  erewrite (bind_Ok (gets _)); [|reflexivity].
  erewrite (bind_Ok (alloc_array _)); [|reflexivity].
  assert (Hfresh : arrays st1 !! fresh (dom (arrays st2)) = None).
  { rewrite <- Ha2. apply fresh_array_free. }
  destruct (last (List.filter has_media (read_array st2 (messages t)))) as [latest|].
  - erewrite (bind_Ok (bind (Date_now E) _)); [|reflexivity].
    match goal with
    | |- context [bind (getSession sid) _ ?s] =>
        destruct (register_thread sid newId
                    (mkThreadState (fresh (dom (arrays st2)))
                       (buffer_slice <$> lastImage t) (lastImageMime t)) s)
          as (st' & Hreg & Hth & Harr & Hmem & _)
    end.
    apply bind_Ok_inv in Hreg as ([] & sa & Hsess & Hset).
    rewrite (bind_Ok _ _ _ _ _ Hsess), (bind_Ok _ _ _ _ _ Hset).
    eexists st', (fresh (dom (arrays st2))), _.
    split; [done|]. split; [reflexivity|]. split; [done|].
    split; [rewrite Harr; simpl; rewrite insert_insert_eq, Ha2; reflexivity|].
    split; [by rewrite Hmem|].
    intros s t'. rewrite Hth. case_decide; [done|]. apply Hth2.
  - erewrite (bind_Ok (ret tt)); [|reflexivity].
    match goal with
    | |- context [bind (getSession sid) _ ?s] =>
        destruct (register_thread sid newId
                    (mkThreadState (fresh (dom (arrays st2)))
                       (buffer_slice <$> lastImage t) (lastImageMime t)) s)
          as (st' & Hreg & Hth & Harr & Hmem & _)
    end.
    apply bind_Ok_inv in Hreg as ([] & sa & Hsess & Hset).
    rewrite (bind_Ok _ _ _ _ _ Hsess), (bind_Ok _ _ _ _ _ Hset).
    eexists st', (fresh (dom (arrays st2))), _.
    split; [done|]. split; [reflexivity|]. split; [done|].
    split; [rewrite Harr; simpl; rewrite Ha2; reflexivity|].
    split; [by rewrite Hmem|].
    intros s t'. rewrite Hth. case_decide; [done|]. apply Hth2.
Qed.

(** Registering a thread over a new array keeps a well-formed store
    well-formed, and leaves the logs of the other threads as they
    were. *)
Lemma wf_register_new st st' key x log :
  store_wf st →
  arrays st !! messages x = None →
  arrays st' = <[messages x := log]> (arrays st) →
  (∀ s t, thread_of st' s t = if decide ((s, t) = key) then Some x else thread_of st s t) →
  store_wf st'
  ∧ ∀ s t, (s, t) ≠ key → thread_messages st' s t = thread_messages st s t.
Proof.
  intros [Halloc Hsep] Hfresh Harr Hth.
  assert (Hold : ∀ s t th, thread_of st s t = Some th → messages th ≠ messages x).
  { intros s t th Hs Heq. destruct (Halloc _ _ _ Hs) as [xs Hxs].
    by rewrite Heq, Hfresh in Hxs. }
  split; [split|].
  - intros s t th. rewrite Hth, Harr. case_decide.
    + intros [= <-]. rewrite lookup_insert_eq. eauto.
    + intros Hs. rewrite lookup_insert_ne; [by eapply Halloc|].
      intros Heq. by eapply Hold.
  - intros s1 t1 s2 t2 th1 th2. rewrite !Hth.
    case_decide as K1; case_decide as K2.
    + congruence.
    + intros [= <-] Hs2 Heq. exfalso. by eapply Hold.
    + intros Hs1 [= <-] Heq. exfalso. by eapply Hold.
    + apply Hsep.
  - intros s t Hne. unfold thread_messages. rewrite Hth, decide_False by done.
    destruct (thread_of st s t) as [th|] eqn:Hs; [|done].
    unfold read_array. rewrite Harr, lookup_insert_ne; [done|].
    intros Heq. by eapply Hold.
Qed.

(** Cloning replaces or creates the clone, and creates the source as
    an empty thread when it did not exist. It changes nothing else:
    every thread that existed, the source included, is the same
    object with the same log and artifact, no other thread is created,
    and no two threads share a message array after the call when none
    did before. *)
Theorem cloneThread_leaves_others E sid sourceThread newThreadId st newId st' :
  cloneThread E sid sourceThread newThreadId st = (Ok newId, st') →
  store_wf st →
  store_wf st'
  ∧ memory st' = memory st
  ∧ (∀ s t, (s, t) ≠ (sid, newId) →
       thread_messages st' s t = thread_messages st s t
       ∧ thread_lastImage st' s t = thread_lastImage st s t
       ∧ thread_lastImageMime st' s t = thread_lastImageMime st s t)
  ∧ (∀ s t, (s, t) ≠ (sid, newId) →
       match thread_of st s t with
       | Some th => thread_of st' s t = Some th
       | None =>
           if decide ((s, t) = (sid, default "default" sourceThread))
           then ∃ th, thread_of st' s t = Some th
                      ∧ lastImage th = None ∧ lastImageMime th = None
                      ∧ arrays st !! messages th = None
                      ∧ read_array st' (messages th) = []
           else thread_of st' s t = None
       end).
Proof.
  intros Hrun Hwf.
  destruct (cloneThread_run E sid sourceThread newThreadId st)
    as (t & st1 & newId0 & st0 & f & log & Hget & Hrun0 & Hfresh & Harr & Hmem & Hth).
  rewrite Hrun in Hrun0. injection Hrun0 as <- <-.
  destruct (only_touches_getThread _ _ _ _ _ Hget Hwf) as (Hwf1 & _ & _).
  pose proof (getThread_reads_same _ _ _ _ _ Hget) as Hsame.
  destruct (wf_register_new st1 st' (sid, newId)
              (mkThreadState f (buffer_slice <$> lastImage t) (lastImageMime t)) log
              Hwf1 Hfresh Harr Hth) as (Hwf' & Hlogs).
  split; [done|]. split.
  { rewrite Hmem. destruct (getThread_spec sid (default "default" sourceThread) st)
      as (? & ? & Hg & _ & _ & _ & _ & Hm & _). rewrite Hget in Hg. by injection Hg as <- <-. }
  split.
  { intros s t' Hne. destruct (Hsame s t') as (Hm & Hi & Hmi).
    split; [by rewrite Hlogs, Hm|].
    unfold thread_lastImage, thread_lastImageMime in *.
    rewrite Hth, decide_False by done. done. }
  intros s t' Hne. rewrite Hth, decide_False by done.
  destruct (getThread_effect sid (default "default" sourceThread) st)
    as (t0 & s0 & Hget0 & Hsrc & Hother & _ & Hcase).
  rewrite Hget in Hget0. injection Hget0 as <- <-.
  destruct (decide ((s, t') = (sid, default "default" sourceThread))) as [[= -> ->]|Hns].
  - destruct Hcase as [(Hex & _) | (Hnone & Hshape & Hnew & Harr1)].
    + by rewrite Hex.
    + rewrite Hnone. exists t. split; [done|].
      split; [by rewrite Hshape|]. split; [by rewrite Hshape|]. split; [done|].
      unfold read_array. rewrite Harr, Harr1.
      destruct (decide (f = messages t)) as [->|Hf].
      * rewrite Harr1, lookup_insert_eq in Hfresh. done.
      * by rewrite lookup_insert_ne, lookup_insert_eq.
  - rewrite (Hother _ _ Hns). by destruct (thread_of st s t').
Qed.

Lemma getSession_effect sid st :
  ∃ st',
    getSession sid st = (Ok (default ∅ (store st !! sid)), st')
    ∧ (∀ s t, thread_of st' s t = thread_of st s t)
    ∧ arrays st' = arrays st ∧ memory st' = memory st
    ∧ store st' !! sid = Some (default ∅ (store st !! sid)).
Proof.
  rewrite getSession_eq. eexists. split; [reflexivity|].
  destruct (store st !! sid) as [threads|] eqn:Hs; simpl.
  - by rewrite Hs.
  - split; [|by rewrite lookup_insert_eq].
    intros s t. unfold thread_of. simpl. by apply thread_of_insert_empty_session.
Qed.

(** [createThread] never replaces a thread: under an identifier that
    is taken it changes nothing, and under a free one it registers an
    empty thread without artifact; the other threads are as before. *)
Theorem createThread_keeps_existing E sid threadId st newId st' :
  createThread E sid threadId st = (Ok newId, st') →
  store_wf st →
  store_wf st'
  ∧ memory st' = memory st
  ∧ (truthy_opt threadId = true → threadId = Some newId)
  ∧ (∀ s t, (s, t) ≠ (sid, newId) →
       thread_of st' s t = thread_of st s t
       ∧ thread_messages st' s t = thread_messages st s t)
  ∧ match thread_of st sid newId with
    | Some th =>
        thread_of st' sid newId = Some th
        ∧ thread_messages st' sid newId = thread_messages st sid newId
    | None =>
        is_Some (thread_of st' sid newId)
        ∧ thread_messages st' sid newId = []
        ∧ thread_lastImage st' sid newId = None
    end.
Proof.
  intros Hrun Hwf. unfold createThread in Hrun.
  destruct (choose_thread_id E threadId st)
    as (id0 & st2 & Hid & Hs2 & Ha2 & Hm2 & _ & Hnew).
  rewrite (bind_Ok _ _ _ _ _ Hid) in Hrun.
  assert (Hth2 : ∀ s t, thread_of st2 s t = thread_of st s t).
  { intros. unfold thread_of. by rewrite Hs2. }
  destruct (getSession_effect sid st2) as (st3 & Hsess & Hth3 & Ha3 & Hm3 & Hs3).
  rewrite (bind_Ok _ _ _ _ _ Hsess) in Hrun.
  assert (Hlook : default ∅ (store st2 !! sid) !! id0 = thread_of st sid id0).
  { rewrite <- Hth2. unfold thread_of. by destruct (store st2 !! sid). }
  rewrite Hlook in Hrun.
  destruct (thread_of st sid id0) as [th|] eqn:Hex.
  - erewrite (bind_Ok (ret tt)) in Hrun; [|reflexivity]. injection Hrun as <- <-.
    assert (Hth : ∀ s t, thread_of st3 s t = thread_of st s t).
    { intros. by rewrite Hth3, Hth2. }
    assert (Hmsgs : ∀ s t, thread_messages st3 s t = thread_messages st s t).
    { intros. unfold thread_messages, read_array. by rewrite Hth, Ha3, Ha2. }
    destruct Hwf as [Halloc Hsep].
    split; [split|].
    { intros s t th0. rewrite Hth, Ha3, Ha2. apply Halloc. }
    { intros s1 t1 s2 t2 th1 th2. rewrite !Hth. apply Hsep. }
    split; [congruence|]. split; [done|]. split; [by intros; split|].
    rewrite Hex. split; [by rewrite Hth|apply Hmsgs].
  - apply bind_Ok_inv in Hrun as ([] & st4 & Hmk & Hret). injection Hret as <- <-.
    apply bind_Ok_inv in Hmk as (arr & sa & Halloc_arr & Hset).
    injection Halloc_arr as <- <-. injection Hset as <-.
    assert (Hwf3 : store_wf st3).
    { destruct Hwf as [Halloc Hsep]. split.
      - intros s t th0. rewrite Hth3, Hth2, Ha3, Ha2. apply Halloc.
      - intros s1 t1 s2 t2 th1 th2. rewrite !Hth3, !Hth2. apply Hsep. }
    match goal with
    | |- store_wf ?final ∧ _ =>
        destruct (wf_register_new st3 final (sid, id0)
                    (mkThreadState (fresh (dom (arrays st3))) None None) [] Hwf3)
          as (Hwf' & Hlogs)
    end.
    { apply fresh_array_free. }
    { done. }
    { intros s t. unfold thread_of at 1. simpl. rewrite thread_of_set.
      case_decide; [done|]. reflexivity. }
    split; [done|]. split; [simpl; congruence|]. split; [done|].
    split.
    { intros s t Hne. split.
      - unfold thread_of at 1. simpl. rewrite thread_of_set, decide_False by done.
        fold (thread_of st3 s t). by rewrite Hth3, Hth2.
      - rewrite Hlogs by done. unfold thread_messages, read_array.
        by rewrite Hth3, Hth2, Ha3, Ha2. }
    rewrite Hex.
    assert (Hnew_thread : thread_of (with_store (λ S, <[sid := <[id0 :=
              mkThreadState (fresh (dom (arrays st3))) None None]>
              (default ∅ (S !! sid))]> S) (with_arrays (insert (fresh (dom (arrays st3))) [])
              st3)) sid id0
            = Some (mkThreadState (fresh (dom (arrays st3))) None None)).
    { unfold thread_of. simpl. rewrite thread_of_set, decide_True; done. }
    split; [by rewrite Hnew_thread|].
    unfold thread_messages, thread_lastImage. rewrite Hnew_thread. simpl.
    split; [|done]. unfold read_array. simpl. by rewrite lookup_insert_eq.
Qed.

(** A run: creating [main] again leaves its log as it was. *)
Lemma createThread_keeps_existing_witness :
  ∃ st',
    createThread Scenario.offline "s" (Some "main") empty_state = (Ok "main", st')
    ∧ thread_messages st' "s" "main" = [].
Proof.
  destruct (createThread Scenario.offline "s" (Some "main") empty_state)
    as [r st'] eqn:Hrun.
  assert (r = Ok "main") as -> by (by vm_compute in Hrun; injection Hrun as <- _).
  exists st'. split; [done|].
  destruct (createThread_keeps_existing _ _ _ _ _ _ Hrun wf_empty_state)
    as (_ & _ & _ & _ & Hnew).
  by destruct Hnew as (_ & Hlog & _).
Defined.

(** [deleteThread] tells whether the thread existed and removes it;
    its log then reads as empty; the other threads are as before. *)
Lemma deleteThread_effect sid tid st :
  ∃ st',
    deleteThread sid tid st = (Ok (bool_decide (is_Some (thread_of st sid tid))), st')
    ∧ thread_of st' sid tid = None
    ∧ thread_messages st' sid tid = []
    ∧ (∀ s t, (s, t) ≠ (sid, tid) →
         thread_of st' s t = thread_of st s t
         ∧ thread_messages st' s t = thread_messages st s t)
    ∧ arrays st' = arrays st ∧ memory st' = memory st
    ∧ (store_wf st → store_wf st').
Proof.
  unfold deleteThread.
  erewrite (bind_Ok (getSession sid)); [|apply getSession_eq].
  erewrite (bind_Ok (modify _)); [|reflexivity].
  assert (Hsame : (default ∅ (store st !! sid) : gmap string ThreadState) !! tid
                  = thread_of st sid tid).
  { unfold thread_of. by destruct (store st !! sid). }
  rewrite Hsame.
  eexists. split; [reflexivity|].
  set (st' := with_store _ _).
  assert (Hgone : thread_of st' sid tid = None).
  { unfold thread_of, st'. destruct (store st !! sid); simpl;
      rewrite lookup_insert_eq; simpl; by rewrite lookup_delete_eq. }
  assert (Hother : ∀ s t, (s, t) ≠ (sid, tid) → thread_of st' s t = thread_of st s t).
  { intros s t Hne. unfold thread_of, st'.
    destruct (decide (s = sid)) as [->|Hs].
    - assert (t ≠ tid) by congruence.
      destruct (store st !! sid) as [threads|] eqn:Hst; simpl;
        rewrite lookup_insert_eq; simpl; by rewrite lookup_delete_ne.
    - destruct (store st !! sid) as [threads|] eqn:Hst; simpl;
        by rewrite !lookup_insert_ne. }
  assert (Harr : arrays st' = arrays st) by (unfold st'; by destruct (store st !! sid)).
  assert (Hmem : memory st' = memory st) by (unfold st'; by destruct (store st !! sid)).
  split; [done|]. split; [by unfold thread_messages; rewrite Hgone|].
  split.
  { intros s t Hne. split; [by apply Hother|].
    unfold thread_messages, read_array. by rewrite Hother, Harr. }
  split; [done|]. split; [done|].
  intros [Halloc Hsep]. split.
  - intros s t th Hs. rewrite Harr.
    destruct (decide ((s, t) = (sid, tid))) as [[= -> ->]|Hne]; [congruence|].
    rewrite Hother in Hs by done. by eapply Halloc.
  - intros s1 t1 s2 t2 th1 th2 H1 H2.
    destruct (decide ((s1, t1) = (sid, tid))) as [[= -> ->]|N1]; [congruence|].
    destruct (decide ((s2, t2) = (sid, tid))) as [[= -> ->]|N2]; [congruence|].
    rewrite Hother in H1, H2 by done. by eapply Hsep.
Qed.

End Branching.

(** ** A request works on its own thread (app/api/messages/route.ts) *)

(** Goals [only_touches key m] for code written with the notations. *)
Ltac touches :=
  repeat first
    [ apply only_touches_addMessage
    | apply only_touches_setLastImage
    | apply only_touches_getThread
    | apply only_touches_Framed; solve [auto with framed]
    | apply only_touches_try_catch; [| intros ?]
    | apply only_touches_bind; [| intros ?]
    | progress cbv zeta
    | match goal with
      | |- only_touches _ (if ?b then _ else _) => destruct b
      | |- only_touches _ (match ?x with _ => _ end) => destruct x
      end ].

Lemma wf_one_artifact : Wf.store_wf Scenario.one_artifact.
Proof.
  unfold Scenario.one_artifact, Scenario.exec.
  destruct (bind (alloc_buffer _) _ empty_state) as [r0 st0] eqn:H0. simpl.
  assert (Hk : only_touches ("s", "main")
    (let! b := alloc_buffer [Byte.x01; Byte.x02; Byte.x03] in
     Store.setLastImage "s" "main" b "image/png";;
     Store.addMessage "s" "main"
       (mkChatMessage "1-a" assistant None (Some "/outputs/s/1.png") None 1))) by touches.
  by apply (Hk _ _ _ H0 wf_empty_state).
Qed.

(** A run: cloning [main], which holds an image and a message, into
    [fork] leaves [main] the object it was, and creates no thread
    [other]. *)
Lemma cloneThread_leaves_others_witness :
  ∃ st',
    Store.cloneThread Scenario.offline "s" (Some "main") (Some "fork") Scenario.one_artifact
      = (Ok "fork", st')
    ∧ Store.thread_of st' "s" "main" = Store.thread_of Scenario.one_artifact "s" "main"
    ∧ Store.thread_of st' "s" "other" = None.
Proof.
  destruct (Store.cloneThread Scenario.offline "s" (Some "main") (Some "fork")
              Scenario.one_artifact) as [r st'] eqn:Hrun.
  assert (r = Ok "fork") as -> by (by vm_compute in Hrun; injection Hrun as <- _).
  exists st'. split; [done|].
  destruct (cloneThread_leaves_others _ _ _ _ _ _ _ Hrun wf_one_artifact)
    as (_ & _ & _ & Hthreads).
  split.
  - pose proof (Hthreads "s" "main" ltac:(done)) as Hmain.
    destruct (Store.thread_of Scenario.one_artifact "s" "main") as [th|] eqn:Hth;
      [done | by vm_compute in Hth].
  - pose proof (Hthreads "s" "other" ltac:(done)) as Hother.
    destruct (Store.thread_of Scenario.one_artifact "s" "other") as [th|] eqn:Hth;
      [by vm_compute in Hth|].
    by rewrite decide_False in Hother.
Defined.

Section RequestIsolation.
Import Store Wf gemini route.

Lemma only_touches_generate E sid tid prompt modelId baseImage :
  only_touches (sid, tid) (generate E sid tid prompt modelId baseImage).
Proof. unfold generate. touches. Qed.

Lemma only_touches_report_error E sid tid e :
  only_touches (sid, tid) (report_error E sid tid e).
Proof. unfold report_error. touches. Qed.

Lemma only_touches_handle E sid prompt f :
  only_touches (sid, f_threadId f) (handle E sid prompt f).
Proof.
  unfold handle.
  pose proof only_touches_generate. pose proof only_touches_report_error.
  repeat first
    [ done
    | apply only_touches_addMessage
    | apply only_touches_getThread
    | apply only_touches_Framed; solve [auto with framed]
    | apply only_touches_try_catch; [| intros ?]
    | apply only_touches_bind; [| intros ?]
    | progress cbv zeta ].
Qed.

Lemma read_fields_thread E body st f st' :
  read_fields E body st = (Ok f, st') → f_threadId f = target_thread E body.
Proof.
  destruct body as [form | j | msg]; simpl; [| by intros [= <- _] | done].
  destruct (form_get "file" form) as [[s|content]|]; by intros [= <- _].
Qed.

(** A request changes no thread but the one it names, in the session
    of the caller: in a store where no two threads share a message
    array, every other thread, of this session or of another, is the
    same object with the same log after the request, whatever the
    request does, and the store is still such a store. *)
Theorem POST_only_touches_target E sid body st r st' :
  POST E sid body st = (r, st') →
  store_wf st →
  store_wf st'
  ∧ memory st ⊆ memory st'
  ∧ ∀ s t, (s, t) ≠ (sid, target_thread E body) →
      thread_of st' s t = thread_of st s t
      ∧ thread_messages st' s t = thread_messages st s t.
Proof.
  revert st r st'. change (only_touches (sid, target_thread E body) (POST E sid body)).
  intros st r st' Hrun Hwf. unfold POST in Hrun.
  destruct (read_fields E body st) as [[f|e] st1] eqn:Hread.
  - pose proof (read_fields_thread _ _ _ _ _ Hread) as Hthread.
    pose proof (only_touches_Framed (sid, target_thread E body) _
                  (Framed_read_fields E body) _ _ _ Hread Hwf) as (Hwf1 & Hmem1 & Hoth1).
    assert (Hstop : ∀ reply, (Ok reply, st1) = (r, st') →
      store_wf st' ∧ memory st ⊆ memory st'
      ∧ ∀ s t, (s, t) ≠ (sid, target_thread E body) →
          thread_of st' s t = thread_of st s t
          ∧ thread_messages st' s t = thread_messages st s t).
    { by intros reply [= <- <-]. }
    destruct (f_prompt f) as [| | |prompt| |]; try (by eapply Hstop).
    destruct (truthy_string prompt); [|by eapply Hstop].
    destruct (only_touches_handle E sid prompt f _ _ _ Hrun Hwf1) as (Hwf2 & Hmem2 & Hoth2).
    rewrite Hthread in Hoth2.
    split; [done|]. split; [by etrans|].
    intros s t Hne. destruct (Hoth1 s t Hne) as [<- <-]. by apply Hoth2.
  - injection Hrun as <- <-.
    by apply (only_touches_Framed _ _ (Framed_read_fields E body) _ _ _ Hread Hwf).
Qed.

(** A run of the isolation theorem: after a request on the thread
    [other], the thread [main] holds the message it held. *)
Lemma POST_only_touches_target_witness :
  ∃ r st',
    POST Scenario.offline "s" (JsonBody (JObj [("message", JStr "a logo");
                                               ("thread", JStr "other")]))
      Scenario.one_artifact = (r, st')
    ∧ thread_messages st' "s" "main" = thread_messages Scenario.one_artifact "s" "main".
Proof.
  destruct (POST Scenario.offline "s"
              (JsonBody (JObj [("message", JStr "a logo"); ("thread", JStr "other")]))
              Scenario.one_artifact) as [r st'] eqn:Hrun.
  exists r, st'. split; [done|].
  eapply (POST_only_touches_target _ _ _ _ _ _ Hrun); [|by vm_compute].
  unfold Scenario.one_artifact, Scenario.exec.
  destruct (bind (alloc_buffer _) _ empty_state) as [r0 st0] eqn:H0. simpl.
  assert (Hk : only_touches ("s", "main")
    (let! b := alloc_buffer [Byte.x01; Byte.x02; Byte.x03] in
     setLastImage "s" "main" b "image/png";;
     addMessage "s" "main"
       (mkChatMessage "1-a" assistant None (Some "/outputs/s/1.png") None 1))) by touches.
  by apply (Hk _ _ _ H0 wf_empty_state).
Defined.

End RequestIsolation.

(** ** The generation client (lib/gemini.ts) *)

Section ClientFacts.
Import gemini Polling ResponseOrder.

(** Off the members of [Object.prototype], [getSystemPrompt] always
    gives a text: the video text for the video model, else the text of
    the template that the identifier names, else the logo text. *)
Theorem getSystemPrompt_defined modelId templateId :
  (∀ tid, templateId = Some tid → tid ∉ Object_prototype_keys) →
  getSystemPrompt modelId templateId
  = Some (if bool_decide (modelId = Some "veo-3.0-generate-preview")
          then VIDEO_SYSTEM_PROMPT
          else match templateId ≫= λ tid, own_template tid PROMPT_TEMPLATES with
               | Some t => prompt t
               | None => prompt logo
               end).
Proof.
  intros Hkeys. unfold getSystemPrompt, PROMPT_TEMPLATES_get.
  case_bool_decide; [done|].
  destruct templateId as [tid|]; [|done].
  specialize (Hkeys tid eq_refl).
  change (Some tid ≫= λ tid0, own_template tid0 PROMPT_TEMPLATES)
    with (own_template tid PROMPT_TEMPLATES).
  destruct (own_template tid PROMPT_TEMPLATES) as [t|] eqn:Ht.
  - destruct tid; [by vm_compute in Ht | done].
  - rewrite bool_decide_eq_false_2 by done. by destruct (truthy_string tid).
Qed.

Lemma getSystemPrompt_defined_witness :
  getSystemPrompt None (Some "portrait") = Some (prompt portrait).
Proof.
  rewrite (getSystemPrompt_defined None (Some "portrait")); [done|].
  intros tid [= <-]. apply (bool_decide_unpack _). by vm_compute.
Defined.

(** Without a credential neither call sends a request: both fail with
    the configuration error and leave the state as it was. *)
Theorem missing_key_sends_nothing E image_params video_params st :
  truthy_opt (GOOGLE_API_KEY E) = false →
  generateOrEditImage E image_params st
    = (Throw "Missing GOOGLE_API_KEY in environment", st)
  ∧ generateVideo E video_params st
    = (Throw "Missing GOOGLE_API_KEY in environment", st).
Proof.
  intros Hkey. unfold generateOrEditImage, generateVideo, assertEnv. rewrite Hkey.
  split; reflexivity.
Qed.

Lemma missing_key_sends_nothing_witness :
  generateVideo (mkEnv None None (λ _, 0) (λ _, 0) (λ _, None) (λ _ _ _ _ _ _ _, None)
                   (λ _, "") (λ _, []) (λ _, "") (λ s, s)
                   (λ _ _ _ _, Scenario.no_response) (λ _ _, Scenario.no_response)
                   (λ _ _, Scenario.no_response) (λ _, (false, 0, []))
                   (λ s, s) (λ _, None) (λ _, true) (λ _ _, true))
    (mkGenerateVideoParams "a cat" None None) empty_state
  = (Throw "Missing GOOGLE_API_KEY in environment", empty_state).
Proof.
  eapply proj2.
  apply (missing_key_sends_nothing _ (mkGenerateImageParams "a cat" None None None)).
  reflexivity.
Defined.

(** With a credential, [generateOrEditImage] sends exactly one request,
    whatever the answer; it never waits and never polls; an answer
    that is not a success fails with the status and the body. *)
Theorem generateOrEditImage_one_request E params st :
  truthy_opt (GOOGLE_API_KEY E) = true →
  ∃ r st',
    generateOrEditImage E params st = (r, st')
    ∧ trace st' = trace st ++ [image_request_event E st params]
    ∧ store st' = store st ∧ arrays st' = arrays st ∧ memory st ⊆ memory st'
    ∧ (res_ok (image_response E st params) = false →
       r = Throw ("Gemini API error " +:+ pretty (res_status (image_response E st params))
                  +:+ ": " +:+ res_text (image_response E st params))
       ∧ memory st' = memory st).
Proof.
  intros Hkey.
  destruct (generateOrEditImage E params st) as [r st'] eqn:Hrun.
  exists r, st'. split; [done|].
  destruct (Framed_generateOrEditImage E params _ _ _ Hrun) as (Hs & Ha & Hm).
  unfold generateOrEditImage, assertEnv in Hrun. rewrite Hkey in Hrun.
  erewrite (bind_Ok (ret tt)) in Hrun; [|reflexivity].
  rewrite (bind_Ok _ _ _ _ _ (inline_of_base_eq E (gi_baseImage params) st)) in Hrun.
  erewrite (bind_Ok (emit _)) in Hrun; [|reflexivity]. cbv zeta in Hrun.
  fold (image_response E st params) in Hrun.
  fold (image_request_event E st params) in Hrun.
  destruct (res_ok (image_response E st params)); cbn [negb] in Hrun.
  - split; [|by repeat split].
    destruct (res_json (image_response E st params)) as [j|].
    + erewrite (bind_Ok (or_throw _ _)) in Hrun; [|reflexivity].
      destruct (find_image j) as [[d mime]|].
      * apply bind_inv in Hrun as [(b & s1 & Hb & Hr) | (e & Hb & _)].
        -- injection Hb as <- <-. by injection Hr as <- <-.
        -- done.
      * by injection Hrun as <- <-.
    + by injection Hrun as <- <-.
  - injection Hrun as <- <-. by repeat split.
Qed.

Lemma generateOrEditImage_one_request_witness :
  ∃ r st',
    generateOrEditImage Scenario.offline (mkGenerateImageParams "a logo" None None None)
      empty_state = (r, st')
    ∧ trace st' = [EvGenerateContent "gemini-2.5-flash-image-preview"
                     (Some (prompt logo)) None "a logo"].
Proof.
  destruct (generateOrEditImage_one_request Scenario.offline
              (mkGenerateImageParams "a logo" None None None) empty_state)
    as (r & st' & Hrun & Htr & _); [reflexivity|].
  by exists r, st'.
Defined.

(** *** Data URIs *)

#[local] Arguments mime_char : simpl never.

(** A data URI of an image is read back as it was written: for a
    subtype made of one or more letters, digits, dots, plus and minus
    signs and a payload without line terminator, the text
    [data:image/<subtype>;base64,<payload>] gives the payload and the
    MIME type [image/<subtype>]; and whatever [match_data_uri] gives
    comes from a text of that form. *)
Theorem match_data_uri_round_trip :
  (∀ subtype payload,
     subtype ≠ "" → all_chars mime_char subtype = true →
     no_line_terminator payload = true →
     match_data_uri ("data:image/" +:+ subtype +:+ ";base64," +:+ payload)
     = Some (payload, "image/" +:+ subtype))
  ∧ (∀ text payload mime,
       match_data_uri text = Some (payload, mime) →
       text = "data:" +:+ mime +:+ ";base64," +:+ payload
       ∧ no_line_terminator payload = true
       ∧ ∃ subtype, mime = "image/" +:+ subtype ∧ subtype ≠ ""
                    ∧ all_chars mime_char subtype = true).
Proof.
  split.
  - intros subtype payload Hne Hall Hpayload. unfold match_data_uri.
    rewrite (strip_prefix_app "data:image/").
    rewrite (span_mime_app subtype (";base64," +:+ payload) Hall) by done.
    rewrite (strip_prefix_app ";base64,"), Hpayload.
    by destruct subtype.
  - intros text payload mime. unfold match_data_uri.
    destruct (strip_prefix "data:image/" text) as [after|] eqn:Hpre; [|done].
    destruct (span_mime after) as [subtype rest] eqn:Hspan.
    destruct subtype as [|a subtype]; [done|].
    destruct (strip_prefix ";base64," rest) as [p|] eqn:Hb64; [|done].
    destruct (no_line_terminator p) eqn:Hnl; [|done].
    intros [= <- <-].
    apply strip_prefix_Some in Hpre, Hb64.
    apply span_mime_Some in Hspan as [Hafter Hall].
    split; [|split; [done|by exists (String a subtype)]].
    rewrite Hpre, Hafter, Hb64. reflexivity.
Qed.

Lemma match_data_uri_round_trip_witness :
  match_data_uri "data:image/svg+xml;base64,PHN2Zy8+" = Some ("PHN2Zy8+", "image/svg+xml").
Proof.
  apply (proj1 match_data_uri_round_trip "svg+xml" "PHN2Zy8+"); [done | reflexivity | reflexivity].
Defined.

(** *** The end of the polling loop *)

Lemma poll_loop_skip_pending E name k :
  ∀ n attempt st,
    (k ≤ n)%nat →
    (∀ i, (i < k)%nat → still_pending (fetch_operation E name (attempt + i)) = true) →
    poll_loop E name attempt n st
    = poll_loop E name (attempt + k) (n - k) (Nat.iter k (polled name) st).
Proof.
  induction k as [|k IH]; intros n attempt st Hk Hpending.
  - by rewrite Nat.add_0_r, Nat.sub_0_r.
  - destruct n as [|n]; [lia|]. cbn [poll_loop].
    assert (Hfirst : still_pending (fetch_operation E name attempt) = true).
    { specialize (Hpending 0%nat). rewrite Nat.add_0_r in Hpending. apply Hpending. lia. }
    rewrite (bind_Ok _ _ _ _ _ (poll_once_pending E name attempt st Hfirst)).
    rewrite (IH n (S attempt) (polled name st)); [|lia|].
    + rewrite iter_polled_shift. f_equal. lia.
    + intros i Hi. replace (S attempt + i)%nat with (attempt + S i)%nat by lia.
      apply Hpending. lia.
Qed.

Lemma poll_once_done E name attempt st j :
  res_ok (fetch_operation E name attempt) = true →
  res_json (fetch_operation E name attempt) = Some j →
  isRecord (Some j) = true →
  reports_done j = true →
  ∃ o st' tail,
    poll_once E name attempt st = (o, st')
    ∧ trace st' = trace (polled name st) ++ tail
    ∧ match video_uri j with
      | Some uri =>
          tail = [EvDownload uri]
          ∧ (if fetch_uri E uri is (true, _, content)
             then ∃ video, o = Ok (Some (video, "video/mp4"))
                           ∧ buffer_bytes st' video = content
             else o = Throw ("Failed to download video: "
                             +:+ pretty (snd (fst (fetch_uri E uri)))))
      | None =>
          tail = []
          ∧ o = Throw "Video generation completed but no video found in response"
      end.
Proof.
  intros Hok Hjson Hrec Hdone. unfold poll_once.
  erewrite (bind_Ok (emit _)); [|reflexivity].
  erewrite (bind_Ok (emit _)); [|reflexivity]. cbv zeta. rewrite Hok. cbn [negb].
  rewrite Hjson.
  erewrite (bind_Ok (or_throw _ _)); [|reflexivity]. rewrite Hrec.
  unfold reports_done in Hdone.
  destruct (get (Some j) "done") as [[|[]| | | |]|]; try done.
  fold (polled name st).
  destruct (video_uri j) as [uri|].
  - erewrite (bind_Ok (emit _)); [|reflexivity].
    destruct (fetch_uri E uri) as [[[] status] content].
    + match goal with
      | |- context [bind (alloc_buffer content) _ ?s] =>
          destruct (buffer_bytes_alloc content s) as (b & s' & Ha & Hb & Ht & _)
      end.
      rewrite (bind_Ok _ _ _ _ _ Ha).
      eexists _, _, _. split; [reflexivity|].
      split; [by rewrite Ht|]. split; [reflexivity|by exists b].
    + eexists _, _, _. split; [reflexivity|]. split; [reflexivity|]. by split.
  - eexists _, _, []. split; [reflexivity|]. split; [by rewrite app_nil_r|done].
Qed.

(** When an answer says [done: true], the loop ends at that poll: with
    the video when the answer names one that can be downloaded, with a
    failure otherwise. It does not poll again. *)
Theorem generateVideo_done_stops E params st name k j :
  started_operation E st params = Some name →
  (k < 40)%nat →
  (∀ i, (i < k)%nat → still_pending (fetch_operation E name i) = true) →
  res_ok (fetch_operation E name k) = true →
  res_json (fetch_operation E name k) = Some j →
  isRecord (Some j) = true →
  reports_done j = true →
  ∃ r st' tail,
    generateVideo E params st = (r, st')
    ∧ trace st' = trace st ++ [video_request_event E st params]
                  ++ poll_events name (S k) ++ tail
    ∧ match video_uri j with
      | Some uri =>
          tail = [EvDownload uri]
          ∧ (if fetch_uri E uri is (true, _, content)
             then ∃ video, r = Ok (video, "video/mp4") ∧ buffer_bytes st' video = content
             else r = Throw ("Failed to download video: "
                             +:+ pretty (snd (fst (fetch_uri E uri)))))
      | None =>
          tail = []
          ∧ r = Throw "Video generation completed but no video found in response"
      end.
Proof.
  intros Hstart Hk Hpending Hok Hjson Hrec Hdone.
  rewrite (generateVideo_started _ _ _ _ Hstart).
  rewrite (poll_loop_skip_pending E name k maxAttempts 0) by (unfold maxAttempts; done || lia).
  destruct (maxAttempts - k)%nat as [|n] eqn:Hn; [unfold maxAttempts in Hn; lia|].
  cbn [poll_loop]. simpl (0 + k)%nat.
  set (sk := Nat.iter k (polled name) (requested E params st)).
  assert (Htr : trace (polled name sk)
                = trace st ++ [video_request_event E st params] ++ poll_events name (S k)).
  { change (polled name sk) with (Nat.iter (S k) (polled name) (requested E params st)).
    rewrite trace_iter_polled. simpl. by rewrite <- app_assoc. }
  destruct (poll_once_done E name k sk j Hok Hjson Hrec Hdone)
    as (o & s' & tail & Hrun & Htail & Hres).
  rewrite Htr in Htail.
  destruct (video_uri j) as [uri|].
  - destruct Hres as [-> Hres].
    destruct (fetch_uri E uri) as [[[] status] content].
    + destruct Hres as (video & -> & Hbytes).
      rewrite (bind_Ok _ _ _ _ _ Hrun).
      exists (Ok (video, "video/mp4")), s', [EvDownload uri].
      split; [done|]. split; [by rewrite Htail, <- !app_assoc|]. split; [done|by exists video].
    + subst o. rewrite (bind_Throw _ _ _ _ _ Hrun).
      eexists _, s', [EvDownload uri].
      split; [done|]. split; [by rewrite Htail, <- !app_assoc|]. by split.
  - destruct Hres as [-> ->]. rewrite (bind_Throw _ _ _ _ _ Hrun).
    eexists _, s', []. split; [done|]. split; [by rewrite Htail, <- !app_assoc|]. by split.
Qed.

(** A run: the operation is finished at the third poll. *)
Lemma generateVideo_done_stops_witness :
  ∃ r st',
    generateVideo (Scenario.video_ready 2)
      (mkGenerateVideoParams "a cat that waves" None (Some "veo-3")) empty_state = (r, st')
    ∧ ∃ video, r = Ok (video, "video/mp4").
Proof.
  destruct (generateVideo_done_stops (Scenario.video_ready 2)
              (mkGenerateVideoParams "a cat that waves" None (Some "veo-3")) empty_state
              "operations/1" 2 Scenario.finished)
    as (r & st' & tail & Hrun & _ & Hres); try reflexivity.
  - lia.
  - intros i Hi. by destruct i as [|[|i]]; [| |lia].
  - exists r, st'. split; [done|]. simpl in Hres. destruct Hres as (_ & video & -> & _).
    by exists video.
Defined.

(** When the first answer is no operation, [generateVideo] fails
    without waiting or polling. *)
Theorem generateVideo_without_operation E params st :
  started_operation E st params = None →
  ∃ e st',
    generateVideo E params st = (Throw e, st')
    ∧ (trace st' = trace st ∨ trace st' = trace st ++ [video_request_event E st params])
    ∧ store st' = store st ∧ arrays st' = arrays st ∧ memory st' = memory st.
Proof.
  unfold started_operation, generateVideo, assertEnv.
  destruct (truthy_opt (GOOGLE_API_KEY E)); [|by eexists _, _; eauto 10].
  cbv zeta.
  erewrite (bind_Ok (ret tt)); [|reflexivity].
  rewrite (bind_Ok _ _ _ _ _ (inline_of_base_eq E (gv_baseImage params) st)).
  erewrite (bind_Ok (emit _)); [|reflexivity].
  fold (video_request_event E st params).
  destruct (res_ok _); cbn [negb]; [|by eexists _, _; eauto 10].
  destruct (res_json _) as [j|]; [|by eexists _, _; eauto 10].
  erewrite (bind_Ok (or_throw _ _)); [|reflexivity].
  destruct (isRecord (Some j)); [|by eexists _, _; eauto 10].
  intros ->. by eexists _, _; eauto 10.
Qed.

Lemma generateVideo_without_operation_witness :
  ∃ e st',
    generateVideo Scenario.offline (mkGenerateVideoParams "a cat" None None) empty_state
    = (Throw e, st').
Proof.
  destruct (generateVideo_without_operation Scenario.offline
              (mkGenerateVideoParams "a cat" None None) empty_state)
    as (e & st' & Hrun & _); [reflexivity|].
  by exists e, st'.
Defined.

End ClientFacts.

(** ** What a request leaves behind (app/api/messages/route.ts) *)

Section RequestOutcome.
Import image Store gemini route Wf.

Lemma read_fields_upload E body st f st' b :
  read_fields E body st = (Ok f, st') →
  f_uploadBuffer f = Some b →
  ∃ fields content,
    body = FormBody fields
    ∧ form_get "file" fields = Some (FormFile content)
    ∧ buffer_bytes st' b = content.
Proof.
  destruct body as [form | j | msg]; [| by intros [= <- _] | done].
  unfold read_fields. intros Hrun Hup.
  destruct (form_get "file" form) as [[s|content]|] eqn:Hfile.
  - injection Hrun as <- _. done.
  - apply bind_Ok_inv in Hrun as (u & s1 & Hu & Hret).
    apply bind_Ok_inv in Hu as (b0 & s2 & Ha & Hr).
    injection Hr as <- <-. injection Hret as <- <-. simpl in Hup. injection Hup as <-.
    destruct (buffer_bytes_alloc content st) as (b1 & s3 & Ha' & Hb & _).
    rewrite Ha in Ha'. injection Ha' as <- <-.
    by exists form, content.
  - injection Hrun as <- _. done.
Qed.

(** A failure leaves the handler unanswered in one case only: the
    request carries a file that sharp cannot decode. The thread has
    then gained the user message and nothing else, and its artifact is
    the one it had. Every request without a file is answered. *)
Theorem POST_failure_is_upload E sid body st e st' :
  sharp_contract E →
  POST E sid body st = (Throw e, st') →
  ∃ fields content userMsg,
    body = FormBody fields
    ∧ form_get "file" fields = Some (FormFile content)
    ∧ sharp_metadata E content = None
    ∧ thread_messages st' sid (target_thread E body)
      = thread_messages st sid (target_thread E body) ++ [userMsg]
    ∧ role userMsg = user
    ∧ thread_lastImage st' sid (target_thread E body)
      = thread_lastImage st sid (target_thread E body).
Proof.
  intros Hsharp Hrun. unfold POST in Hrun.
  destruct (read_fields E body st) as [[f|msg] st1] eqn:Hread; [|done].
  pose proof (read_fields_thread _ _ _ _ _ Hread) as Hthread.
  pose proof (Framed_read_fields E body _ _ _ Hread) as Fread.
  destruct (f_prompt f) as [| | |prompt| |]; try done.
  destruct (truthy_string prompt); [|done].
  apply handle_outcome in Hrun
    as (userMsg & ts & st2 & Huser & Hmsgs & Himg & Hmime & Hmem & H).
  destruct H as [(e' & Hbase & [= <-] & F) | [(? & ? & ? & _ & _ & _ & ?)
                                            | (? & ? & ? & ? & ? & _ & _ & _ & ? & _)]];
    [| done | done].
  rewrite Hthread in Hmsgs, Himg.
  unfold resolve_base in Hbase.
  apply bind_inv in Hbase as [(n & s2 & Hn & Hrest) | (e1 & Hn & [= <-])].
  { destruct (theme_buffer_total E (f_themeName f) s2) as (o & s3 & Ho).
    by rewrite (bind_Ok _ _ _ _ _ Ho) in Hrest. }
  unfold normalize_upload in Hn. destruct (f_uploadBuffer f) as [u|] eqn:Hu; [|done].
  apply bind_inv in Hn as [(n & s2 & _ & ?) | (e1 & Hn & [= <-])]; [done|].
  destruct (read_fields_upload _ _ _ _ _ _ Hread Hu) as (fields & content & Hbody & Hfile & Hbytes).
  exists fields, content, userMsg. split; [done|]. split; [done|].
  split.
  { apply enforcePng1024_Throw in Hn; [|done].
    by rewrite (buffer_bytes_same_memory _ _ _ Hmem), Hbytes in Hn. }
  split.
  { by rewrite (frame_thread_messages _ _ _ _ F), Hmsgs, (frame_thread_messages _ _ _ _ Fread). }
  split; [apply Huser|].
  by rewrite (frame_thread_lastImage _ _ _ _ F), Himg, (frame_thread_lastImage _ _ _ _ Fread).
Qed.

(** A run: the uploaded file holds two letters. *)
Lemma POST_failure_is_upload_witness :
  ∃ e st' content,
    POST Scenario.offline "s" Scenario.upload_of_text Scenario.one_artifact = (Throw e, st')
    ∧ Scenario.metadata content = None
    ∧ thread_lastImage st' "s" "main" = thread_lastImage Scenario.one_artifact "s" "main".
Proof.
  assert (Hrun : ∃ e st',
    POST Scenario.offline "s" Scenario.upload_of_text Scenario.one_artifact = (Throw e, st')).
  { eexists _, _. by vm_compute. }
  destruct Hrun as (e & st' & Hrun).
  destruct (POST_failure_is_upload _ _ _ _ _ _
              (Scenario_sharp_contract _ _ _ _ _) Hrun)
    as (fields & content & userMsg & _ & _ & Hmeta & _ & _ & Himg).
  by exists e, st', content.
Defined.

(** Every answer has the status 200, 400 or 500. A request that is
    answered with 400 leaves the threads as they were: no thread is
    created and no message is recorded. A request that is answered
    with 200 or 500 adds two messages to its thread, and no more: the
    message of the user and one message of the assistant; with 500 the
    artifact of the thread is the one it had. *)
Theorem POST_answer_recorded E sid body st reply st' :
  POST E sid body st = (Ok reply, st') →
  (status reply = 400 ∧ store st' = store st ∧ arrays st' = arrays st)
  ∨ ((status reply = 200 ∨ status reply = 500)
     ∧ ∃ userMsg answer,
         thread_messages st' sid (target_thread E body)
         = thread_messages st sid (target_thread E body) ++ [userMsg; answer]
         ∧ role userMsg = user ∧ role answer = assistant
         ∧ (status reply = 500 →
            thread_lastImage st' sid (target_thread E body)
            = thread_lastImage st sid (target_thread E body))).
Proof.
  intros Hrun. unfold POST in Hrun.
  destruct (read_fields E body st) as [[f|msg] st1] eqn:Hread; cycle 1.
  { injection Hrun as <- <-. left.
    destruct (Framed_read_fields E body _ _ _ Hread) as (? & ? & _). done. }
  pose proof (read_fields_thread _ _ _ _ _ Hread) as Hthread.
  pose proof (Framed_read_fields E body _ _ _ Hread) as Fread.
  assert (Hreject : (Ok (mkReply 400 (ErrorBody "Missing message")), st1) = (Ok reply, st') →
    status reply = 400 ∧ store st' = store st ∧ arrays st' = arrays st).
  { intros [= <- <-]. by destruct Fread as (? & ? & _). }
  destruct (f_prompt f) as [| | |prompt| |]; try (left; by apply Hreject).
  destruct (truthy_string prompt); [|left; by apply Hreject].
  clear Hreject. right.
  apply handle_outcome in Hrun
    as (userMsg & ts & st2 & Huser & Hmsgs & Himg & Hmime & Hmem & H).
  rewrite Hthread in *.
  rewrite (frame_thread_messages _ _ _ _ Fread) in Hmsgs.
  rewrite (frame_thread_lastImage _ _ _ _ Fread) in Himg.
  destruct H as [(e' & _ & ? & _)
    | [(base & st3 & reply' & _ & F23 & Hgen & [= <-])
      | (base & st3 & e & st4 & errMsg & _ & _ & F24 & [= ->] & Herr & Hlog & Hi & _)]];
    [done | |].
  - assert (∃ msg, role msg = assistant ∧ status reply = 200
            ∧ thread_messages st' sid (target_thread E body)
              = thread_messages st3 sid (target_thread E body) ++ [msg])
      as (msg & Hrole & Hstatus & Hlog).
    { destruct (decide (f_modelId f = Some "veo-3")) as [Hv|Hm].
      - rewrite Hv in Hgen.
        apply generate_video_Ok in Hgen
          as (? & ? & ? & msg & ? & _ & -> & (? & _) & _ & ? & _).
        by exists msg.
      - apply generate_image_Ok in Hgen
          as (? & ? & ? & ? & ? & msg & ? & _ & _ & -> & (? & _) & _ & ? & _); [|done].
        by exists msg. }
    split; [by left|]. exists userMsg, msg.
    split; [|split; [apply Huser|split; [done|intros; congruence]]].
    by rewrite Hlog, (frame_thread_messages _ _ _ _ F23), Hmsgs, <- app_assoc.
  - split; [by right|]. exists userMsg, errMsg.
    split; [|split; [apply Huser|split; [apply Herr|intros _]]].
    + by rewrite Hlog, (frame_thread_messages _ _ _ _ F24), Hmsgs, <- app_assoc.
    + by rewrite Hi, (frame_thread_lastImage _ _ _ _ F24), Himg.
Qed.

(** A run: the model API is down; the request is answered with 500
    and the thread has two more messages. *)
Lemma POST_answer_recorded_witness :
  ∃ reply st',
    POST Scenario.offline "s"
      (JsonBody (JObj [("message", JStr "a logo"); ("thread", JStr "main")]))
      Scenario.one_artifact = (Ok reply, st')
    ∧ length (thread_messages st' "s" "main") = 3%nat.
Proof.
  assert (Hrun : ∃ reply st',
    POST Scenario.offline "s"
      (JsonBody (JObj [("message", JStr "a logo"); ("thread", JStr "main")]))
      Scenario.one_artifact = (Ok reply, st') ∧ status reply = 500).
  { eexists _, _. split; by vm_compute. }
  destruct Hrun as (reply & st' & Hrun & Hstatus).
  exists reply, st'. split; [exact Hrun|].
  destruct (POST_answer_recorded _ _ _ _ _ _ Hrun)
    as [(H400 & _) | (_ & userMsg & answer & Hlog & _)]; [congruence|].
  change (target_thread _ _) with "main" in Hlog. rewrite Hlog.
  rewrite length_app. by vm_compute.
Defined.

(** A run of [failed_generation_recorded]: the model API is down. *)
Lemma failed_generation_recorded_witness :
  ∃ reply st' e,
    handle Scenario.offline "s" "a logo" (mkFields (JStr "a logo") None None None "main")
      Scenario.one_artifact = (Ok reply, st')
    ∧ reply = mkReply 500 (ErrorBody ("Error: " +:+ e)).
Proof.
  assert (Hrun : ∃ reply st',
    handle Scenario.offline "s" "a logo" (mkFields (JStr "a logo") None None None "main")
      Scenario.one_artifact = (Ok reply, st') ∧ status reply ≠ 200).
  { eexists _, _. split; by vm_compute. }
  destruct Hrun as (reply & st' & Hrun & Hstatus).
  destruct (failed_generation_recorded _ _ _ _ _ _ _ Hrun Hstatus)
    as (userMsg & errMsg & e & Hreply & _).
  by exists reply, st', e.
Defined.

(** Reading the messages of a thread returns its log, the empty log
    for a thread that does not exist, and changes the log of no
    thread; the thread that was read exists afterwards. *)
Theorem GET_reads_log sid thread st :
  store_wf st →
  ∃ st',
    GET sid thread st
    = (Ok (or_else thread "default", thread_messages st sid (or_else thread "default")), st')
    ∧ store_wf st'
    ∧ is_Some (thread_of st' sid (or_else thread "default"))
    ∧ (∀ s t, thread_messages st' s t = thread_messages st s t)
    ∧ (∀ s t, (s, t) ≠ (sid, or_else thread "default") →
         thread_of st' s t = thread_of st s t)
    ∧ memory st' = memory st ∧ trace st' = trace st.
Proof.
  intros Hwf. unfold GET. set (tid := or_else thread "default").
  destruct (getThread_spec sid tid st)
    as (t & st1 & Hget & Ht & Hread & _ & _ & Hmem & _ & _ & Htr).
  destruct (only_touches_getThread _ _ _ _ _ Hget Hwf) as (Hwf1 & _ & Hother).
  exists st1. split.
  { assert (Hmsgs : getMessages sid tid st = (Ok (thread_messages st sid tid), st1)).
    { unfold getMessages. rewrite (bind_Ok _ _ _ _ _ Hget). unfold gets. by rewrite Hread. }
    by rewrite (bind_Ok _ _ _ _ _ Hmsgs). }
  split; [done|]. split; [by rewrite Ht|]. split.
  { intros s t'. destruct (decide ((s, t') = (sid, tid))) as [[= -> ->]|Hne].
    - unfold thread_messages at 1. by rewrite Ht.
    - by apply Hother. }
  split; [intros s t' Hne; by apply Hother|]. done.
Qed.

Lemma GET_reads_log_witness :
  ∃ st', GET "s" (Some "") empty_state = (Ok ("default", []), st').
Proof.
  destruct (GET_reads_log "s" (Some "") empty_state wf_empty_state) as (st' & Hrun & _).
  by exists st'.
Defined.

(** A message that was added is the last one that is read. *)
Theorem getMessages_after_addMessage sid tid m st :
  ∃ st',
    (addMessage sid tid m;; getMessages sid tid) st
    = (Ok (thread_messages st sid tid ++ [m]), st')
    ∧ thread_messages st' sid tid = thread_messages st sid tid ++ [m].
Proof.
  destruct (addMessage_spec sid tid m st) as (st1 & Hadd & Hlog & _).
  destruct (getThread_spec sid tid st1) as (t & st2 & Hget & Ht & Hread & _).
  exists st2. rewrite (bind_Ok _ _ _ _ _ Hadd). unfold getMessages.
  rewrite (bind_Ok _ _ _ _ _ Hget). unfold gets. rewrite Hread, Hlog.
  split; [done|]. unfold thread_messages at 1. by rewrite Ht, Hread.
Qed.

End RequestOutcome.

(** ** The thread endpoint (app/api/threads/route.ts) *)

Section ThreadsRoute.
Import Store Wf.

Lemma createThread_registers E sid threadId st :
  ∃ id st',
    createThread E sid threadId st = (Ok id, st')
    ∧ is_Some (thread_of st' sid id) ∧ memory st' = memory st.
Proof.
  unfold createThread.
  destruct (choose_thread_id E threadId st) as (id0 & st2 & Hid & Hs2 & Ha2 & Hm2 & _).
  rewrite (bind_Ok _ _ _ _ _ Hid).
  destruct (getSession_effect sid st2) as (st3 & Hsess & Hth3 & Ha3 & Hm3 & Hs3).
  rewrite (bind_Ok _ _ _ _ _ Hsess).
  destruct (default ∅ (store st2 !! sid) !! id0) as [th|] eqn:Hex.
  - erewrite (bind_Ok (ret tt)); [|reflexivity].
    eexists _, _. split; [reflexivity|]. split; [|congruence].
    unfold thread_of. rewrite Hs3. simpl. by rewrite Hex.
  - eexists _, _. split; [reflexivity|]. split; [|simpl; congruence].
    unfold thread_of. simpl. rewrite thread_of_set, decide_True; done.
Qed.

(** The endpoint that opens a thread never fails: it answers with the
    identifier of a thread that exists in the session of the caller
    after the call, and it allocates no memory, with or without a
    source thread. *)
Theorem threads_POST_registers E sid body st :
  ∃ id st',
    threads.POST E sid body st = (Ok (threads.Created id), st')
    ∧ is_Some (thread_of st' sid id)
    ∧ memory st' = memory st.
Proof.
  unfold threads.POST. cbv zeta.
  destruct (route.trimmed E _) as [src|].
  - destruct (cloneThread_run E sid (Some src) None st)
      as (t & st1 & newId & st' & f & log & Hget & Hrun & _ & _ & Hmem & Hth).
    destruct (getThread_spec sid (default "default" (Some src)) st)
      as (t0 & st0 & Hget0 & _ & _ & _ & _ & Hmem0 & _).
    rewrite Hget in Hget0. injection Hget0 as <- <-.
    rewrite (bind_Ok _ _ _ _ _ Hrun). exists newId, st'.
    split; [done|]. split; [|congruence].
    rewrite Hth, decide_True; done.
  - destruct (createThread_registers E sid None st) as (id & st' & Hrun & Hreg & Hmem).
    rewrite (bind_Ok _ _ _ _ _ Hrun). by exists id, st'.
Qed.

(** Deleting answers with the error 400, and changes nothing, when
    the request names no thread: the query parameter is absent or
    empty, and the body is not an object whose field [thread] is a
    string that is not empty. Otherwise the thread that is named, by
    the query first and else by the body, is removed, the answer tells
    whether it existed, and the other threads are as before. *)
Theorem threads_DELETE_outcome sid param body st :
  ∃ a st',
    threads.DELETE sid param body st = (Ok a, st')
    ∧ match named_thread param body with
      | Some tid =>
          a = threads.Deleted (bool_decide (is_Some (thread_of st sid tid)))
          ∧ thread_of st' sid tid = None
          ∧ ∀ s t, (s, t) ≠ (sid, tid) →
              thread_of st' s t = thread_of st s t
              ∧ thread_messages st' s t = thread_messages st s t
      | None => a = threads.Failed 400 "Missing thread" ∧ st' = st
      end.
Proof.
  unfold threads.DELETE. cbv zeta.
  assert (Hdel : ∀ tid,
    ∃ a st',
      (let! ok := deleteThread sid tid in ret (threads.Deleted ok)) st = (Ok a, st')
      ∧ a = threads.Deleted (bool_decide (is_Some (thread_of st sid tid)))
      ∧ thread_of st' sid tid = None
      ∧ ∀ s t, (s, t) ≠ (sid, tid) →
          thread_of st' s t = thread_of st s t
          ∧ thread_messages st' s t = thread_messages st s t).
  { intros tid.
    destruct (deleteThread_effect sid tid st) as (st' & Hrun & Hgone & _ & Hother & _).
    rewrite (bind_Ok _ _ _ _ _ Hrun). by eexists _, st'. }
  destruct param as [[|a p]|]; simpl; [| apply Hdel |].
  - destruct body as [[| | | |items|fields]|]; simpl; try (by eexists _, _).
    destruct (assoc "thread" fields) as [[| | |[|b t]| |]|]; simpl;
      try (by eexists _, _). apply Hdel.
  - destruct body as [[| | | |items|fields]|]; simpl; try (by eexists _, _).
    destruct (assoc "thread" fields) as [[| | |[|b t]| |]|]; simpl;
      try (by eexists _, _). apply Hdel.
Qed.

(** A run: the body names the thread [main], which exists. *)
Lemma threads_DELETE_outcome_witness :
  ∃ st',
    threads.DELETE "s" None (Some (JObj [("thread", JStr "main")])) Scenario.one_artifact
    = (Ok (threads.Deleted true), st')
    ∧ thread_of st' "s" "main" = None.
Proof.
  destruct (threads_DELETE_outcome "s" None (Some (JObj [("thread", JStr "main")]))
              Scenario.one_artifact) as (a & st' & Hrun & Hnamed).
  simpl in Hnamed. destruct Hnamed as (-> & Hgone & _).
  exists st'. split; [|done]. rewrite Hrun. do 2 f_equal.
Defined.

End ThreadsRoute.

(** ** The crop of the normaliser (lib/image.ts) *)

Section Crop.
Import image.

(** The square that [enforcePng1024] cuts out is centred: it touches
    two opposite sides of the image, and the margins on the two other
    sides differ by one pixel at most, the smaller one on the left or
    at the top. *)
Theorem crop_square_centred width height :
  let '(left_, top_, size) := crop_square width height in
  size = Z.min width height
  ∧ (left_ = 0 ∨ top_ = 0)
  ∧ 0 ≤ (width - size - left_) - left_ ≤ 1
  ∧ 0 ≤ (height - size - top_) - top_ ≤ 1.
Proof.
  unfold crop_square. cbv zeta.
  pose proof (Z.div_mod (width - Z.min width height) 2 ltac:(lia)) as Hw.
  pose proof (Z.mod_pos_bound (width - Z.min width height) 2 ltac:(lia)) as Hwm.
  pose proof (Z.div_mod (height - Z.min width height) 2 ltac:(lia)) as Hh.
  pose proof (Z.mod_pos_bound (height - Z.min width height) 2 ltac:(lia)) as Hhm.
  split; [done|]. lia.
Qed.

End Crop.

(** ** A run of the fact about the artifact of a clone *)

Section Runs.
Import Store.

(** A run: the clone [fork] of [main] holds a window onto the memory
    of the artifact of [main]. *)
Lemma cloneThread_artifact_shared_witness :
  ∃ b newId st' b',
    thread_lastImage Scenario.one_artifact "s" "main" = Some b
    ∧ cloneThread Scenario.offline "s" (Some "main") (Some "fork") Scenario.one_artifact
      = (Ok newId, st')
    ∧ thread_lastImage st' "s" newId = Some b'
    ∧ buf_mem b' = buf_mem b.
Proof.
  assert (Hb : ∃ b, thread_lastImage Scenario.one_artifact "s"
                      (default "default" (Some "main")) = Some b).
  { eexists. by vm_compute. }
  destruct Hb as (b & Hb).
  destruct (cloneThread_artifact_shared Scenario.offline "s" (Some "main") (Some "fork")
              _ b Hb) as (newId & st' & b' & Hrun & Himg & Hmem & _).
  by exists b, newId, st', b'.
Defined.

End Runs.
